(** * AUJI backend: the scrape-normalise-upsert pipeline

    A shallow embedding of the ingestion core of the AUJI job aggregator:

    - [Py]: the few Python primitives the sources rely on (text as UTF-8,
      [str.strip], [str.lower], substring tests, decimal digits, [datetime]
      arithmetic with its range checks, exceptions as an outcome type);
    - [Normalize]: [app/utils/normalize.py];
    - [Mostaql]: the Arabic relative-time parser and the title classifier of
      [app/services/scraper/mostaql.py];
    - [Models], [Db]: the [Job] table of [app/models.py] and the session of
      [app/db.py];
    - [Save]: the upsert of [app/services/scraper/save.py];
    - [Vodafone]: the English relative-time parser, the canonical apply URL
      and the bulk upsert of [app/services/scraper/vodafone.py];
    - [Urllib]: [urlencode], [urlunparse] and an ordered [parse_qs];
    - [MostaqlListing], [VodafoneSearch], [VodafoneAutofill]: the addresses
      the two scrapers ask for and the apply links read back from the
      table;
    - [Jobs]: the listings of [app/routers/jobs.py];
    - [Scrape]: the configuration [app/routers/scrape.py] builds for an
      application;
    - [Domain]: the inputs on which the models of [str.lower], [int] and
      [commit] are those functions. *)

From Stdlib Require Import ZArith NArith String Ascii List Bool Lia.
From Stdlib Require Import Sorted.
From Stdlib Require DecimalString.
From stdpp Require Import base option list strings gmap.
Import ListNotations.

Local Open Scope string_scope.

(* ===================================================================== *)
(** * Python primitives *)
(* ===================================================================== *)

Module Py.

(** Exceptions the modelled code can raise. *)
Inductive exn := ValueError | OverflowError.

(** The result of a call: a value, or an exception that propagates. *)
Inductive outcome (A : Type) : Type :=
| Ret (a : A)
| Raise (e : exn).
Arguments Ret {A} a.
Arguments Raise {A} e.

Definition bind {A B} (m : outcome A) (k : A -> outcome B) : outcome B :=
  match m with
  | Ret a => k a
  | Raise e => Raise e
  end.

(** ** Text

    A Python [str] is represented by its UTF-8 encoding.  UTF-8 is
    self-synchronising, so [x in s], [==] and concatenation on [str] are the
    same operations on the encodings.  Operations that look at single
    characters go through [chars], which cuts the encoding into characters. *)

Definition byte_val (b : ascii) : N := N_of_ascii b.

(** Continuation bytes [10xxxxxx] belong to the character begun before. *)
Definition is_cont (b : ascii) : bool :=
  (128 <=? byte_val b)%N && (byte_val b <? 192)%N.

Definition starts_with_cont (c : string) : bool :=
  match c with
  | String b _ => is_cont b
  | EmptyString => false
  end.

Fixpoint chars (s : string) : list string :=
  match s with
  | EmptyString => []
  | String b r =>
      match chars r with
      | c :: cs =>
          if starts_with_cont c then String b c :: cs
          else String b EmptyString :: c :: cs
      | [] => [String b EmptyString]
      end
  end.

Definition join (cs : list string) : string :=
  fold_right String.append EmptyString cs.

(** The code point of one encoded character. *)
Definition codepoint (c : string) : N :=
  match List.map byte_val (list_ascii_of_string c) with
  | [a] => a
  | [a; b] => (a - 192) * 64 + (b - 128)
  | [a; b; c] => (a - 224) * 4096 + (b - 128) * 64 + (c - 128)
  | [a; b; c; d] =>
      (a - 240) * 262144 + (b - 128) * 4096 + (c - 128) * 64 + (d - 128)
  | _ => 1114112
  end%N.

(** [str.isspace], which is also the class [\s] of [re] on [str]. *)
Definition whitespace : list N :=
  [9; 10; 11; 12; 13; 28; 29; 30; 31; 32; 133; 160; 5760;
   8192; 8193; 8194; 8195; 8196; 8197; 8198; 8199; 8200; 8201; 8202;
   8232; 8233; 8239; 8287; 12288]%N.

Definition isspace (c : string) : bool :=
  existsb (N.eqb (codepoint c)) whitespace.

(** The class [\d] of [re] on [str]: the decimal digits of every script
    (general category Nd, Unicode 14).  Each script lists its ten digits
    consecutively; [decimal_zeros] holds the code point of each zero. *)
Definition decimal_zeros : list N :=
  [48; 1632; 1776; 1984; 2406; 2534; 2662; 2790; 2918; 3046; 3174; 3302;
   3430; 3558; 3664; 3792; 3872; 4160; 4240; 6112; 6160; 6470; 6608; 6784;
   6800; 6992; 7088; 7232; 7248; 42528; 43216; 43264; 43472; 43504; 43600;
   44016; 65296; 66720; 68912; 69734; 69872; 69942; 70096; 70384; 70736;
   70864; 71248; 71360; 71472; 71904; 72016; 72784; 73040; 73120; 92768;
   92864; 93008; 120782; 120792; 120802; 120812; 120822; 123200; 123632;
   125264; 130032]%N.

(** The value of a decimal digit, [None] for any other character. *)
Definition digit_value (c : string) : option Z :=
  let cp := codepoint c in
  match List.find (fun z => (z <=? cp)%N && (cp <? z + 10)%N) decimal_zeros with
  | Some z => Some (Z.of_N (cp - z))
  | None => None
  end.

Definition isdigit (c : string) : bool :=
  match digit_value c with Some _ => true | None => false end.

(** [int(ds)] for a run of decimal digits.  The cap CPython 3.11 puts on
    the number of digits is left out: on a run of more than 4300 digits
    [int] raises ValueError, so [int_of_digits] is [int] on the runs up to
    that length. *)
Definition int_of_digits (ds : list string) : Z :=
  fold_left (fun acc c => 10 * acc + default 0 (digit_value c))%Z ds 0%Z.

Fixpoint drop_while {A} (p : A -> bool) (l : list A) : list A :=
  match l with
  | x :: r => if p x then drop_while p r else l
  | [] => []
  end.

Fixpoint take_while {A} (p : A -> bool) (l : list A) : list A :=
  match l with
  | x :: r => if p x then x :: take_while p r else []
  | [] => []
  end.

(** [s.strip()] *)
Definition strip (s : string) : string :=
  join (rev (drop_while isspace (rev (drop_while isspace (chars s))))).

(** [s.lower()].  ASCII capitals are folded and every other byte is kept:
    this is [str.lower] on text written in ASCII and in caseless scripts
    such as Arabic, the two the tables of this program are written in.  A
    cased letter outside ASCII is not folded here, where [str.lower] folds
    it (the Kelvin sign to "k"). *)
Definition lower_byte (b : ascii) : ascii :=
  if (65 <=? byte_val b)%N && (byte_val b <=? 90)%N
  then ascii_of_N (byte_val b + 32)
  else b.

Fixpoint lower (s : string) : string :=
  match s with
  | EmptyString => EmptyString
  | String b r => String (lower_byte b) (lower r)
  end.

(** [sub in s] *)
Fixpoint contains (sub s : string) : bool :=
  String.prefix sub s ||
  match s with
  | String _ r => contains sub r
  | EmptyString => false
  end.

(** [s.replace(a, b)] for a single character [a]. *)
Definition replace_char (a b s : string) : string :=
  join (List.map (fun c => if String.eqb c a then b else c) (chars s)).

(** ** Values held by a posting dict or a row attribute *)

Inductive pyval :=
| PNone
| PStr (s : string)
| PTime (t : Z).

(** Truth value: [if v:] *)
Definition truthy (v : pyval) : bool :=
  match v with
  | PNone => false
  | PStr s => negb (String.eqb s "")
  | PTime _ => true
  end.

(** [v in (None, "")] *)
Definition blank (v : pyval) : bool :=
  match v with
  | PNone => true
  | PStr s => String.eqb s ""
  | PTime _ => false
  end.

(** [a or b] *)
Definition por (a b : pyval) : pyval := if truthy a then a else b.

(** ** [datetime]

    A [datetime] is the number of microseconds since 0001-01-01T00:00:00,
    the smallest value of the type; the largest is the last microsecond of
    year 9999. *)

Definition us_per_second : Z := 1000000.
Definition us_per_minute : Z := 60 * us_per_second.
Definition us_per_hour : Z := 60 * us_per_minute.
Definition us_per_day : Z := 24 * us_per_hour.

(** [date.max.toordinal()] *)
Definition max_ordinal : Z := 3652059.

Definition valid_datetime (t : Z) : Prop :=
  (0 <= t < max_ordinal * us_per_day)%Z.

(** [t - timedelta(microseconds=d)] for [d >= 0].  Building a [timedelta]
    of more than 999999999 days and leaving the range of [datetime] both
    raise OverflowError, and the first implies the second. *)
Definition datetime_sub (t d : Z) : outcome Z :=
  if (t - d <? 0)%Z then Raise OverflowError else Ret (t - d)%Z.

End Py.

Import Py.

(* ===================================================================== *)
(** * app/utils/normalize.py *)
(* ===================================================================== *)

Module Normalize.

Definition canonical : list string :=
  ["full_time"; "part_time"; "internship"; "freelance"].

Definition mapping : gmap string string :=
  list_to_map
    [ (* Arabic labels *)
      ("دوام كامل", "full_time");
      ("دوام جزئي", "part_time");
      ("تدريب", "internship");
      ("عمل حر", "freelance");
      (* English canonical + synonyms *)
      ("full_time", "full_time"); ("full-time", "full_time"); ("full time", "full_time");
      ("part_time", "part_time"); ("part-time", "part_time"); ("part time", "part_time");
      ("intern", "internship"); ("internship", "internship");
      ("freelance", "freelance"); ("contract", "freelance"); ("gig", "freelance") ].

Definition norm_employment_type (v : option string) : option string :=
  match v with
  | None => None
  | Some v =>
      if String.eqb v "" then None
      else
        let s := lower (strip v) in
        Some (default s (mapping !! s))
  end.

End Normalize.

(* ===================================================================== *)
(** * app/services/scraper/mostaql.py *)
(* ===================================================================== *)

Module Mostaql.

Definition SOURCE_NAME : string := "mostaql".

(** ** Choice of the categories string *)

Definition _profiles_to_categories (active_profiles : list string) : string :=
  let s := List.map (fun p => lower (strip p)) active_profiles in
  let has_marketing := existsb (fun x => contains "marketing" x) s in
  let has_data_or_ml :=
    existsb (fun x => contains "data" x || contains "machine" x) s in
  if has_marketing && has_data_or_ml then "development,marketing"
  else if has_marketing then "marketing"
  else if has_data_or_ml then "development"
  else "marketing".

(** ** Arabic relative time *)

Definition _AR_NUM : list (string * string) :=
  [("٠", "0"); ("١", "1"); ("٢", "2"); ("٣", "3"); ("٤", "4");
   ("٥", "5"); ("٦", "6"); ("٧", "7"); ("٨", "8"); ("٩", "9")].

Definition _to_ascii_digits (s : string) : string :=
  fold_left (fun s ab => replace_char (fst ab) (snd ab) s) _AR_NUM s.

(** A match of [(\d+)\s*(?:u1|u2|...)] that starts at the head of [cs],
    giving [int(m.group(1))].  No unit word begins with a digit or with
    white space, so the only way the pattern matches here is with the whole
    run of digits and then the whole run of white space. *)
Definition match_count_unit (units : list string) (cs : list string)
  : option Z :=
  match take_while isdigit cs with
  | [] => None
  | ds =>
      let rest := drop_while isspace (drop_while isdigit cs) in
      if existsb (fun u => String.prefix u (join rest)) units
      then Some (int_of_digits ds)
      else None
  end.

(** [re.search]: the leftmost position where the pattern matches. *)
Fixpoint search_count_unit (units : list string) (cs : list string)
  : option Z :=
  match match_count_unit units cs with
  | Some n => Some n
  | None =>
      match cs with
      | _ :: r => search_count_unit units r
      | [] => None
      end
  end.

(** [now] is the value read from [datetime.utcnow()]. *)
Definition parse_ar_posted (now : Z) (text : option string)
  : outcome (option Z) :=
  match text with
  | None => Ret None
  | Some text =>
      if String.eqb text "" then Ret None
      else
        let t := _to_ascii_digits (strip text) in
        let cs := chars t in
        match search_count_unit ["دقيقة"; "دقائق"] cs with
        | Some n => bind (datetime_sub now (n * us_per_minute)) (fun r => Ret (Some r))
        | None =>
        match search_count_unit ["ساعة"; "ساعات"] cs with
        | Some n => bind (datetime_sub now (n * us_per_hour)) (fun r => Ret (Some r))
        | None =>
        match search_count_unit ["يوم"; "أيام"] cs with
        | Some n => bind (datetime_sub now (n * us_per_day)) (fun r => Ret (Some r))
        | None =>
            if contains "أسبوع" t
            then bind (datetime_sub now (7 * us_per_day)) (fun r => Ret (Some r))
            else Ret (Some now)
        end end end
  end.

(** ** Classification into AUJI profiles *)

Definition ML_KW : list string :=
  ["machine learning"; "deep learning"; "pytorch"; "tensorflow"; "ml"; "ai";
   "تعلم آلي"; "ذكاء اصطناعي"; "nlp"; "computer vision"; "رؤية حاسوبية"].

Definition DA_KW : list string :=
  ["data analysis"; "analyst"; "power bi"; "tableau"; "excel"; "sql"; "etl";
   "dashboard"; "تحليل بيانات"; "محلل بيانات"; "باور بي آي"; "تابلو";
   "لوحات تحكم"].

Definition MK_KW : list string :=
  ["marketing"; "تسويق"; "social"; "smm"; "seo"; "sem"; "ads"; "إعلانات";
   "brand"; "branding"; "content"; "محتوى"; "copy"; "copywriting";
   "إدارة صفحات"; "facebook"; "instagram"; "tiktok"; "حملات"; "campaign";
   "manager social"; "digital"].

Definition _contains_any (text : string) (keywords : list string) : bool :=
  let t := lower text in
  existsb (fun k => contains k t) keywords.

Definition _classify_profile
    (title : string) (active_profiles : list string) (categories : string)
  : string :=
  let t := lower title in
  let act : gset string := list_to_set active_profiles in
  let active (p : string) : bool := bool_decide (p ∈ act) in
  if String.eqb categories "marketing" then "Digital Marketing"
  else if String.eqb categories "development" then
    if _contains_any t ML_KW && active "Machine Learning" then "Machine Learning"
    else if _contains_any t DA_KW && active "Data Analysis" then "Data Analysis"
    else if active "Machine Learning" && negb (active "Data Analysis") then "Machine Learning"
    else if active "Data Analysis" && negb (active "Machine Learning") then "Data Analysis"
    else "Data Analysis"
  else
    (* development,marketing *)
    if _contains_any t MK_KW then "Digital Marketing"
    else if _contains_any t ML_KW && active "Machine Learning" then "Machine Learning"
    else if _contains_any t DA_KW && active "Data Analysis" then "Data Analysis"
    else if active "Digital Marketing" then "Digital Marketing"
    else if active "Machine Learning" && negb (active "Data Analysis") then "Machine Learning"
    else if active "Data Analysis" then "Data Analysis"
    else "Digital Marketing".

End Mostaql.

(* ===================================================================== *)
(** * Postings: the dicts the extractors emit *)
(* ===================================================================== *)

(** The keys of a posting dict, as both extractors write them
    (mostaql.py [_extract_jobs_from_html], vodafone.py [fetch_vodafone_jobs]). *)
Module K.

Inductive key :=
| title | company | location | description | detail_url | apply_url | url
| source | category | employment_type | posted_at.

Definition to_nat (k : key) : nat :=
  match k with
  | title => 0 | company => 1 | location => 2 | description => 3
  | detail_url => 4 | apply_url => 5 | url => 6 | source => 7
  | category => 8 | employment_type => 9 | posted_at => 10
  end.

Definition of_nat (n : nat) : option key :=
  match n with
  | 0 => Some title | 1 => Some company | 2 => Some location
  | 3 => Some description | 4 => Some detail_url | 5 => Some apply_url
  | 6 => Some url | 7 => Some source | 8 => Some category
  | 9 => Some employment_type | 10 => Some posted_at
  | _ => None
  end.

End K.

#[global] Instance key_eq_dec : EqDecision K.key.
Proof. solve_decision. Defined.

#[global] Instance key_countable : Countable K.key :=
  inj_countable K.to_nat K.of_nat
    (fun k => match k with
              | K.title | K.company | K.location | K.description
              | K.detail_url | K.apply_url | K.url | K.source
              | K.category | K.employment_type | K.posted_at => eq_refl
              end).

#[global] Instance pyval_eq_dec : EqDecision pyval.
Proof. solve_decision. Defined.

(** A posting is a dict over these keys; a key may be absent. *)
Abbreviation Posting := (gmap K.key pyval).

(** [raw.get(k)] *)
Definition get (raw : Posting) (k : K.key) : pyval := default PNone (raw !! k).

(** [a == b] on values, as Python and as the SQL comparison decide it when
    [b] is neither None nor NULL. *)
Definition pyval_eqb (a b : pyval) : bool := bool_decide (a = b).

(* ===================================================================== *)
(** * app/models.py and app/db.py *)
(* ===================================================================== *)

Module Models.

(** The [Job] table.  The primary key [id] is not a field of the record:
    the pipeline never deletes a row and SQLite numbers new rows upward, so
    a row is identified by its position in the table.  Table models are not
    validated on construction, so an attribute holds whatever was assigned;
    [created_at] and [updated_at] are only ever filled by their
    [default_factory]. *)
Record Job := mkJob {
  title : pyval;
  company : pyval;
  location : pyval;
  url : pyval;
  detail_url : pyval;
  apply_url : pyval;
  category : pyval;
  source : pyval;
  posted_at : pyval;
  created_at : Z;
  updated_at : Z
}.

(** [getattr(job, k)] for a key that names a field of the model; [None]
    for the two posting keys the model does not declare. *)
Definition field (k : K.key) : option (Job -> pyval) :=
  match k with
  | K.title => Some title
  | K.company => Some company
  | K.location => Some location
  | K.url => Some url
  | K.detail_url => Some detail_url
  | K.apply_url => Some apply_url
  | K.category => Some category
  | K.source => Some source
  | K.posted_at => Some posted_at
  | K.description | K.employment_type => None
  end.

(** [setattr(job, k, v)].  [Job] declares neither [description] nor
    [employment_type]; assigning an undeclared attribute of a model raises
    ValueError and leaves the object as it was. *)
Definition setattr (j : Job) (k : K.key) (v : pyval) : outcome Job :=
  match k with
  | K.title => Ret (mkJob v (company j) (location j) (url j) (detail_url j) (apply_url j) (category j) (source j) (posted_at j) (created_at j) (updated_at j))
  | K.company => Ret (mkJob (title j) v (location j) (url j) (detail_url j) (apply_url j) (category j) (source j) (posted_at j) (created_at j) (updated_at j))
  | K.location => Ret (mkJob (title j) (company j) v (url j) (detail_url j) (apply_url j) (category j) (source j) (posted_at j) (created_at j) (updated_at j))
  | K.url => Ret (mkJob (title j) (company j) (location j) v (detail_url j) (apply_url j) (category j) (source j) (posted_at j) (created_at j) (updated_at j))
  | K.detail_url => Ret (mkJob (title j) (company j) (location j) (url j) v (apply_url j) (category j) (source j) (posted_at j) (created_at j) (updated_at j))
  | K.apply_url => Ret (mkJob (title j) (company j) (location j) (url j) (detail_url j) v (category j) (source j) (posted_at j) (created_at j) (updated_at j))
  | K.category => Ret (mkJob (title j) (company j) (location j) (url j) (detail_url j) (apply_url j) v (source j) (posted_at j) (created_at j) (updated_at j))
  | K.source => Ret (mkJob (title j) (company j) (location j) (url j) (detail_url j) (apply_url j) (category j) v (posted_at j) (created_at j) (updated_at j))
  | K.posted_at => Ret (mkJob (title j) (company j) (location j) (url j) (detail_url j) (apply_url j) (category j) (source j) v (created_at j) (updated_at j))
  | K.description | K.employment_type => Raise ValueError
  end.

(** The constructor call [Job] applied to the keywords of [raw], the two
    clock readings being those of the
    [default_factory] of [created_at] and of [updated_at].  Keys the model
    does not declare are ignored; an absent key takes the field's default
    ([title] has none and stays unset, which reads as None). *)
Definition Job_init (t_created t_updated : Z) (raw : Posting) : Job :=
  {| title := default PNone (raw !! K.title);
     company := default (PStr "Vodafone") (raw !! K.company);
     location := default PNone (raw !! K.location);
     url := default PNone (raw !! K.url);
     detail_url := default PNone (raw !! K.detail_url);
     apply_url := default PNone (raw !! K.apply_url);
     category := default PNone (raw !! K.category);
     source := default (PStr "vodafone") (raw !! K.source);
     posted_at := default PNone (raw !! K.posted_at);
     created_at := t_created;
     updated_at := t_updated |}.

End Models.

Module Db.
Import Models.

(** A session of [SessionLocal], which is made with [autoflush=False]:
    a query reads the table as last committed, so it sees neither the
    objects added since nor the attributes assigned since.  The object a
    query returns is the one the session already holds for that row. *)
Record Session := mkSession {
  rows : list Job;      (* the table as committed, in rowid order *)
  objects : list Job;   (* the object the session holds for each row *)
  new : list Job        (* session.add(...): pending until commit *)
}.

(** [with next(get_session()) as db] *)
Definition open (table : list Job) : Session :=
  {| rows := table; objects := table; new := [] |}.

Fixpoint find_row {A} (p : A -> bool) (l : list A) : option (nat * A) :=
  match l with
  | [] => None
  | x :: r => if p x then Some (0, x) else prod_map S id <$> find_row p r
  end.

(** [session.exec(select(Job).where(p)).first()]: the first row of the
    committed table that satisfies [p].  The result is the position of the
    row and the object the session holds for it. *)
Definition first_where (p : Job -> bool) (s : Session) : option (nat * Job) :=
  match find_row p (rows s) with
  | Some (i, r) => Some (i, default r (objects s !! i))
  | None => None
  end.

(** Assignments to the attributes of the object of row [i]. *)
Definition store_object (i : nat) (o : Job) (s : Session) : Session :=
  {| rows := rows s; objects := <[i := o]> (objects s); new := new s |}.

(** [session.add(o)] *)
Definition add (o : Job) (s : Session) : Session :=
  {| rows := rows s; objects := objects s; new := new s ++ [o] |}.

(** [session.commit()]: the assignments and the pending rows are written.
    The constraints of the table are left out: a row without a [title] is
    written like any other, where the commit of the program raises
    IntegrityError ([title], [company] and [source] are NOT NULL). *)
Definition commit (s : Session) : Session :=
  {| rows := objects s ++ new s; objects := objects s ++ new s; new := [] |}.

End Db.

(* ===================================================================== *)
(** * app/services/scraper/save.py *)
(* ===================================================================== *)

Module Save.
Import Models Db.

(** [select(Job).where(col == v)], scoped to [source] when the item has one *)
Definition scoped (source_ : pyval) (j : Job) : bool :=
  if truthy source_ then pyval_eqb (source j) source_ else true.

Definition _find_existing_job (session : Session) (item : Posting)
  : option (nat * Job) :=
  let source_ := get item K.source in
  let detail_url_ := get item K.detail_url in
  let apply_url_ := get item K.apply_url in
  let legacy_url := get item K.url in
  let found :=
    if truthy detail_url_
    then first_where (fun j => pyval_eqb (detail_url j) detail_url_ && scoped source_ j) session
    else None in
  match found with
  | Some e => Some e
  | None =>
  let found :=
    if truthy apply_url_
    then first_where (fun j => pyval_eqb (apply_url j) apply_url_ && scoped source_ j) session
    else None in
  match found with
  | Some e => Some e
  | None =>
  let found :=
    if truthy legacy_url
    then first_where (fun j => pyval_eqb (url j) legacy_url && scoped source_ j) session
    else None in
  match found with
  | Some e => Some e
  | None => None
  end end end.

Definition updatable : list K.key :=
  [K.title; K.company; K.location; K.description; K.detail_url;
   K.apply_url; K.url; K.source; K.category; K.posted_at].

(** The loop of [_update_job_fields].  [dest] is assigned in place: the
    result is the object as the loop left it, together with the exception
    that stopped it, if one did. *)
Fixpoint update_fields (keys : list K.key) (dest : Job) (src : Posting)
  : Job * outcome unit :=
  match keys with
  | [] => (dest, Ret tt)
  | key :: rest =>
      let val := get src key in
      if blank val then update_fields rest dest src
      else
        match setattr dest key val with
        | Ret dest' => update_fields rest dest' src
        | Raise e => (dest, Raise e)
        end
  end.

Definition _update_job_fields (dest : Job) (src : Posting)
  : Job * outcome unit :=
  update_fields updatable dest src.

(** [if not raw.get("source"): raw["source"] = "vodafone"] *)
Definition default_source (raw : Posting) : Posting :=
  if truthy (get raw K.source) then raw
  else <[K.source := PStr "vodafone"]> raw.

(** [raw.get("detail_url") or raw.get("apply_url") or raw.get("url")] *)
Definition has_identity (raw : Posting) : bool :=
  truthy (get raw K.detail_url) || truthy (get raw K.apply_url)
  || truthy (get raw K.url).

(** One turn of the loop of [save_jobs].  [now k] is the [k]-th reading of
    [datetime.utcnow()] during the call; each constructed [Job] takes two. *)
Definition save_item (now : nat -> Z) (raw : Posting)
    (session : Session) (affected : nat) : outcome (Session * nat) :=
  let raw := default_source raw in
  if negb (has_identity raw) then Ret (session, affected)
  else
    match _find_existing_job session raw with
    | Some (i, dest) =>
        match _update_job_fields dest raw with
        | (dest', Ret _) => Ret (store_object i dest' session, affected + 1)
        | (_, Raise e) => Raise e
        end
    | None =>
        let k := length (new session) in
        let job := Job_init (now (2 * k)) (now (2 * k + 1)) raw in
        Ret (add job session, affected + 1)
    end.

Fixpoint save_loop (now : nat -> Z) (items : list Posting)
    (session : Session) (affected : nat) : outcome (Session * nat) :=
  match items with
  | [] => Ret (session, affected)
  | raw :: rest =>
      bind (save_item now raw session affected)
           (fun sa => save_loop now rest (fst sa) (snd sa))
  end.

(** Every item is a dict here, which is what the [isinstance] guard of the
    loop lets through. *)
Definition save_jobs (now : nat -> Z) (items : list Posting)
    (session : Session) : outcome (Session * nat) :=
  match items with
  | [] => Ret (session, 0)
  | _ =>
      bind (save_loop now items session 0)
           (fun sa => Ret (commit (fst sa), snd sa))
  end.

(** The table before the call, the table after it and what the call
    returns.  An exception leaves the [with] block before the commit, and
    the table stays as it was. *)
Definition save_jobs_bulk (now : nat -> Z) (items : list Posting)
    (table : list Job) : list Job * outcome nat :=
  match save_jobs now items (open table) with
  | Ret (s, n) => (rows s, Ret n)
  | Raise e => (table, Raise e)
  end.

End Save.

(* ===================================================================== *)
(** * app/services/scraper/vodafone.py *)
(* ===================================================================== *)

Module Vodafone.
Import Models Db.

Definition BASE_HOST : string := "jobs.vodafone.com".

(** ** English relative time *)

(** [re.search(r"(\d+)", t).group(1)]: the first run of digits. *)
Definition first_digits (cs : list string) : option (list string) :=
  match take_while isdigit (drop_while (fun c => negb (isdigit c)) cs) with
  | [] => None
  | ds => Some ds
  end.

Definition ascii_between (lo hi : N) (c : string) : bool :=
  (lo <=? codepoint c)%N && (codepoint c <=? hi)%N.

Definition digit_of (c : string) : Z := default 0%Z (digit_value c).

(** The month of [%m], which is [1[0-2]|0[1-9]|[1-9]], followed by "-". *)
Definition parse_month (cs : list string) : option (Z * list string) :=
  match cs with
  | a :: b :: "-" :: r =>
      if String.eqb a "1" && ascii_between 48 50 b then Some (10 + digit_of b, r)%Z
      else if String.eqb a "0" && ascii_between 49 57 b then Some (digit_of b, r)
      else None
  | a :: "-" :: r =>
      if ascii_between 49 57 a then Some (digit_of a, r) else None
  | _ => None
  end.

(** The day of [%d], which is [3[0-1]|[1-2]\d|0[1-9]|[1-9]| [1-9]]. *)
Definition parse_day (cs : list string) : option (Z * list string) :=
  match cs with
  | a :: r =>
      let two :=
        match r with
        | b :: r' =>
            if String.eqb a "3" && ascii_between 48 49 b then Some (30 + digit_of b, r')%Z
            else if ascii_between 49 50 a && isdigit b then Some (10 * digit_of a + digit_of b, r')%Z
            else if String.eqb a "0" && ascii_between 49 57 b then Some (digit_of b, r')
            else None
        | [] => None
        end in
      match two with
      | Some res => Some res
      | None =>
          if ascii_between 49 57 a then Some (digit_of a, r)
          else
            match r with
            | b :: r' =>
                if String.eqb a " " && ascii_between 49 57 b then Some (digit_of b, r')
                else None
            | [] => None
            end
      end
  | [] => None
  end.

Definition is_leap (y : Z) : bool :=
  ((y mod 4 =? 0) && (negb (y mod 100 =? 0) || (y mod 400 =? 0)))%Z.

Definition days_in_month (y m : Z) : Z :=
  if (m =? 2)%Z then (if is_leap y then 29 else 28)
  else if ((m =? 4) || (m =? 6) || (m =? 9) || (m =? 11))%Z then 30
  else 31.

Definition days_before_month (y m : Z) : Z :=
  fold_left (fun acc k => acc + days_in_month y (Z.of_nat k))%Z
            (seq 1 (Z.to_nat (m - 1))) 0%Z.

(** [date(y, m, d).toordinal()] *)
Definition ordinal (y m d : Z) : Z :=
  let y1 := (y - 1)%Z in
  (y1 * 365 + y1 / 4 - y1 / 100 + y1 / 400 + days_before_month y m + d)%Z.

(** [datetime.strptime(t, "%Y-%m-%d")]; [None] stands for its ValueError. *)
Definition strptime_ymd (t : string) : option Z :=
  match chars t with
  | y1 :: y2 :: y3 :: y4 :: "-" :: r =>
      if forallb isdigit [y1; y2; y3; y4] then
        match parse_month r with
        | Some (m, r') =>
            match parse_day r' with
            | Some (d, []) =>
                let y := int_of_digits [y1; y2; y3; y4] in
                if ((1 <=? y) && (d <=? days_in_month y m))%Z
                then Some ((ordinal y m d - 1) * us_per_day)%Z
                else None
            | _ => None
            end
        | None => None
        end
      else None
  | _ => None
  end.

(** [now] is the value read from [datetime.utcnow()].  Every exception of
    the body is caught by [except Exception: return now]. *)
Definition parse_posted_at (now : Z) (text : option string) : Z :=
  match text with
  | None => now
  | Some text =>
      if String.eqb text "" then now
      else
        let t := lower (strip text) in
        let sub_or_now (d : Z) : Z :=
          match datetime_sub now d with Ret r => r | Raise _ => now end in
        let counted (unit : Z) : Z :=
          match first_digits (chars t) with
          | Some ds => sub_or_now (int_of_digits ds * unit)%Z
          | None => now
          end in
        if contains "day ago" t then sub_or_now us_per_day
        else if contains "days ago" t then counted us_per_day
        else if contains "hour ago" t then sub_or_now us_per_hour
        else if contains "hours ago" t then counted us_per_hour
        else if contains "minute ago" t then sub_or_now us_per_minute
        else if contains "minutes ago" t then counted us_per_minute
        else default now (strptime_ymd t)
  end.

(** ** URLs: [urllib.parse] *)

Record ParseResult := mkParse {
  scheme : string;
  netloc : string;
  path : string;
  params : string;
  query : string;
  fragment : string
}.

Fixpoint drop_bytes (p : ascii -> bool) (s : string) : string :=
  match s with
  | String b r => if p b then drop_bytes p r else s
  | EmptyString => EmptyString
  end.

Fixpoint remove_bytes (p : ascii -> bool) (s : string) : string :=
  match s with
  | String b r => if p b then remove_bytes p r else String b (remove_bytes p r)
  | EmptyString => EmptyString
  end.

Fixpoint all_bytes (p : ascii -> bool) (s : string) : bool :=
  match s with
  | String b r => p b && all_bytes p r
  | EmptyString => true
  end.

Definition has_byte (d : ascii) (s : string) : bool :=
  negb (all_bytes (fun b => negb (Ascii.eqb b d)) s).

(** [s.split(d, 1)] when [d] occurs in [s]: the text before the first
    [d] and the text after it. *)
Fixpoint split_once (d : ascii) (s : string) : option (string * string) :=
  match s with
  | EmptyString => None
  | String b r =>
      if Ascii.eqb b d then Some (EmptyString, r)
      else
        match split_once d r with
        | Some (x, y) => Some (String b x, y)
        | None => None
        end
  end.

(** The text before the first byte that satisfies [p], and the text from
    that byte on. *)
Fixpoint break_at (p : ascii -> bool) (s : string) : string * string :=
  match s with
  | EmptyString => (EmptyString, EmptyString)
  | String b r =>
      if p b then (EmptyString, s)
      else let '(x, y) := break_at p r in (String b x, y)
  end.

(** [s.rpartition("/")]: up to and including the last "/", and the rest. *)
Fixpoint split_last_slash (s : string) : option (string * string) :=
  match s with
  | EmptyString => None
  | String b r =>
      match split_last_slash r with
      | Some (x, y) => Some (String b x, y)
      | None => if Ascii.eqb b "/" then Some (String b EmptyString, r) else None
      end
  end.

Definition is_alpha (b : ascii) : bool :=
  let n := byte_val b in
  ((65 <=? n) && (n <=? 90) || (97 <=? n) && (n <=? 122))%N.

Definition scheme_char (b : ascii) : bool :=
  let n := byte_val b in
  is_alpha b || ((48 <=? n) && (n <=? 57))%N
  || Ascii.eqb b "+" || Ascii.eqb b "-" || Ascii.eqb b ".".

Definition uses_params : list string :=
  [""; "ftp"; "hdl"; "prospero"; "http"; "imap"; "https"; "shttp"; "rtsp";
   "rtspu"; "sip"; "sips"; "mms"; "sftp"; "tel"].

Definition ishex (b : ascii) : bool :=
  let n := byte_val b in
  ((48 <=? n) && (n <=? 57) || (65 <=? n) && (n <=? 70)
   || (97 <=? n) && (n <=? 102))%N.

Definition hexval (b : ascii) : N :=
  let n := byte_val b in
  (if n <=? 57 then n - 48 else if n <=? 70 then n - 55 else n - 87)%N.

(** [unquote_to_bytes]: every "%xx" with two hexadecimal digits becomes
    the byte it names. *)
Fixpoint unquote_to_bytes (s : string) : string :=
  match s with
  | EmptyString => EmptyString
  | String c r =>
      if Ascii.eqb c "%" then
        match r with
        | String h1 (String h2 r2) =>
            if ishex h1 && ishex h2
            then String (ascii_of_N (16 * hexval h1 + hexval h2)) (unquote_to_bytes r2)
            else String c (unquote_to_bytes r)
        | _ => String c (unquote_to_bytes r)
        end
      else String c (unquote_to_bytes r)
  end.

Definition is_ascii (b : ascii) : bool := (byte_val b <? 128)%N.

Section Library.

(** Two behaviours of the standard library are left as parameters.
    [netloc_ok] is the validation [urlsplit] applies to a host written in
    brackets or outside ASCII (the [ipaddress] module and NFKC
    normalisation); when it fails [urlsplit] raises ValueError.
    [utf8_replace] is [bytes.decode("utf-8", "replace")], read on the
    encodings: it is the identity on well-formed UTF-8. *)
Variable netloc_ok : string -> bool.
Variable utf8_replace : string -> string.

(** [unquote]: the runs of ASCII characters are unquoted and decoded, the
    other characters are kept. *)
Fixpoint unquote_runs (fuel : nat) (s : string) : string :=
  match fuel with
  | O => EmptyString
  | S fuel =>
      match s with
      | EmptyString => EmptyString
      | String b _ =>
          if is_ascii b then
            let '(run, rest) := break_at (fun c => negb (is_ascii c)) s in
            utf8_replace (unquote_to_bytes run) ++ unquote_runs fuel rest
          else
            let '(run, rest) := break_at is_ascii s in
            run ++ unquote_runs fuel rest
      end
  end.

Definition unquote (s : string) : string :=
  if has_byte "%" s then unquote_runs (String.length s) s else s.

(** [s.split("&")] *)
Fixpoint split_amp (s : string) : list string :=
  match s with
  | EmptyString => [EmptyString]
  | String b r =>
      if Ascii.eqb b "&" then EmptyString :: split_amp r
      else
        match split_amp r with
        | x :: xs => String b x :: xs
        | [] => [String b EmptyString]
        end
  end.

Definition plus_to_space (s : string) : string :=
  string_of_list_ascii
    (List.map (fun b => if Ascii.eqb b "+" then " "%char else b)
              (list_ascii_of_string s)).

(** [parse_qsl(qs)] with its default arguments *)
Definition parse_qsl (qs : string) : list (string * string) :=
  let query_args := if String.eqb qs "" then [] else split_amp qs in
  flat_map
    (fun name_value =>
       match split_once "=" name_value with
       | Some (n, v) =>
           if String.eqb v "" then []
           else [(unquote (plus_to_space n), unquote (plus_to_space v))]
       | None => []
       end)
    query_args.

(** [parse_qs(qs)]: each name with the list of its values, in order *)
Definition parse_qs (qs : string) : gmap string (list string) :=
  fold_left
    (fun (parsed_result : gmap string (list string)) (nv : string * string) =>
       match parsed_result !! fst nv with
       | Some vs => <[fst nv := (vs ++ [snd nv])%list]> parsed_result
       | None => <[fst nv := [snd nv]]> parsed_result
       end)
    (parse_qsl qs) ∅.

(** [_splitparams] *)
Definition _splitparams (u : string) : string * string :=
  match split_last_slash u with
  | Some (dir, last) =>
      match split_once ";" last with
      | Some (x, y) => (dir ++ x, y)
      | None => (u, EmptyString)
      end
  | None =>
      match split_once ";" u with
      | Some (x, y) => (x, y)
      | None => (u, EmptyString)
      end
  end.

(** [urlparse(url)] with its default arguments *)
Definition urlparse (url_ : string) : outcome ParseResult :=
  let u := drop_bytes (fun b => (byte_val b <=? 32)%N) url_ in
  (* tab, carriage return and line feed are removed *)
  let u := remove_bytes (fun b => Ascii.eqb b "009" || Ascii.eqb b "013" || Ascii.eqb b "010") u in
  let '(scheme_, u) :=
    match split_once ":" u with
    | Some (String b0 pre, post) =>
        if is_alpha b0 && all_bytes scheme_char pre
        then (lower (String b0 pre), post)
        else (EmptyString, u)
    | _ => (EmptyString, u)
    end in
  let '(netloc_, u) :=
    match u with
    | String "/" (String "/" r) =>
        break_at (fun b => Ascii.eqb b "/" || Ascii.eqb b "?" || Ascii.eqb b "#") r
    | _ => (EmptyString, u)
    end in
  if xorb (has_byte "[" netloc_) (has_byte "]" netloc_) then Raise ValueError
  else if (has_byte "[" netloc_ || negb (all_bytes is_ascii netloc_))
          && negb (netloc_ok netloc_) then Raise ValueError
  else
    let '(u, fragment_) :=
      match split_once "#" u with
      | Some (x, y) => (x, y)
      | None => (u, EmptyString)
      end in
    let '(u, query_) :=
      match split_once "?" u with
      | Some (x, y) => (x, y)
      | None => (u, EmptyString)
      end in
    let '(u, params_) :=
      if existsb (String.eqb scheme_) uses_params && has_byte ";" u
      then _splitparams u
      else (u, EmptyString) in
    Ret (mkParse scheme_ netloc_ u params_ query_ fragment_).

(** ** Canonical apply URL *)

(** [rest] when [s] is [p] followed by [rest] *)
Fixpoint strip_prefix (p s : string) : option string :=
  match p with
  | EmptyString => Some s
  | String a p' =>
      match s with
      | String b s' => if Ascii.eqb a b then strip_prefix p' s' else None
      | EmptyString => None
      end
  end.

(** [re.search(lit + r"(\d+)", s).group(1)] for a literal [lit] *)
Fixpoint search_digits_after (lit : string) (s : string) : option string :=
  let here :=
    match strip_prefix lit s with
    | Some rest =>
        match take_while isdigit (chars rest) with
        | [] => None
        | ds => Some (join ds)
        end
    | None => None
    end in
  match here with
  | Some ds => Some ds
  | None =>
      match s with
      | String _ r => search_digits_after lit r
      | EmptyString => None
      end
  end.

(** [(query.get(name) or [dflt])[0]] *)
Definition first_value (q : gmap string (list string)) (name : string)
    (dflt : option string) : option string :=
  match q !! name with
  | Some (v :: _) => Some v
  | _ => dflt
  end.

Definition or_str (a b : string) : string :=
  if String.eqb a "" then b else a.

Definition to_apply_url (url_ : option string) (default_domain : string)
  : outcome (option string) :=
  match url_ with
  | None => Ret None
  | Some u =>
      if String.eqb u "" then Ret (Some u)
      else
        bind (urlparse u) (fun parsed =>
          let scheme_ := or_str (scheme parsed) "https" in
          let netloc_ := or_str (netloc parsed) BASE_HOST in
          let query_ := parse_qs (query parsed) in
          let domain := default default_domain (first_value query_ "domain" (Some default_domain)) in
          if contains "apply" (path parsed) then
            match first_value query_ "pid" None with
            | Some pid =>
                Ret (Some (scheme_ ++ "://" ++ netloc_ ++ "/careers/apply?pid=" ++ pid ++ "&domain=" ++ domain))
            | None =>
                match search_digits_after "pid=" (query parsed) with
                | Some pid =>
                    Ret (Some (scheme_ ++ "://" ++ netloc_ ++ "/careers/apply?pid=" ++ pid ++ "&domain=" ++ domain))
                | None =>
                    Ret (Some (scheme_ ++ "://" ++ netloc_ ++ path parsed ++ "?domain=" ++ domain))
                end
            end
          else
            match search_digits_after "/job/" (path parsed) with
            | Some pid =>
                Ret (Some (scheme_ ++ "://" ++ netloc_ ++ "/careers/apply?pid=" ++ pid ++ "&domain=" ++ domain))
            | None => Ret (Some u)
            end)
  end.

End Library.

(** ** Save to the table *)

(** The posting keys among [_job_model_keys()] *)
Definition _job_model_keys : gset K.key :=
  list_to_set
    [K.title; K.company; K.location; K.url; K.detail_url; K.apply_url;
     K.category; K.source; K.posted_at].

Definition _filter_job_dict (d : Posting) : Posting :=
  filter (fun kv => fst kv ∈ _job_model_keys) d.

Definition merge_keys : list K.key :=
  [K.company; K.location; K.apply_url; K.detail_url; K.category; K.source;
   K.employment_type; K.posted_at; K.description].

(** The loop over [merge_keys]; an exception of a turn is passed over. *)
Fixpoint assign_fields (keys : list K.key) (exists_ : Job) (it : Posting)
  : Job :=
  match keys with
  | [] => exists_
  | key :: rest =>
      let val := get it key in
      if blank val then assign_fields rest exists_ it
      else
        match setattr exists_ key val with
        | Ret e' => assign_fields rest e' it
        | Raise _ => assign_fields rest exists_ it
        end
  end.

(** The three lookups of the loop of [save_jobs_bulk] *)
Definition find_existing (db : Session) (it : Posting) : option (nat * Job) :=
  let detail := get it K.detail_url in
  let apply_ := por (get it K.apply_url) (get it K.url) in
  let exists_ :=
    if truthy detail
    then first_where (fun j => pyval_eqb (detail_url j) detail) db
    else None in
  let exists_ :=
    match exists_ with
    | Some e => Some e
    | None =>
        if truthy apply_
        then first_where (fun j => pyval_eqb (apply_url j) apply_) db
        else None
    end in
  match exists_ with
  | Some e => Some e
  | None =>
      if truthy (get it K.url)
      then first_where (fun j => pyval_eqb (url j) (get it K.url)) db
      else None
  end.

(** The assignments made to a matched object *)
Definition merge (exists_ : Job) (it : Posting) : Job :=
  let new_title := get it K.title in
  let exists_ :=
    if truthy new_title && negb (pyval_eqb new_title (PStr "N/A"))
       && (negb (truthy (title exists_)) || pyval_eqb (title exists_) (PStr "N/A"))
    then
      match setattr exists_ K.title new_title with
      | Ret e' => e'
      | Raise _ => exists_
      end
    else exists_ in
  assign_fields merge_keys exists_ it.

(** One turn of the loop of [save_jobs_bulk] *)
Definition save_item (now : nat -> Z) (it : Posting) (db : Session) : Session :=
  match find_existing db it with
  | Some (i, exists_) => store_object i (merge exists_ it) db
  | None =>
      let payload := _filter_job_dict it in
      let k := length (new db) in
      add (Job_init (now (2 * k)) (now (2 * k + 1)) payload) db
  end.

(** The table before the call, the table after it and the count returned. *)
Definition save_jobs_bulk (now : nat -> Z) (items : list Posting)
    (table : list Job) : list Job * nat :=
  let '(db, saved) :=
    fold_left (fun st it => (save_item now it (fst st), snd st + 1))
              items (open table, 0) in
  (rows (commit db), saved).

End Vodafone.

(* ===================================================================== *)
(** * Notions used to state the properties *)
(* ===================================================================== *)

Module Spec.
Import Models Db.

(** The fixed template of the apply endpoint *)
Definition apply_template (scheme_ host pid domain : string) : string :=
  scheme_ ++ "://" ++ host ++ "/careers/apply?pid=" ++ pid ++ "&domain=" ++ domain.

(** The [domain] of a parsed query string; "vodafone.com" when the query
    gives none (a blank value counts as none). *)
Definition domain_of (q : gmap string (list string)) : string :=
  match q !! "domain" with
  | Some (v :: _) => v
  | _ => "vodafone.com"
  end.

(** A non-empty run of decimal digits *)
Definition digit_run (ds : string) : Prop :=
  exists dl, dl <> [] /\ ds = join dl /\ Forall (fun c => isdigit c = true) dl.

(** A stored record answers a candidate of [save_jobs] when it has the
    candidate's source and one of its identity fields. *)
Definition matches (o : Job) (raw : Posting) : bool :=
  Save.scoped (get raw K.source) o
  && (truthy (get raw K.detail_url) && pyval_eqb (detail_url o) (get raw K.detail_url)
      || truthy (get raw K.apply_url) && pyval_eqb (apply_url o) (get raw K.apply_url)
      || truthy (get raw K.url) && pyval_eqb (url o) (get raw K.url)).

(** The key of the second lookup of the Vodafone path *)
Definition apply_key (it : Posting) : pyval :=
  por (get it K.apply_url) (get it K.url).

(** A stored record answers a candidate of the Vodafone [save_jobs_bulk]. *)
Definition matches_v (o : Job) (it : Posting) : bool :=
  truthy (get it K.detail_url) && pyval_eqb (detail_url o) (get it K.detail_url)
  || truthy (apply_key it) && pyval_eqb (apply_url o) (apply_key it)
  || truthy (get it K.url) && pyval_eqb (url o) (get it K.url).

(** The stored record a candidate of [save_jobs] resolves to *)
Definition resolve (table : list Job) (item : Posting) : option nat :=
  fst <$> Save._find_existing_job (open table) (Save.default_source item).

(** The stored record a candidate of the Vodafone path resolves to *)
Definition resolve_v (table : list Job) (it : Posting) : option nat :=
  fst <$> Vodafone.find_existing (open table) it.

(** Two values agree unless both are given and differ. *)
Definition agree_on (a b : pyval) : bool :=
  implb (truthy a && truthy b) (pyval_eqb a b).

Definition agree (a b : Posting) : bool :=
  agree_on (get a K.detail_url) (get b K.detail_url)
  && agree_on (get a K.apply_url) (get b K.apply_url)
  && agree_on (get a K.url) (get b K.url).

Definition agree_v (a b : Posting) : bool :=
  agree_on (get a K.detail_url) (get b K.detail_url)
  && agree_on (apply_key a) (apply_key b).

Definition same_row (i j : option nat) : bool :=
  match i, j with
  | Some i, Some j => Nat.eqb i j
  | _, _ => false
  end.

(** The candidates of a list are consistent with a table when any two of
    them that resolve to the same stored record agree on each identity
    field both carry. *)
Definition consistent (table : list Job) (items : list Posting) : bool :=
  forallb (fun a =>
    forallb (fun b =>
      implb (same_row (resolve table a) (resolve table b)) (agree a b))
      items) items.

Definition consistent_v (table : list Job) (items : list Posting) : bool :=
  forallb (fun a =>
    forallb (fun b =>
      implb (same_row (resolve_v table a) (resolve_v table b)) (agree_v a b))
      items) items.

(** Throughout the run the object of a stored record answers every
    candidate of the list that resolves to that record. *)
Definition Inv (table : list Job) (all : list Posting) (s : Session) : Prop :=
  rows s = table
  /\ length (objects s) = length table
  /\ forall c i, c ∈ all -> resolve table c = Some i ->
       exists o, objects s !! i = Some o
                 /\ matches o (Save.default_source c) = true.

(** The same for a run of the Vodafone [save_jobs_bulk] *)
Definition Inv_v (table : list Job) (all : list Posting) (s : Session) : Prop :=
  rows s = table
  /\ length (objects s) = length table
  /\ forall c i, c ∈ all -> resolve_v table c = Some i ->
       exists o, objects s !! i = Some o /\ matches_v o c = true.

(** The loop of the Vodafone [save_jobs_bulk], from any state *)
Definition bulk_loop (now : nat -> Z) (items : list Posting) (st : Session * nat)
  : Session * nat :=
  fold_left (fun st it => (Vodafone.save_item now it (fst st), snd st + 1)) items st.

End Spec.

(** Concrete tables, postings and texts the properties are tried on *)
Module Samples.
Import Models.

Definition analyst_title : string := "Senior Data Analyst needed, Power BI/SQL".

(** The text of the failing call: a count of days that reaches before
    year 1. *)
Definition long_ago : string := "منذ 9999999 يوم".

Definition detail_page : string :=
  "https://jobs.vodafone.com/careers/job/563018687504927?domain=vodafone.com".

Definition detail_page_parsed : Vodafone.ParseResult :=
  Vodafone.mkParse "https" "jobs.vodafone.com" "/careers/job/563018687504927" ""
          "domain=vodafone.com" "".

Definition cairo_job : Job :=
  mkJob (PStr "Data Analyst") (PStr "Vodafone") (PStr "Cairo") PNone
        (PStr "https://jobs.vodafone.com/careers/job/1") PNone
        (PStr "Data Analysis") (PStr "vodafone") PNone 100 100.

Definition no_location : Posting :=
  <[K.location := PStr ""]>
    {[ K.detail_url := PStr "https://jobs.vodafone.com/careers/job/1" ]}.

Definition senior_posting : Posting :=
  <[K.title := PStr "Senior Data Analyst"]>
    (<[K.location := PStr "Giza"]>
       {[ K.detail_url := PStr "https://jobs.vodafone.com/careers/job/1" ]}).

(** The posting [fetch_vodafone_jobs] builds for a card without a link *)
Definition card_without_link : Posting :=
  list_to_map
    [(K.title, PStr "N/A"); (K.company, PStr "Vodafone"); (K.location, PStr "");
     (K.description, PNone); (K.detail_url, PNone); (K.apply_url, PNone);
     (K.url, PNone); (K.source, PStr "vodafone");
     (K.employment_type, PStr "full_time"); (K.category, PStr "Data Analysis");
     (K.posted_at, PTime 63900000000000000)].

Definition clock (k : nat) : Z := 63900000000000000 + Z.of_nat k.

Definition job1 : string := "https://jobs.vodafone.com/careers/job/1".

Definition stored_job1 : Job :=
  mkJob (PStr "Data Analyst") (PStr "Vodafone") (PStr "Cairo")
        (PStr "https://jobs.vodafone.com/careers/apply?pid=1&domain=vodafone.com")
        (PStr job1)
        (PStr "https://jobs.vodafone.com/careers/apply?pid=1&domain=vodafone.com")
        (PStr "Data Analysis") (PStr "vodafone") PNone 100 100.

(** The same posting seen again, now with another apply link and town *)
Definition job1_again : Posting :=
  list_to_map
    [(K.title, PStr "Data Analyst"); (K.company, PStr "Vodafone");
     (K.location, PStr "Giza"); (K.detail_url, PStr job1);
     (K.apply_url, PStr "https://jobs.vodafone.com/careers/apply?pid=1&domain=vodafone.eg");
     (K.source, PStr "vodafone")].

(** The same detail_url and apply_url, offered under another source *)
Definition job1_other_source : Posting :=
  list_to_map
    [(K.title, PStr "Data Analyst"); (K.company, PStr "Vodafone");
     (K.detail_url, PStr job1);
     (K.apply_url, PStr "https://mostaql.com/project/1");
     (K.source, PStr "mostaql")].

Definition job2 : string := "https://jobs.vodafone.com/careers/job/2".

Definition job2_posting : Posting :=
  list_to_map
    [(K.title, PStr "ML Engineer"); (K.company, PStr "Vodafone");
     (K.location, PStr "Cairo"); (K.detail_url, PStr job2);
     (K.apply_url, PStr "https://jobs.vodafone.com/careers/apply?pid=2&domain=vodafone.com");
     (K.url, PStr "https://jobs.vodafone.com/careers/apply?pid=2&domain=vodafone.com");
     (K.source, PStr "vodafone"); (K.category, PStr "Machine Learning")].

(** A page that lists a stored posting twice and a new posting once *)
Definition page : list Posting := [job1_again; job1_again; job2_posting].

Definition later (k : nat) : Z := 64000000000000000 + Z.of_nat k.

(** A stored posting, offered once by its apply link alone and once by its
    detail page with another apply link *)
Definition job1_by_apply : Posting :=
  list_to_map
    [(K.title, PStr "Data Analyst"); (K.company, PStr "Vodafone");
     (K.apply_url, PStr "https://jobs.vodafone.com/careers/apply?pid=1&domain=vodafone.com");
     (K.source, PStr "vodafone")].

Definition conflicting : list Posting := [job1_by_apply; job1_again].

End Samples.

(* ===================================================================== *)
(** * [urllib.parse]: writing a URL *)
(* ===================================================================== *)

Module Urllib.
Import Vodafone.

(** [str(n)] for an [int] *)
Definition str_of_int (n : Z) : string :=
  DecimalString.NilZero.string_of_int (Z.to_int n).

(** The bytes [quote] never escapes: letters, digits and "_.-~" *)
Definition always_safe (b : ascii) : bool :=
  let n := byte_val b in
  is_alpha b || ((48 <=? n) && (n <=? 57))%N
  || Ascii.eqb b "_" || Ascii.eqb b "." || Ascii.eqb b "-" || Ascii.eqb b "~".

Definition hex_upper (n : N) : ascii :=
  ascii_of_N (if (n <? 10)%N then 48 + n else 55 + n).

(** What [quote_plus] writes for one byte of the encoded text: the byte,
    "+" for a space, or "%XX". *)
Definition quote_byte (b : ascii) : string :=
  if always_safe b then String b EmptyString
  else if Ascii.eqb b " " then "+"
  else String "%" (String (hex_upper (byte_val b / 16))
                     (String (hex_upper (byte_val b mod 16)) EmptyString)).

(** [quote_plus(s)] with its default arguments *)
Fixpoint quote_plus (s : string) : string :=
  match s with
  | EmptyString => EmptyString
  | String b r => quote_byte b ++ quote_plus r
  end.

(** ["&".join(l)] *)
Fixpoint join_amp (l : list string) : string :=
  match l with
  | [] => EmptyString
  | [x] => x
  | x :: r => x ++ "&" ++ join_amp r
  end.

(** [urlencode(query)] for a dict from [str] to [str], in the order of
    its keys *)
Definition urlencode (query_ : list (string * string)) : string :=
  join_amp (List.map (fun kv => quote_plus (fst kv) ++ "=" ++ quote_plus (snd kv))
                     query_).

Definition uses_netloc : list string :=
  [""; "ftp"; "http"; "gopher"; "nntp"; "telnet"; "imap"; "wais"; "file";
   "mms"; "https"; "shttp"; "snews"; "prospero"; "rtsp"; "rtspu"; "rsync";
   "svn"; "svn+ssh"; "sftp"; "nfs"; "git"; "git+ssh"; "ws"; "wss"].

Definition nonempty (s : string) : bool := negb (String.eqb s "").

(** [urlunsplit((scheme, netloc, url, query, fragment))] *)
Definition urlunsplit (scheme_ netloc_ url_ query_ fragment_ : string) : string :=
  let url_ :=
    if nonempty netloc_
       || (nonempty scheme_ && existsb (String.eqb scheme_) uses_netloc
           && negb (String.prefix "//" url_))
    then
      let url_ :=
        if nonempty url_ && negb (String.prefix "/" url_) then "/" ++ url_
        else url_ in
      "//" ++ netloc_ ++ url_
    else url_ in
  let url_ := if nonempty scheme_ then scheme_ ++ ":" ++ url_ else url_ in
  let url_ := if nonempty query_ then url_ ++ "?" ++ query_ else url_ in
  if nonempty fragment_ then url_ ++ "#" ++ fragment_ else url_.

(** [urlunparse((scheme, netloc, url, params, query, fragment))] *)
Definition urlunparse
    (scheme_ netloc_ url_ params_ query_ fragment_ : string) : string :=
  let url_ := if nonempty params_ then url_ ++ ";" ++ params_ else url_ in
  urlunsplit scheme_ netloc_ url_ query_ fragment_.

(** ** The dict of [parse_qs]

    A dict keeps its keys in the order they were first written, and
    [urlencode] reads them in that order.  Every list [parse_qs] builds has
    a first value. *)
Definition QueryDict := list (string * (string * list string)).

(** [d[name].append(value)], or [d[name] = [value]] for a new name *)
Fixpoint dict_append (name value : string) (d : QueryDict) : QueryDict :=
  match d with
  | [] => [(name, (value, []))]
  | (k, (v, vs)) :: r =>
      if String.eqb k name then (k, (v, (vs ++ [value])%list)) :: r
      else (k, (v, vs)) :: dict_append name value r
  end.

(** [d[name] = [value]] *)
Fixpoint dict_set (name value : string) (d : QueryDict) : QueryDict :=
  match d with
  | [] => [(name, (value, []))]
  | (k, vv) :: r =>
      if String.eqb k name then (k, (value, [])) :: r
      else (k, vv) :: dict_set name value r
  end.

Section Library.

Variable utf8_replace : string -> string.

(** [parse_qs(qs)], with the order of its keys *)
Definition parse_qs_items (qs : string) : QueryDict :=
  fold_left (fun d nv => dict_append (fst nv) (snd nv) d)
            (parse_qsl utf8_replace qs) [].

End Library.

End Urllib.

(* ===================================================================== *)
(** * app/services/scraper/mostaql.py: the listing pages *)
(* ===================================================================== *)

Module MostaqlListing.
Import Urllib.

Definition _build_url (categories : string) (page : Z) : string :=
  let qs := [("category", categories); ("sort", "latest")] in
  let qs := if (1 <? page)%Z then (qs ++ [("page", str_of_int page)])%list else qs in
  "https://mostaql.com/projects?" ++ urlencode qs.

(** [range(1, max(1, pages) + 1)] *)
Definition page_numbers (pages : Z) : list Z :=
  List.map (fun i => Z.of_nat i) (seq 1 (Z.to_nat (Z.max 1 pages))).

(** The addresses [scrape_mostaql] visits, in order *)
Definition listing_urls (categories : string) (pages : Z) : list string :=
  List.map (_build_url categories) (page_numbers pages).

End MostaqlListing.

(* ===================================================================== *)
(** * app/services/scraper/vodafone.py: the search requests *)
(* ===================================================================== *)

Module VodafoneSearch.
Import Vodafone Urllib.

Definition CANONICAL_NAME : gmap string string :=
  list_to_map
    [ ("Digital Marketing", "Digital Marketing");
      ("تسويق رقمي", "Digital Marketing");
      ("Machine Learning", "Machine Learning");
      ("تعلم آلي", "Machine Learning");
      ("مهندس تعلم آلي", "Machine Learning");
      ("مهندس برمجيات تعلم آلي", "Machine Learning");
      ("Data Analysis", "Data Analysis");
      ("محلل بيانات", "Data Analysis") ].

(** A value of [PROFILE_LINKS]: one address or a list of them *)
Inductive links :=
| One (u : string)
| Many (l : list string).

Definition PROFILE_LINKS : gmap string links :=
  list_to_map
    [ ("Machine Learning",
       One "https://jobs.vodafone.com/careers?domain=vodafone.com&query=Machine+Learning&start=0&pid=563018687504927&sort_by=solr");
      ("Digital Marketing",
       One "https://jobs.vodafone.com/careers?domain=vodafone.com&query=Digital+Marketing&start=0&pid=563018675569773&sort_by=solr");
      ("Data Analysis",
       One "https://jobs.vodafone.com/careers?domain=vodafone.com&query=Data+Analysis&start=0&pid=563018687504917&sort_by=solr") ].

Definition _canonicalize (name : option string) : option string :=
  match name with
  | None => None
  | Some name =>
      if String.eqb name "" then None
      else
        let n := strip name in
        Some (default n (CANONICAL_NAME !! n))
  end.

(** [_ensure_list(v)]; the argument [None] is Python's None. *)
Definition _ensure_list (v : option links) : list string :=
  match v with
  | None => []
  | Some (Many l) => l
  | Some (One u) => [u]
  end.

(** One entry of the list [build_search_urls] returns *)
Record Request := mkRequest {
  url : string;
  category : string;
  page : Z
}.

Section Library.

Variable netloc_ok : string -> bool.
Variable utf8_replace : string -> string.

Definition _set_start_param (u : string) (start : Z) : outcome string :=
  bind (urlparse netloc_ok u) (fun pr =>
    let q := dict_set "start" (str_of_int start)
                      (parse_qs_items utf8_replace (query pr)) in
    let new_q := urlencode (List.map (fun kv => (fst kv, fst (snd kv))) q) in
    Ret (urlunparse (scheme pr) (netloc pr) (path pr) (params pr) new_q
                    (fragment pr))).

(** The inner loop of [build_search_urls]: the requests of one profile *)
Fixpoint requests_of (key : string) (start page_ : Z) (urls : list string)
  : outcome (list Request) :=
  match urls with
  | [] => Ret []
  | u :: rest =>
      bind (if contains "start=" u then _set_start_param u start else Ret u)
           (fun u2 =>
              bind (requests_of key start page_ rest)
                   (fun more => Ret (mkRequest u2 key page_ :: more)))
  end.

(** The outer loop, over the names *)
Fixpoint requests_for (start page_ : Z) (active_profiles : list string)
  : outcome (list Request) :=
  match active_profiles with
  | [] => Ret []
  | raw_name :: rest =>
      let here :=
        match _canonicalize (Some raw_name) with
        | None => Ret []
        | Some key =>
            if String.eqb key "" then Ret []
            else
              let urls := _ensure_list (Some (default (Many []) (PROFILE_LINKS !! key))) in
              requests_of key start page_ urls
        end in
      bind here (fun requests =>
        bind (requests_for start page_ rest)
             (fun more => Ret (requests ++ more)%list))
  end.

Definition build_search_urls (active_profiles : list string) (page_ : Z)
  : outcome (list Request) :=
  let start := Z.max 0 ((page_ - 1) * 20) in
  requests_for start page_ active_profiles.

End Library.

End VodafoneSearch.

(* ===================================================================== *)
(** * app/services/scraper/vodafone.py: the apply links of the table *)
(* ===================================================================== *)

Module VodafoneAutofill.
Import Models.

(** The [where] clauses of the query of [_iter_vodafone_apply_urls] *)
Definition selected (category_ : option string) (j : Job) : bool :=
  pyval_eqb (source j) (PStr "vodafone")
  && negb (pyval_eqb (apply_url j) PNone)
  && match category_ with
     | Some c =>
         if String.eqb c "" then true else pyval_eqb (category j) (PStr c)
     | None => true
     end.

(** The loop over the rows of the query: [urls] grows by each link that is
    not empty and not yet in it, and the loop is left once [urls] has
    [limit] links, which is tested after every row. *)
Fixpoint collect (limit : Z) (rows : list pyval) (urls : list pyval)
  : list pyval :=
  match rows with
  | [] => urls
  | u :: rest =>
      let urls :=
        if truthy u && negb (bool_decide (u ∈ urls)) then (urls ++ [u])%list
        else urls in
      if (limit <=? Z.of_nat (length urls))%Z then urls
      else collect limit rest urls
  end.

Section Engine.

(** [ORDER BY posted_at DESC] leaves the order among rows of equal
    [posted_at] to the engine; the order the engine gives is a parameter. *)
Variable order_by_posted_at_desc : list Job -> list Job.

Definition _iter_vodafone_apply_urls
    (limit : Z) (category_ : option string) (table : list Job) : list pyval :=
  collect limit
    (List.map apply_url
       (order_by_posted_at_desc (List.filter (selected category_) table)))
    [].

End Engine.

End VodafoneAutofill.

(* ===================================================================== *)
(** * app/routers/jobs.py *)
(* ===================================================================== *)

Module Jobs.
Import Models Normalize.

Definition _CANONICAL_NAME : gmap string string :=
  list_to_map
    [ ("Digital Marketing", "Digital Marketing");
      ("تسويق رقمي", "Digital Marketing");
      ("Data Analysis", "Data Analysis");
      ("محلل بيانات", "Data Analysis");
      ("Machine Learning", "Machine Learning");
      ("مهندس تعلم آلي", "Machine Learning");
      ("تعلم آلي", "Machine Learning");
      ("مهندس برمجيات", "Machine Learning") ].

Definition _canon (name : option string) : option string :=
  match name with
  | None => None
  | Some name =>
      if String.eqb name "" then None
      else
        let n := strip name in
        Some (default n (_CANONICAL_NAME !! n))
  end.

(** [if x:] for an optional [str] *)
Definition given (x : option string) : bool :=
  match x with
  | Some s => negb (String.eqb s "")
  | None => false
  end.

(** A column read as an optional [str]: NULL is None. *)
Definition text (v : pyval) : option string :=
  match v with
  | PStr s => Some s
  | _ => None
  end.

(** [s.split(d)] for a one-byte separator *)
Fixpoint split_byte (d : ascii) (s : string) : list string :=
  match s with
  | EmptyString => [EmptyString]
  | String b r =>
      if Ascii.eqb b d then EmptyString :: split_byte d r
      else
        match split_byte d r with
        | x :: xs => String b x :: xs
        | [] => [String b EmptyString]
        end
  end.

Definition _parse_profiles_param (profiles_param : option string) : gset string :=
  match profiles_param with
  | None => ∅
  | Some profiles_param =>
      if String.eqb profiles_param "" then ∅
      else
        let items :=
          List.filter (fun p => negb (String.eqb p ""))
                      (List.map strip (split_byte "," profiles_param)) in
        list_to_set
          (omap (fun p => if given (_canon (Some p)) then _canon (Some p) else None)
                items)
  end.

(** The two columns of [SearchProfile] the routers read *)
Record SearchProfile := mkSearchProfile {
  name : string;
  is_active : bool
}.

Definition _get_active_categories_from_db (profiles : list SearchProfile)
  : gset string :=
  list_to_set
    (omap (fun r => if given (_canon (Some (name r))) then _canon (Some (name r)) else None)
          (List.filter is_active profiles)).

Definition _get_all_existing_categories (table : list Job) : gset string :=
  list_to_set
    (omap (fun j => if given (text (category j)) then _canon (text (category j)) else None)
          table).

(** The exception the third branch of [_apply_employment_source_filter]
    raises: [Job] has no attribute [employment_type]. *)
Inductive filter_exn := AttributeError.

(** The [where] clause [_apply_employment_source_filter] adds, as a test on
    a row *)
Definition _apply_employment_source_filter (employment_type : option string)
  : (Job -> bool) + filter_exn :=
  let et := norm_employment_type employment_type in
  if negb (given et) then inl (fun _ => true)
  else if bool_decide (et = Some "freelance")
  then inl (fun j => pyval_eqb (source j) (PStr "mostaql"))
  else if bool_decide (et = Some "full_time")
  then inl (fun j => pyval_eqb (source j) (PStr "vodafone"))
  else inr AttributeError.

(** The answer of a route *)
Inductive response (A : Type) : Type :=
| OK (body : A)
| HTTPException (status_code : Z).
Arguments OK {A} body.
Arguments HTTPException {A} status_code.

(** A row with its [id].  The pipeline never deletes a row and SQLite
    numbers new rows upward, so the [id] of a row is its position. *)
Definition Row := (nat * Job)%type.

Definition with_ids (table : list Job) : list Row :=
  imap (fun i j => (S i, j)) table.

(** [posted_at] as the column holds it: a [datetime], or NULL *)
Definition posted (j : Job) : option Z :=
  match posted_at j with
  | PTime t => Some t
  | _ => None
  end.

(** [a] comes before [b] under
    [ORDER BY posted_at IS NULL, posted_at DESC, id DESC]. *)
Definition before (a b : Row) : bool :=
  match posted (snd a), posted (snd b) with
  | Some ta, Some tb => (tb <? ta)%Z || ((ta =? tb)%Z && (fst b <? fst a)%nat)
  | Some _, None => true
  | None, Some _ => false
  | None, None => (fst b <? fst a)%nat
  end.

Fixpoint insert_row (r : Row) (l : list Row) : list Row :=
  match l with
  | [] => [r]
  | x :: l' => if before r x then r :: l else x :: insert_row r l'
  end.

Definition order_rows (l : list Row) : list Row := fold_right insert_row [] l.

(** [OFFSET offset LIMIT limit] as SQLite reads them: a negative offset is
    no offset and a negative limit is no limit. *)
Definition offset_limit {A} (offset limit : Z) (l : list A) : list A :=
  let l := drop (Z.to_nat offset) l in
  if (limit <? 0)%Z then l else take (Z.to_nat limit) l.

(** The categories a listing is restricted to: the [profiles] parameter,
    else the active search profiles, else every category of the table. *)
Definition categories_for (profiles : option string)
    (search_profiles : list SearchProfile) (table : list Job) : gset string :=
  let cats := _parse_profiles_param profiles in
  let cats :=
    if bool_decide (cats = ∅) then _get_active_categories_from_db search_profiles
    else cats in
  if bool_decide (cats = ∅) then _get_all_existing_categories table else cats.

(** [Job.category.in_(cats)] *)
Definition category_in (cats : gset string) (j : Job) : bool :=
  match category j with
  | PStr c => bool_decide (c ∈ cats)
  | _ => false
  end.

(** [dict.setdefault(cat, [])] followed by the bounded [append] *)
Fixpoint bucket_add {A} (limit : Z) (cat : string) (d : A)
    (grouped : list (string * list A)) : list (string * list A) :=
  match grouped with
  | [] => [(cat, if (0 <? limit)%Z then [d] else [])]
  | (k, bucket) :: r =>
      if String.eqb k cat
      then (k, if (Z.of_nat (length bucket) <? limit)%Z
               then (bucket ++ [d])%list else bucket) :: r
      else (k, bucket) :: bucket_add limit cat d r
  end.

Section Engine.

(** Two behaviours of the libraries are parameters: [like_contains c q] is
    the SQL test [c LIKE '%' || q || '%'] on a column that is not NULL, and
    [isoformat] is [datetime.isoformat]. *)
Variable like_contains : string -> string -> bool.
Variable isoformat : Z -> string.

(** [Job.c.contains(q)]: never true on NULL *)
Definition col_contains (v : pyval) (q : string) : bool :=
  match text v with
  | Some s => like_contains s q
  | None => false
  end.

(** The dict of a row.  [model_dump] gives every field, so the three
    [setdefault] change nothing; [posted_at] is written in ISO form. *)
Definition _job_to_dict (r : Row) : Row :=
  let j := snd r in
  match posted_at j with
  | PTime t =>
      (fst r,
       mkJob (title j) (company j) (location j) (url j) (detail_url j)
             (apply_url j) (category j) (source j) (PStr (isoformat t))
             (created_at j) (updated_at j))
  | _ => r
  end.

(** [(Job.title.contains(q)) | (Job.company.contains(q)) |
    (Job.category.contains(q))], when [q] is given *)
Definition q_filter (q : option string) (j : Job) : bool :=
  match q with
  | Some q =>
      if String.eqb q "" then true
      else col_contains (title j) q || col_contains (company j) q
           || col_contains (category j) q
  | None => true
  end.

Definition location_filter (location_ : option string) (j : Job) : bool :=
  match location_ with
  | Some l => if String.eqb l "" then true else col_contains (location j) l
  | None => true
  end.

Definition list_jobs
    (q employment_type experience_level location_ : option string)
    (page limit : Z) (profiles : option string)
    (search_profiles : list SearchProfile) (table : list Job)
  : response (list Row) :=
  let cats := categories_for profiles search_profiles table in
  match _apply_employment_source_filter employment_type with
  | inr _ => HTTPException 500
  | inl employment =>
      let rows :=
        order_rows
          (List.filter
             (fun r => category_in cats (snd r) && q_filter q (snd r)
                       && location_filter location_ (snd r) && employment (snd r))
             (with_ids table)) in
      OK (List.map _job_to_dict (offset_limit ((page - 1) * limit) limit rows))
  end.

(** The loop of [list_jobs_grouped] *)
Fixpoint group_rows (limit_per_category : Z) (rows : list Row)
    (grouped : list (string * list Row)) : list (string * list Row) :=
  match rows with
  | [] => grouped
  | j :: rest =>
      let cat := _canon (text (category (snd j))) in
      match cat with
      | Some c =>
          if String.eqb c "" then group_rows limit_per_category rest grouped
          else group_rows limit_per_category rest
                 (bucket_add limit_per_category c (_job_to_dict j) grouped)
      | None => group_rows limit_per_category rest grouped
      end
  end.

Definition list_jobs_grouped
    (q : option string) (limit_per_category : Z)
    (profiles employment_type : option string)
    (search_profiles : list SearchProfile) (table : list Job)
  : response (list (string * list Row)) :=
  let cats := categories_for profiles search_profiles table in
  match _apply_employment_source_filter employment_type with
  | inr _ => HTTPException 500
  | inl employment =>
      let rows :=
        order_rows
          (List.filter
             (fun r => category_in cats (snd r) && q_filter q (snd r)
                       && employment (snd r))
             (with_ids table)) in
      OK (group_rows limit_per_category rows [])
  end.

End Engine.

End Jobs.

(* ===================================================================== *)
(** * app/routers/scrape.py: the autofill configuration *)
(* ===================================================================== *)

Module Scrape.

Record ApplyVodafoneFiles := mkFiles {
  cv_path : option string;
  cover_letter_path : option string;
  portfolio_path : option string;
  graduation_path : option string
}.

Record ApplyVodafoneProfile := mkProfile {
  p_title : option string;
  p_preferred_name : option string;
  phone_country : option string;
  residence_country : option string;
  p_city : option string;
  p_zip_code : option string;
  p_gender : option string
}.

Record ApplyVodafoneIn := mkApplyIn {
  a_url : string;
  headless : bool;
  background : bool;
  a_keep_open : option bool;
  a_keep_open_seconds : option Z;
  profile : option ApplyVodafoneProfile;
  files : option ApplyVodafoneFiles
}.

(** [AutofillConfig] of vodafone.py *)
Record AutofillConfig := mkConfig {
  cv : option string;
  attachment1 : option string;
  attachment2 : option string;
  attachment3 : option string;
  title : string;
  preferred_name : string;
  phone_country_query : string;
  country_of_residence : string;
  city : string;
  zip_code : string;
  gender : string;
  keep_open : bool;
  keep_open_seconds : option Z
}.

(** [AutofillConfig()] *)
Definition default_config : AutofillConfig :=
  {| cv := None; attachment1 := None; attachment2 := None; attachment3 := None;
     title := "Mrs."; preferred_name := "S. Elgayah";
     phone_country_query := "egy"; country_of_residence := "Egypt";
     city := "Cairo"; zip_code := "11311"; gender := "Female";
     keep_open := false; keep_open_seconds := None |}.

(** [new] when it is given and not empty, else [old] *)
Definition override (new : option string) (old : string) : string :=
  match new with
  | Some s => if String.eqb s "" then old else s
  | None => old
  end.

Definition override_opt (new old : option string) : option string :=
  match new with
  | Some s => if String.eqb s "" then old else Some s
  | None => old
  end.

(** The value given to [phone_country_query] for a phone country that is
    given and not empty *)
Definition phone_query (phone : string) (old : string) : string :=
  let s := lower (strip phone) in
  let cut := if (3 <=? length (chars s))%nat then join (take 3 (chars s)) else s in
  let query_ := if String.eqb cut "" then old else cut in
  if String.prefix "egy" s then "egy" else query_.

Definition _map_apply_payload_to_config (p : ApplyVodafoneIn) : AutofillConfig :=
  let cfg := default_config in
  let f := default (mkFiles None None None None) (files p) in
  let pr := default (mkProfile None None None None None None None) (profile p) in
  {| cv := override_opt (cv_path f) (cv cfg);
     attachment1 := override_opt (cover_letter_path f) (attachment1 cfg);
     attachment2 := override_opt (portfolio_path f) (attachment2 cfg);
     attachment3 := override_opt (graduation_path f) (attachment3 cfg);
     title := override (p_title pr) (title cfg);
     preferred_name := override (p_preferred_name pr) (preferred_name cfg);
     phone_country_query :=
       match phone_country pr with
       | Some ph =>
           if String.eqb ph "" then phone_country_query cfg
           else phone_query ph (phone_country_query cfg)
       | None => phone_country_query cfg
       end;
     country_of_residence := override (residence_country pr) (country_of_residence cfg);
     city := override (p_city pr) (city cfg);
     zip_code := override (p_zip_code pr) (zip_code cfg);
     gender := override (p_gender pr) (gender cfg);
     keep_open := default (keep_open cfg) (a_keep_open p);
     keep_open_seconds :=
       match a_keep_open_seconds p with
       | Some n => Some n
       | None => keep_open_seconds cfg
       end |}.

End Scrape.

(* ===================================================================== *)
(** * Further notions used to state the properties *)
(* ===================================================================== *)

Module Views.
Import Models Db.

(** One character of a text: a byte and the continuation bytes after it *)
Definition chunk (c : string) : Prop :=
  match c with
  | String _ t => Vodafone.all_bytes is_cont t = true
  | EmptyString => False
  end.

(** A list of characters as [chars] cuts them: only the first may begin
    with a continuation byte. *)
Definition cut (l : list string) : Prop :=
  Forall chunk l /\ Forall (fun c => starts_with_cont c = false) (tail l).

(** A profile name mentions a word when the word occurs in the name once
    it is trimmed and lower-cased. *)
Definition mentions (w p : string) : bool := contains w (lower (strip p)).

(** The bytes [quote_plus] writes *)
Definition quoted (b : ascii) : bool :=
  Urllib.always_safe b || Ascii.eqb b "+" || Ascii.eqb b "%".

(** A text that [unquote] gives back once it is quoted: one that needs no
    escape, or that decoding leaves as it is *)
Definition readable (utf8_replace : string -> string) (s : string) : Prop :=
  Vodafone.has_byte "%" (Vodafone.plus_to_space (Urllib.quote_plus s)) = true ->
  utf8_replace s = s.

(** A pair of a query whose value is not empty *)
Definition has_value (kv : string * string) : bool :=
  negb (String.eqb (snd kv) "").




(** A candidate that resolves to no record of the table *)
Definition unresolved (table : list Job) (c : Posting) : bool :=
  bool_decide (Spec.resolve table c = None).

Definition unresolved_v (table : list Job) (c : Posting) : bool :=
  bool_decide (Spec.resolve_v table c = None).

(** The rows of an answer; none when the route failed *)
Definition body {A} (r : Jobs.response (list A)) : list A :=
  match r with
  | Jobs.OK rows => rows
  | Jobs.HTTPException _ => []
  end.



(** The canonical category of a row is [k] *)
Definition in_section (k : string) (r : Jobs.Row) : bool :=
  bool_decide (Jobs._canon (Jobs.text (category (snd r))) = Some k).

(** [grouped.get(k)] on the dict the grouped listing builds *)
Fixpoint bucket_of {A} (k : string) (grouped : list (string * list A))
  : option (list A) :=
  match grouped with
  | [] => None
  | (k', bucket) :: r => if String.eqb k' k then Some bucket else bucket_of k r
  end.

(** Rows in the order of the listings: newest first *)
Definition newest_first (l : list Job) : list Job :=
  List.map snd (Jobs.order_rows (Jobs.with_ids l)).

End Views.

(** Further tables, postings and requests the properties are tried on *)
Module Cases.
Import Models Samples.

(** The stored posting seen again, now with its requirements text *)
Definition job1_described : Posting :=
  <[K.description := PStr "SQL, Power BI"]> job1_again.

Definition t0 : Z := 63900000000000000.

(** A table of five postings of three categories and two sources *)
Definition board : list Job :=
  [ mkJob (PStr "Data Analyst") (PStr "Vodafone") (PStr "Cairo") PNone
          (PStr "https://jobs.vodafone.com/careers/job/1")
          (PStr "https://jobs.vodafone.com/careers/apply?pid=1&domain=vodafone.com")
          (PStr "Data Analysis") (PStr "vodafone") (PTime t0) t0 t0;
    mkJob (PStr "ML Engineer") (PStr "Vodafone") (PStr "Giza") PNone
          (PStr "https://jobs.vodafone.com/careers/job/2")
          (PStr "https://jobs.vodafone.com/careers/apply?pid=2&domain=vodafone.com")
          (PStr "Machine Learning") (PStr "vodafone") (PTime (t0 + 5)) t0 t0;
    mkJob (PStr "Dashboard in Power BI") (PStr "Mona") PNone
          (PStr "https://mostaql.com/project/7")
          (PStr "https://mostaql.com/project/7")
          (PStr "https://mostaql.com/project/7")
          (PStr "Data Analysis") (PStr "mostaql") PNone t0 t0;
    mkJob (PStr "Senior Data Analyst") (PStr "Vodafone") (PStr "Cairo") PNone
          (PStr "https://jobs.vodafone.com/careers/job/4")
          (PStr "https://jobs.vodafone.com/careers/apply?pid=1&domain=vodafone.com")
          (PStr "Data Analysis") (PStr "vodafone") (PTime (t0 + 5)) t0 t0;
    mkJob (PStr "Data Engineer") (PStr "Vodafone") (PStr "Cairo") PNone
          (PStr "https://jobs.vodafone.com/careers/job/5")
          (PStr "")
          (PStr "محلل بيانات") (PStr "vodafone") (PTime (t0 + 9)) t0 t0 ].

Definition active_profiles : list Jobs.SearchProfile :=
  [Jobs.mkSearchProfile "محلل بيانات" true;
   Jobs.mkSearchProfile "Machine Learning" false].

End Cases.

(* ===================================================================== *)
(** * The inputs the model stands for *)
(* ===================================================================== *)

(** Three library behaviours are modelled on a part of their inputs only:
    [lower] is [str.lower] on text without cased letters outside ASCII,
    [int_of_digits] is [int] up to the length CPython converts, and
    [commit] is the commit of rows that the table accepts.  The predicates
    below name those parts. *)
Module Domain.
Import Models.

(** A character of ASCII or of the Arabic block (U+0600 to U+06FF), which
    has no cased letter. *)
Definition plain_char (c : string) : bool :=
  (codepoint c <? 128)%N || ((1536 <=? codepoint c) && (codepoint c <=? 1791))%N.

(** A text on which [lower] is [str.lower] *)
Definition plain (s : string) : bool := forallb plain_char (chars s).

(** CPython 3.11 refuses to convert a run of more than 4300 digits:
    [int] raises ValueError on it. *)
Definition max_str_digits : nat := 4300.

(** A text too short to hold a run of digits that [int] refuses; an absent
    text is short. *)
Definition short (text : option string) : bool :=
  match text with
  | Some s => (String.length s <=? max_str_digits)%nat
  | None => true
  end.

(** An ASCII decimal digit *)
Definition digit_byte (b : ascii) : bool :=
  (48 <=? byte_val b)%N && (byte_val b <=? 57)%N.

Definition is_str (v : pyval) : bool :=
  match v with PStr _ => true | _ => false end.

Definition opt_str (v : pyval) : bool :=
  match v with PStr _ | PNone => true | PTime _ => false end.

Definition opt_time (v : pyval) : bool :=
  match v with PTime _ | PNone => true | PStr _ => false end.

(** The values of a posting have the types of the columns they are
    written to: text, and a [datetime] for [posted_at]. *)
Definition typed (c : Posting) : bool :=
  forallb (fun k => opt_str (get c k))
          [K.title; K.company; K.location; K.url; K.detail_url; K.apply_url;
           K.category; K.source]
  && opt_time (get c K.posted_at).

(** A row the table accepts: [title], [company] and [source], which are
    NOT NULL, hold a text. *)
Definition accepted (j : Job) : bool :=
  is_str (title j) && is_str (company j) && is_str (source j).

End Domain.

Ltac solve_elem :=
  repeat (apply elem_of_cons; first [left; reflexivity | right]).

Ltac model_key := refine (bool_decide_eq_true_1 _ _); vm_compute; reflexivity.

(* ===================================================================== *)
(** * Properties of the normalisers and of the classifier *)
(* ===================================================================== *)

Module NormalizeFacts.
Import Normalize Spec Samples.

(** C6.  Employment-type normalisation is the identity on each of the four
    canonical values, and every alias of the table is sent to the one
    canonical value the table gives it.  The table has fifteen entries, so
    no key of the literal hides another. *)
Theorem norm_employment_type_canonical :
  Forall (fun v => norm_employment_type (Some v) = Some v) canonical
  /\ map_Forall (fun alias v =>
                   v ∈ canonical /\ norm_employment_type (Some alias) = Some v)
                mapping
  /\ size mapping = 15.
Proof.
  split; [| split].
  - repeat constructor.
  - refine (bool_decide_eq_true_1 _ _). vm_compute. reflexivity.
  - vm_compute. reflexivity.
Qed.

(** Unknown labels come back lower-cased, and absent input stays absent. *)
Example norm_employment_type_other :
  norm_employment_type (Some "  Seasonal ") = Some "seasonal"
  /\ norm_employment_type (Some "") = None
  /\ norm_employment_type None = None.
Proof. repeat split; vm_compute; reflexivity. Qed.

End NormalizeFacts.

Module MostaqlFacts.
Import Mostaql Spec Samples.

Lemma long_ago_days :
  let cs := chars (_to_ascii_digits (strip long_ago)) in
  search_count_unit ["دقيقة"; "دقائق"] cs = None
  /\ search_count_unit ["ساعة"; "ساعات"] cs = None
  /\ search_count_unit ["يوم"; "أيام"] cs = Some 9999999%Z.
Proof. repeat split; vm_compute; reflexivity. Qed.

(** C7.  The Arabic parser is not total: whatever the clock reads, a text
    that counts 9999999 days makes the subtraction leave the range of
    [datetime], and the OverflowError propagates to the caller. *)
Theorem parse_ar_posted_overflow (now : Z) :
  valid_datetime now ->
  parse_ar_posted now (Some long_ago) = Raise OverflowError.
Proof.
  intros [_ Hmax].
  destruct long_ago_days as (Hm & Hh & Hd).
  unfold parse_ar_posted.
  replace (String.eqb long_ago "") with false by (vm_compute; reflexivity).
  cbv zeta in Hm, Hh, Hd. rewrite Hm, Hh, Hd.
  unfold datetime_sub.
  assert (now - 9999999 * us_per_day < 0)%Z as Hneg.
  { revert Hmax. unfold max_ordinal, us_per_day, us_per_hour, us_per_minute,
      us_per_second. lia. }
  apply Z.ltb_lt in Hneg. rewrite Hneg. reflexivity.
Qed.

Lemma parse_ar_posted_overflow_witness :
  valid_datetime 63900000000000000
  /\ parse_ar_posted 63900000000000000 (Some long_ago) = Raise OverflowError.
Proof.
  assert (valid_datetime 63900000000000000) as H
    by (unfold valid_datetime; vm_compute; split; [discriminate | reflexivity]).
  split; [exact H | exact (parse_ar_posted_overflow _ H)].
Defined.

(** What the parser does on the inputs it was written for. *)
Lemma parse_ar_posted_cases (now : Z) :
  (3 * us_per_hour <= now)%Z -> (7 * us_per_day <= now)%Z ->
  parse_ar_posted now (Some "منذ 3 ساعات") = Ret (Some (now - 3 * us_per_hour)%Z)
  /\ parse_ar_posted now (Some "منذ ٣ ساعات") = Ret (Some (now - 3 * us_per_hour)%Z)
  /\ parse_ar_posted now (Some "منذ أسبوع") = Ret (Some (now - 7 * us_per_day)%Z)
  /\ parse_ar_posted now (Some "قريبا") = Ret (Some now)
  /\ parse_ar_posted now (Some "") = Ret None
  /\ parse_ar_posted now None = Ret None.
Proof.
  intros H3 H7.
  assert (forall d, (d <= now)%Z -> datetime_sub now d = Ret (now - d)%Z) as Hsub.
  { intros d Hd. unfold datetime_sub.
    replace (now - d <? 0)%Z with false; [reflexivity |].
    symmetry. apply Z.ltb_ge. lia. }
  split; [| split; [| split; [| repeat split]]].
  - unfold parse_ar_posted.
    replace (String.eqb "منذ 3 ساعات" "") with false by (vm_compute; reflexivity).
    replace (search_count_unit ["دقيقة"; "دقائق"] (chars (_to_ascii_digits (strip "منذ 3 ساعات"))))
      with (@None Z) by (vm_compute; reflexivity).
    replace (search_count_unit ["ساعة"; "ساعات"] (chars (_to_ascii_digits (strip "منذ 3 ساعات"))))
      with (Some 3%Z) by (vm_compute; reflexivity).
    rewrite (Hsub _ H3). reflexivity.
  - unfold parse_ar_posted.
    replace (String.eqb "منذ ٣ ساعات" "") with false by (vm_compute; reflexivity).
    replace (search_count_unit ["دقيقة"; "دقائق"] (chars (_to_ascii_digits (strip "منذ ٣ ساعات"))))
      with (@None Z) by (vm_compute; reflexivity).
    replace (search_count_unit ["ساعة"; "ساعات"] (chars (_to_ascii_digits (strip "منذ ٣ ساعات"))))
      with (Some 3%Z) by (vm_compute; reflexivity).
    rewrite (Hsub _ H3). reflexivity.
  - unfold parse_ar_posted.
    replace (String.eqb "منذ أسبوع" "") with false by (vm_compute; reflexivity).
    replace (search_count_unit ["دقيقة"; "دقائق"] (chars (_to_ascii_digits (strip "منذ أسبوع"))))
      with (@None Z) by (vm_compute; reflexivity).
    replace (search_count_unit ["ساعة"; "ساعات"] (chars (_to_ascii_digits (strip "منذ أسبوع"))))
      with (@None Z) by (vm_compute; reflexivity).
    replace (search_count_unit ["يوم"; "أيام"] (chars (_to_ascii_digits (strip "منذ أسبوع"))))
      with (@None Z) by (vm_compute; reflexivity).
    replace (contains "أسبوع" (_to_ascii_digits (strip "منذ أسبوع")))
      with true by (vm_compute; reflexivity).
    rewrite (Hsub _ H7). reflexivity.
Qed.

(** The English parser answers an absent text with the clock reading. *)
Lemma parse_posted_at_absent (now : Z) :
  Vodafone.parse_posted_at now None = now
  /\ Vodafone.parse_posted_at now (Some "") = now.
Proof. split; reflexivity. Qed.

End MostaqlFacts.

(* ===================================================================== *)
(** * The canonical apply URL *)
(* ===================================================================== *)

Module UrlFacts.
Import Vodafone Spec Samples.

Lemma join_chars s : join (chars s) = s.
Proof.
  induction s as [| b r IH]; [reflexivity |]. cbn [chars].
  destruct (chars r) as [| c cs]; cbn in *.
  - rewrite <- IH. reflexivity.
  - destruct (starts_with_cont c); cbn; rewrite <- IH; reflexivity.
Qed.

Lemma append_assoc (a b c : string) : (a ++ b) ++ c = a ++ (b ++ c).
Proof.
  induction a as [| x a IH]; [reflexivity |].
  change (String x ((a ++ b) ++ c) = String x (a ++ (b ++ c))).
  rewrite IH. reflexivity.
Qed.

Lemma join_app a b : join (a ++ b)%list = join a ++ join b.
Proof.
  induction a as [| x a IH]; [reflexivity |].
  change (x ++ join (a ++ b)%list = (x ++ join a) ++ join b).
  rewrite IH. symmetry. apply append_assoc.
Qed.

Lemma take_drop_while {A} (q : A -> bool) (l : list A) :
  (take_while q l ++ drop_while q l)%list = l.
Proof.
  induction l as [| x l IH]; [reflexivity |]. cbn.
  destruct (q x); [cbn; rewrite IH |]; reflexivity.
Qed.

Lemma take_while_Forall {A} (q : A -> bool) (l : list A) :
  Forall (fun c => q c = true) (take_while q l).
Proof.
  induction l as [| x l IH]; [constructor |]. cbn.
  destruct (q x) eqn:Hq; constructor; assumption.
Qed.

Lemma strip_prefix_Some p s r : strip_prefix p s = Some r -> s = p ++ r.
Proof.
  revert s. induction p as [| a p IH]; intros s H; cbn in H.
  - inversion H. reflexivity.
  - destruct s as [| b s]; [discriminate |].
    destruct (Ascii.eqb_spec a b) as [-> |]; [| discriminate].
    cbn. rewrite (IH s H). reflexivity.
Qed.

(** What the search returns is a run of digits that stands in the text
    right after the literal. *)
Lemma search_digits_after_sound lit s ds :
  search_digits_after lit s = Some ds ->
  digit_run ds /\ exists pre post, s = pre ++ lit ++ ds ++ post.
Proof.
  assert (forall s,
             match strip_prefix lit s with
             | Some rest =>
                 match take_while isdigit (chars rest) with
                 | [] => None
                 | ds => Some (join ds)
                 end
             | None => None
             end = Some ds ->
             digit_run ds /\ exists post, s = lit ++ ds ++ post) as Hhere.
  { intros s0 H. destruct (strip_prefix lit s0) as [rest |] eqn:Hp; [| discriminate].
    apply strip_prefix_Some in Hp.
    pose proof (take_drop_while isdigit (chars rest)) as Hsplit.
    pose proof (take_while_Forall isdigit (chars rest)) as Hall.
    destruct (take_while isdigit (chars rest)) as [| d dl] eqn:Ht; [discriminate |].
    inversion H; subst ds. split.
    - exists (d :: dl). split; [discriminate | split; [reflexivity | exact Hall]].
    - exists (join (drop_while isdigit (chars rest))).
      change (d ++ join dl) with (join (d :: dl)).
      rewrite <- join_app, Hsplit, join_chars. exact Hp. }
  induction s as [| c r IH]; intros H; cbn [search_digits_after] in H.
  - destruct (match strip_prefix lit "" with Some _ => _ | None => _ end) eqn:Hh;
      [| discriminate].
    inversion H; subst. destruct (Hhere "" Hh) as (Hrun & post & E).
    split; [exact Hrun |]. exists "", post. exact E.
  - destruct (match strip_prefix lit (String c r) with Some _ => _ | None => _ end) eqn:Hh.
    + inversion H; subst. destruct (Hhere _ Hh) as (Hrun & post & E).
      split; [exact Hrun |]. exists "", post. exact E.
    + destruct (IH H) as (Hrun & pre & post & E).
      split; [exact Hrun |]. exists (String c pre), post. cbn. rewrite E. reflexivity.
Qed.

Section WithLibrary.

Variable netloc_ok : string -> bool.
Variable utf8_replace : string -> string.

(** The result of [to_apply_url] by the parts [urlparse] cuts the address
    into.  The code looks for "apply" anywhere in the path. *)
Lemma to_apply_url_parsed (u : string) (p : ParseResult) :
  u <> "" ->
  urlparse netloc_ok u = Ret p ->
  let scheme_ := or_str (scheme p) "https" in
  let host := or_str (netloc p) BASE_HOST in
  let q := parse_qs utf8_replace (query p) in
  let result := to_apply_url netloc_ok utf8_replace (Some u) "vodafone.com" in
  (forall digits,
      contains "apply" (path p) = false ->
      search_digits_after "/job/" (path p) = Some digits ->
      result = Ret (Some (apply_template scheme_ host digits (domain_of q)))
      /\ digit_run digits
      /\ exists pre post, path p = pre ++ "/job/" ++ digits ++ post)
  /\ (forall pid,
      contains "apply" (path p) = true ->
      first_value q "pid" None = Some pid ->
      result = Ret (Some (apply_template scheme_ host pid (domain_of q))))
  /\ (forall pid,
      contains "apply" (path p) = true ->
      first_value q "pid" None = None ->
      search_digits_after "pid=" (query p) = Some pid ->
      result = Ret (Some (apply_template scheme_ host pid (domain_of q))))
  /\ (contains "apply" (path p) = true ->
      first_value q "pid" None = None ->
      search_digits_after "pid=" (query p) = None ->
      result = Ret (Some (scheme_ ++ "://" ++ host ++ path p ++ "?domain=" ++ domain_of q)))
  /\ (contains "apply" (path p) = false ->
      search_digits_after "/job/" (path p) = None ->
      result = Ret (Some u))
  /\ to_apply_url netloc_ok utf8_replace None "vodafone.com" = Ret None.
Proof.
  intros Hne Hparse scheme_ host q result.
  assert (String.eqb u "" = false) as Hu by (apply String.eqb_neq; exact Hne).
  assert (default "vodafone.com" (first_value q "domain" (Some "vodafone.com"))
          = domain_of q) as Hdom.
  { unfold first_value, domain_of. destruct (q !! "domain") as [[| v vs] |]; reflexivity. }
  assert (result =
          (if contains "apply" (path p) then
             match first_value q "pid" None with
             | Some pid => Ret (Some (apply_template scheme_ host pid (domain_of q)))
             | None =>
                 match search_digits_after "pid=" (query p) with
                 | Some pid => Ret (Some (apply_template scheme_ host pid (domain_of q)))
                 | None => Ret (Some (scheme_ ++ "://" ++ host ++ path p ++ "?domain=" ++ domain_of q))
                 end
             end
           else
             match search_digits_after "/job/" (path p) with
             | Some pid => Ret (Some (apply_template scheme_ host pid (domain_of q)))
             | None => Ret (Some u)
             end)) as Hres.
  { subst result. unfold to_apply_url. rewrite Hu, Hparse. cbn [bind].
    fold scheme_ host q. rewrite Hdom. reflexivity. }
  split; [intros digits Hpath Hjob; split; [| split] | repeat split].
  - rewrite Hres, Hpath, Hjob. reflexivity.
  - apply (search_digits_after_sound _ _ _ Hjob).
  - apply (search_digits_after_sound _ _ _ Hjob).
  - intros pid Hpath Hpid. rewrite Hres, Hpath, Hpid. reflexivity.
  - intros pid Hpath Hpid Hre. rewrite Hres, Hpath, Hpid, Hre. reflexivity.
  - intros Hpath Hpid Hre. rewrite Hres, Hpath, Hpid, Hre. reflexivity.
  - intros Hpath Hjob. rewrite Hres, Hpath, Hjob. reflexivity.
Qed.

End WithLibrary.

Example to_apply_url_detail_page :
  urlparse (fun _ => true) detail_page = Ret detail_page_parsed
  /\ to_apply_url (fun _ => true) (fun s => s) (Some detail_page) "vodafone.com"
     = Ret (Some "https://jobs.vodafone.com/careers/apply?pid=563018687504927&domain=vodafone.com").
Proof. split; vm_compute; reflexivity. Qed.

(** A relative link takes the default scheme and host, a blank [domain]
    counts as none, and an apply link without [pid] keeps its path. *)
Example to_apply_url_examples :
  let f u := to_apply_url (fun _ => true) (fun s => s) (Some u) "vodafone.com" in
  f "/careers/job/123-data-analyst?domain="
    = Ret (Some "https://jobs.vodafone.com/careers/apply?pid=123&domain=vodafone.com")
  /\ f "https://jobs.vodafone.com/careers/apply?pid=55&domain=x.org"
    = Ret (Some "https://jobs.vodafone.com/careers/apply?pid=55&domain=x.org")
  /\ f "https://jobs.vodafone.com/careers/apply"
    = Ret (Some "https://jobs.vodafone.com/careers/apply?domain=vodafone.com")
  /\ f "https://jobs.vodafone.com/careers?query=ML"
    = Ret (Some "https://jobs.vodafone.com/careers?query=ML")
  /\ f "" = Ret (Some "").
Proof. repeat split; vm_compute; reflexivity. Qed.

End UrlFacts.

(* ===================================================================== *)
(** * The session and the two merges *)
(* ===================================================================== *)

Module DbFacts.
Import Models Db.

Lemma find_row_Some {A} (p : A -> bool) (l : list A) i x :
  find_row p l = Some (i, x) ->
  l !! i = Some x /\ p x = true
  /\ (forall j y, j < i -> l !! j = Some y -> p y = false).
Proof.
  revert i. induction l as [| a l IH]; intros i H; [discriminate |].
  cbn in H. destruct (p a) eqn:Hpa.
  - inversion H; subst. repeat split; [exact Hpa |]. intros j y Hj. lia.
  - destruct (find_row p l) as [[i' x'] |] eqn:Hf; [| discriminate].
    cbn in H. inversion H; subst. destruct (IH i' eq_refl) as (Hl & Hp & Hfirst).
    repeat split; [exact Hl | exact Hp |].
    intros [| j] y Hj Hy; cbn in Hy.
    + inversion Hy; subst. exact Hpa.
    + apply (Hfirst j); [lia | exact Hy].
Qed.

Lemma find_row_None {A} (p : A -> bool) (l : list A) :
  find_row p l = None -> forall x, x ∈ l -> p x = false.
Proof.
  induction l as [| a l IH]; intros H x Hx.
  - inversion Hx.
  - cbn in H. destruct (p a) eqn:Hpa; [discriminate |].
    destruct (find_row p l) as [[i' x'] |] eqn:Hf; [discriminate |].
    apply elem_of_cons in Hx as [-> | Hx]; [exact Hpa | exact (IH eq_refl x Hx)].
Qed.

Lemma find_row_is_Some {A} (p : A -> bool) (l : list A) x :
  x ∈ l -> p x = true -> is_Some (find_row p l).
Proof.
  intros Hx Hp. destruct (find_row p l) as [e |] eqn:Hf; [eexists; reflexivity |].
  rewrite (find_row_None p l Hf x Hx) in Hp. discriminate.
Qed.

Lemma first_where_Some p s i o :
  first_where p s = Some (i, o) ->
  exists r, rows s !! i = Some r /\ p r = true
            /\ o = default r (objects s !! i)
            /\ (forall j y, j < i -> rows s !! j = Some y -> p y = false).
Proof.
  unfold first_where. destruct (find_row p (rows s)) as [[i' r] |] eqn:Hf; [| discriminate].
  intros H; inversion H; subst.
  destruct (find_row_Some _ _ _ _ Hf) as (Hl & Hp & Hfirst).
  exists r. repeat split; assumption.
Qed.

Lemma first_where_None p s :
  first_where p s = None -> forall x, x ∈ rows s -> p x = false.
Proof.
  unfold first_where. destruct (find_row p (rows s)) as [[i' r] |] eqn:Hf; [discriminate |].
  intros _. exact (find_row_None p _ Hf).
Qed.

Lemma first_where_is_Some p s x :
  x ∈ rows s -> p x = true -> is_Some (first_where p s).
Proof.
  intros Hx Hp. unfold first_where.
  destruct (find_row_is_Some p _ x Hx Hp) as [[i r] Hf]. rewrite Hf.
  eexists; reflexivity.
Qed.

(** Which row a query finds depends on the committed table alone. *)
Lemma first_where_index p s s' :
  rows s = rows s' -> fst <$> first_where p s = fst <$> first_where p s'.
Proof.
  intros Hrows. unfold first_where. rewrite Hrows.
  destruct (find_row p (rows s')) as [[i r] |]; reflexivity.
Qed.

(** ** Attributes *)

Lemma setattr_same j k v j' f :
  setattr j k v = Ret j' -> field k = Some f -> f j' = v.
Proof.
  destruct k; cbn; intros H Hf; inversion H; inversion Hf; subst; reflexivity.
Qed.

Lemma setattr_other j k v j' k' f :
  setattr j k v = Ret j' -> field k' = Some f -> k <> k' -> f j' = f j.
Proof.
  destruct k; cbn; intros H Hf Hne; inversion H; subst;
    destruct k'; cbn in Hf; inversion Hf; subst; try reflexivity; congruence.
Qed.

Lemma setattr_timestamps j k v j' :
  setattr j k v = Ret j' ->
  created_at j' = created_at j /\ updated_at j' = updated_at j.
Proof. destruct k; cbn; intros H; inversion H; subst; split; reflexivity. Qed.

Lemma setattr_field j k v f :
  field k = Some f -> exists j', setattr j k v = Ret j'.
Proof. destruct k; cbn; intros H; inversion H; eexists; reflexivity. Qed.

Lemma blank_truthy v : blank v = negb (truthy v).
Proof. destruct v as [| s |]; cbn; [reflexivity | destruct (String.eqb s ""); reflexivity | reflexivity]. Qed.

End DbFacts.

Module SaveFacts.
Import Models Db Save DbFacts.

(** ** [_update_job_fields] *)

Lemma update_fields_blank keys dest src k f :
  field k = Some f -> blank (get src k) = true ->
  f (fst (update_fields keys dest src)) = f dest.
Proof.
  intros Hf Hblank. revert dest.
  induction keys as [| key rest IH]; intros dest; cbn; [reflexivity |].
  destruct (blank (get src key)) eqn:Hb; [apply IH |].
  destruct (setattr dest key (get src key)) as [dest' | e] eqn:Hs; [| reflexivity].
  rewrite IH. apply (setattr_other _ _ _ _ _ _ Hs Hf).
  intros ->. congruence.
Qed.

Lemma update_fields_timestamps keys dest src :
  created_at (fst (update_fields keys dest src)) = created_at dest
  /\ updated_at (fst (update_fields keys dest src)) = updated_at dest.
Proof.
  revert dest. induction keys as [| key rest IH]; intros dest; cbn; [split; reflexivity |].
  destruct (blank (get src key)); [apply IH |].
  destruct (setattr dest key (get src key)) as [dest' | e] eqn:Hs; [| split; reflexivity].
  destruct (IH dest') as (Hc & Hu). destruct (setattr_timestamps _ _ _ _ Hs) as (Hc' & Hu').
  split; congruence.
Qed.

Lemma update_fields_set keys dest src dest' k f :
  update_fields keys dest src = (dest', Ret tt) ->
  field k = Some f -> blank (get src k) = false ->
  k ∈ keys \/ f dest = get src k ->
  f dest' = get src k.
Proof.
  intros H Hf Hnb. revert dest H.
  induction keys as [| key rest IH]; intros dest H Hin; cbn in H.
  - inversion H; subst. destruct Hin as [Hin | Heq]; [inversion Hin | exact Heq].
  - destruct (blank (get src key)) eqn:Hb.
    + apply (IH dest H). destruct Hin as [Hin | Heq]; [| right; exact Heq].
      apply elem_of_cons in Hin as [-> | Hin]; [congruence | left; exact Hin].
    + destruct (setattr dest key (get src key)) as [d1 | e] eqn:Hs; [| inversion H].
      apply (IH d1 H).
      destruct (decide (key = k)) as [-> | Hne].
      * right. apply (setattr_same _ _ _ _ _ Hs Hf).
      * destruct Hin as [Hin | Heq].
        -- apply elem_of_cons in Hin as [-> | Hin]; [congruence | left; exact Hin].
        -- right. rewrite (setattr_other _ _ _ _ _ _ Hs Hf Hne). exact Heq.
Qed.

(** A merge that completes leaves, in every updatable field, the value of
    the candidate where it has one and the value of the record elsewhere. *)
Lemma _update_job_fields_Ret dest src dest' k f :
  _update_job_fields dest src = (dest', Ret tt) ->
  k ∈ updatable -> field k = Some f ->
  f dest' = if blank (get src k) then f dest else get src k.
Proof.
  intros H Hin Hf. destruct (blank (get src k)) eqn:Hb.
  - pose proof (update_fields_blank updatable dest src k f Hf Hb) as E.
    unfold _update_job_fields in H. rewrite H in E. exact E.
  - apply (update_fields_set updatable dest src dest' k f H Hf Hb). left. exact Hin.
Qed.

End SaveFacts.

Module VodafoneFacts.
Import Models Db Vodafone DbFacts.

Lemma assign_fields_blank keys dest it k f :
  field k = Some f -> blank (get it k) = true ->
  f (assign_fields keys dest it) = f dest.
Proof.
  intros Hf Hblank. revert dest.
  induction keys as [| key rest IH]; intros dest; cbn; [reflexivity |].
  destruct (blank (get it key)) eqn:Hb; [apply IH |].
  destruct (setattr dest key (get it key)) as [dest' | e] eqn:Hs; [| apply IH].
  rewrite IH. apply (setattr_other _ _ _ _ _ _ Hs Hf).
  intros ->. congruence.
Qed.

Lemma assign_fields_notin keys dest it k f :
  field k = Some f -> k ∉ keys ->
  f (assign_fields keys dest it) = f dest.
Proof.
  intros Hf. revert dest.
  induction keys as [| key rest IH]; intros dest Hnotin; cbn; [reflexivity |].
  apply not_elem_of_cons in Hnotin as (Hne & Hnotin).
  destruct (blank (get it key)); [apply IH; exact Hnotin |].
  destruct (setattr dest key (get it key)) as [dest' | e] eqn:Hs; [| apply IH; exact Hnotin].
  rewrite (IH _ Hnotin). apply (setattr_other _ _ _ _ _ _ Hs Hf). congruence.
Qed.

Lemma assign_fields_timestamps keys dest it :
  created_at (assign_fields keys dest it) = created_at dest
  /\ updated_at (assign_fields keys dest it) = updated_at dest.
Proof.
  revert dest. induction keys as [| key rest IH]; intros dest; cbn; [split; reflexivity |].
  destruct (blank (get it key)); [apply IH |].
  destruct (setattr dest key (get it key)) as [dest' | e] eqn:Hs; [| apply IH].
  destruct (IH dest') as (Hc & Hu). destruct (setattr_timestamps _ _ _ _ Hs) as (Hc' & Hu').
  split; congruence.
Qed.

Lemma assign_fields_set keys dest it k f :
  field k = Some f -> blank (get it k) = false ->
  k ∈ keys \/ f dest = get it k ->
  f (assign_fields keys dest it) = get it k.
Proof.
  intros Hf Hnb. revert dest.
  induction keys as [| key rest IH]; intros dest Hin; cbn.
  - destruct Hin as [Hin | Heq]; [inversion Hin | exact Heq].
  - destruct (blank (get it key)) eqn:Hb.
    + apply IH. destruct Hin as [Hin | Heq]; [| right; exact Heq].
      apply elem_of_cons in Hin as [-> | Hin]; [congruence | left; exact Hin].
    + destruct (decide (key = k)) as [-> | Hne].
      * destruct (setattr_field dest k (get it k) f Hf) as [d1 Hs]. rewrite Hs.
        apply IH. right. apply (setattr_same _ _ _ _ _ Hs Hf).
      * destruct (setattr dest key (get it key)) as [d1 | e] eqn:Hs.
        -- apply IH. destruct Hin as [Hin | Heq].
           ++ apply elem_of_cons in Hin as [-> | Hin]; [congruence | left; exact Hin].
           ++ right. rewrite (setattr_other _ _ _ _ _ _ Hs Hf Hne). exact Heq.
        -- apply IH. destruct Hin as [Hin | Heq]; [| right; exact Heq].
           apply elem_of_cons in Hin as [-> | Hin]; [congruence | left; exact Hin].
Qed.

(** The title after a merge is the one the title rule leaves: the loop
    over [merge_keys] never assigns it. *)
Lemma merge_title dest it :
  title (merge dest it) =
  if truthy (get it K.title) && negb (pyval_eqb (get it K.title) (PStr "N/A"))
     && (negb (truthy (title dest)) || pyval_eqb (title dest) (PStr "N/A"))
  then get it K.title else title dest.
Proof.
  unfold merge.
  rewrite (assign_fields_notin merge_keys _ it K.title title eq_refl)
    by (vm_compute; intros H; repeat (apply elem_of_cons in H as [H | H]; [discriminate |]); inversion H).
  destruct (_ && _ && _); reflexivity.
Qed.

(** Every other field that the loop names and the model declares takes
    the value of the candidate where it has one. *)
Lemma merge_field dest it k f :
  k ∈ merge_keys -> field k = Some f ->
  f (merge dest it) = if blank (get it k) then f dest else get it k.
Proof.
  intros Hin Hf. unfold merge.
  set (d1 := if _ && _ && _ then _ else dest).
  assert (f d1 = f dest) as Hd1.
  { subst d1. destruct (_ && _ && _); [| reflexivity]. cbn.
    destruct k; cbn in Hf; inversion Hf; subst; try reflexivity.
    exfalso. revert Hin. vm_compute. intros H.
    repeat (apply elem_of_cons in H as [H | H]; [discriminate |]). inversion H. }
  destruct (blank (get it k)) eqn:Hb.
  - rewrite (assign_fields_blank _ _ _ _ _ Hf Hb). exact Hd1.
  - apply (assign_fields_set _ _ _ _ _ Hf Hb). left. exact Hin.
Qed.

Lemma merge_url dest it : url (merge dest it) = url dest.
Proof.
  unfold merge.
  rewrite (assign_fields_notin merge_keys _ it K.url url eq_refl)
    by (vm_compute; intros H; repeat (apply elem_of_cons in H as [H | H]; [discriminate |]); inversion H).
  destruct (_ && _ && _); reflexivity.
Qed.

Lemma merge_timestamps dest it :
  created_at (merge dest it) = created_at dest
  /\ updated_at (merge dest it) = updated_at dest.
Proof.
  unfold merge. destruct (assign_fields_timestamps merge_keys
    (if truthy (get it K.title) && negb (pyval_eqb (get it K.title) (PStr "N/A"))
        && (negb (truthy (title dest)) || pyval_eqb (title dest) (PStr "N/A"))
     then match setattr dest K.title (get it K.title) with Ret e' => e' | Raise _ => dest end
     else dest) it) as (Hc & Hu).
  rewrite Hc, Hu. destruct (_ && _ && _); split; reflexivity.
Qed.

End VodafoneFacts.

(* ===================================================================== *)
(** * Merging a candidate onto a stored record *)
(* ===================================================================== *)

Module MergeFacts.
Import Models Db DbFacts Spec Samples.

(** C4.  Neither merge overwrites with a blank value: whenever the
    candidate holds None or the empty string under a key (or does not hold
    the key), the field of that name is after the merge what it was before.
    The key [location] is one instance; the statement covers every field of
    the record, and for [_update_job_fields] it holds even when the loop is
    stopped by an exception. *)
Theorem merge_keeps_field_on_blank
    (k : K.key) (f : Job -> pyval) (dest : Job) (src : Posting) :
  field k = Some f ->
  blank (get src k) = true ->
  f (fst (Save._update_job_fields dest src)) = f dest
  /\ f (Vodafone.merge dest src) = f dest.
Proof.
  intros Hf Hb. split.
  - exact (SaveFacts.update_fields_blank Save.updatable dest src k f Hf Hb).
  - destruct (decide (k = K.title)) as [-> | Hnt].
    + cbn in Hf. inversion Hf; subst f.
      rewrite VodafoneFacts.merge_title.
      rewrite blank_truthy in Hb. apply negb_true_iff in Hb. rewrite Hb. reflexivity.
    + destruct (decide (k ∈ Vodafone.merge_keys)) as [Hin | Hnotin].
      * rewrite (VodafoneFacts.merge_field dest src k f Hin Hf), Hb. reflexivity.
      * unfold Vodafone.merge.
        rewrite (VodafoneFacts.assign_fields_notin _ _ _ k f Hf Hnotin).
        destruct (_ && _ && _); [| reflexivity]. cbn.
        destruct k; cbn in Hf; inversion Hf; subst; try reflexivity; congruence.
Qed.

Lemma merge_keeps_field_on_blank_witness :
  location (fst (Save._update_job_fields cairo_job no_location)) = PStr "Cairo"
  /\ location (Vodafone.merge cairo_job no_location) = PStr "Cairo".
Proof.
  exact (merge_keeps_field_on_blank K.location location cairo_job no_location
           eq_refl eq_refl).
Defined.

(** C5, as the code has it.  No merge assigns a timestamp: after either
    merge [created_at] and [updated_at] are both what they were, and a new
    record takes both from the clock when it is constructed. *)
Theorem merge_keeps_timestamps (dest : Job) (src : Posting) (t1 t2 : Z) :
  created_at (fst (Save._update_job_fields dest src)) = created_at dest
  /\ updated_at (fst (Save._update_job_fields dest src)) = updated_at dest
  /\ created_at (Vodafone.merge dest src) = created_at dest
  /\ updated_at (Vodafone.merge dest src) = updated_at dest
  /\ created_at (Job_init t1 t2 src) = t1
  /\ updated_at (Job_init t1 t2 src) = t2.
Proof.
  destruct (SaveFacts.update_fields_timestamps Save.updatable dest src) as (H1 & H2).
  destruct (VodafoneFacts.merge_timestamps dest src) as (H3 & H4).
  repeat split; assumption.
Qed.

(** C10.  In the Vodafone path the title of a matched record is assigned
    exactly when the candidate title is non-empty and is not "N/A" and the
    title of the record is empty, None or "N/A"; a record whose title is
    neither keeps it whatever the candidate says.  Every other field named
    by the loop and declared by the model takes any non-blank value of the
    candidate. *)
Theorem vodafone_title_rule (dest : Job) (it : Posting) :
  let new_title := get it K.title in
  let usable := truthy new_title && negb (pyval_eqb new_title (PStr "N/A")) in
  let placeholder := negb (truthy (title dest)) || pyval_eqb (title dest) (PStr "N/A") in
  title (Vodafone.merge dest it) = (if usable && placeholder then new_title else title dest)
  /\ (truthy (title dest) = true -> title dest <> PStr "N/A" ->
      title (Vodafone.merge dest it) = title dest)
  /\ (forall k f, k ∈ Vodafone.merge_keys -> field k = Some f ->
      f (Vodafone.merge dest it) = if blank (get it k) then f dest else get it k).
Proof.
  intros new_title usable placeholder.
  split; [apply VodafoneFacts.merge_title | split].
  - intros Ht Hna. rewrite VodafoneFacts.merge_title. rewrite Ht.
    unfold pyval_eqb at 2. rewrite (bool_decide_eq_false_2 _ Hna).
    rewrite andb_false_r. reflexivity.
  - intros k f Hin Hf. exact (VodafoneFacts.merge_field dest it k f Hin Hf).
Qed.

Lemma vodafone_title_rule_witness :
  title (Vodafone.merge cairo_job senior_posting) = PStr "Data Analyst"
  /\ location (Vodafone.merge cairo_job senior_posting) = PStr "Giza".
Proof.
  destruct (vodafone_title_rule cairo_job senior_posting) as (_ & Hkeep & Hother).
  split.
  - apply Hkeep; [reflexivity | discriminate].
  - rewrite (Hother K.location location); [reflexivity | | reflexivity].
    apply elem_of_cons; right; apply elem_of_cons; left; reflexivity.
Defined.

End MergeFacts.

(* ===================================================================== *)
(** * Resolution of a candidate against the table *)
(* ===================================================================== *)

Module ResolveFacts.
Import Models Db DbFacts Spec Samples.

Lemma pyval_eqb_refl v : pyval_eqb v v = true.
Proof. unfold pyval_eqb. apply bool_decide_eq_true_2. reflexivity. Qed.

Lemma pyval_eqb_eq a b : pyval_eqb a b = true -> a = b.
Proof. unfold pyval_eqb. apply bool_decide_eq_true_1. Qed.

Lemma get_default_source raw k :
  k <> K.source -> get (Save.default_source raw) k = get raw k.
Proof.
  intros Hne. unfold Save.default_source.
  destruct (truthy (get raw K.source)); [reflexivity |].
  unfold get. rewrite lookup_insert_ne by congruence. reflexivity.
Qed.

Lemma truthy_default_source raw :
  truthy (get (Save.default_source raw) K.source) = true.
Proof.
  unfold Save.default_source.
  destruct (truthy (get raw K.source)) eqn:Ht; [exact Ht |].
  unfold get. rewrite lookup_insert_eq. reflexivity.
Qed.

Lemma has_identity_default_source raw :
  Save.has_identity (Save.default_source raw) = Save.has_identity raw.
Proof.
  unfold Save.has_identity.
  rewrite !get_default_source by discriminate. reflexivity.
Qed.

Lemma default_source_idemp raw :
  Save.default_source (Save.default_source raw) = Save.default_source raw.
Proof.
  unfold Save.default_source at 1. rewrite truthy_default_source. reflexivity.
Qed.

(** ** [_find_existing_job] *)

Lemma find_existing_job_Some s raw i o :
  Save._find_existing_job s raw = Some (i, o) ->
  exists r, rows s !! i = Some r /\ matches r raw = true
            /\ o = default r (objects s !! i).
Proof.
  unfold Save._find_existing_job, matches. intros H.
  destruct (truthy (get raw K.detail_url)) eqn:Hd.
  - destruct (first_where _ s) as [e |] eqn:H1 in H.
    + inversion H; subst e. destruct (first_where_Some _ _ _ _ H1) as (r & Hr & Hp & Ho & _).
      exists r. apply andb_true_iff in Hp as (Hp1 & Hp2).
      repeat split; [exact Hr | | exact Ho]. rewrite Hp2, Hp1. reflexivity.
    + destruct (truthy (get raw K.apply_url)) eqn:Ha.
      * destruct (first_where _ s) as [e |] eqn:H2 in H.
        -- inversion H; subst e. destruct (first_where_Some _ _ _ _ H2) as (r & Hr & Hp & Ho & _).
           exists r. apply andb_true_iff in Hp as (Hp1 & Hp2).
           repeat split; [exact Hr | | exact Ho]. rewrite Hp2, Hp1. cbn. rewrite orb_true_r. reflexivity.
        -- destruct (truthy (get raw K.url)) eqn:Hu; [| discriminate].
           destruct (first_where _ s) as [e |] eqn:H3 in H; [| discriminate].
           inversion H; subst e. destruct (first_where_Some _ _ _ _ H3) as (r & Hr & Hp & Ho & _).
           exists r. apply andb_true_iff in Hp as (Hp1 & Hp2).
           repeat split; [exact Hr | | exact Ho]. rewrite Hp2, Hp1. cbn. rewrite !orb_true_r. reflexivity.
      * destruct (truthy (get raw K.url)) eqn:Hu; [| discriminate].
        destruct (first_where _ s) as [e |] eqn:H3 in H; [| discriminate].
        inversion H; subst e. destruct (first_where_Some _ _ _ _ H3) as (r & Hr & Hp & Ho & _).
        exists r. apply andb_true_iff in Hp as (Hp1 & Hp2).
        repeat split; [exact Hr | | exact Ho]. rewrite Hp2, Hp1. cbn. rewrite !orb_true_r. reflexivity.
  - destruct (truthy (get raw K.apply_url)) eqn:Ha.
    + destruct (first_where _ s) as [e |] eqn:H2 in H.
      * inversion H; subst e. destruct (first_where_Some _ _ _ _ H2) as (r & Hr & Hp & Ho & _).
        exists r. apply andb_true_iff in Hp as (Hp1 & Hp2).
        repeat split; [exact Hr | | exact Ho]. rewrite Hp2, Hp1. reflexivity.
      * destruct (truthy (get raw K.url)) eqn:Hu; [| discriminate].
        destruct (first_where _ s) as [e |] eqn:H3 in H; [| discriminate].
        inversion H; subst e. destruct (first_where_Some _ _ _ _ H3) as (r & Hr & Hp & Ho & _).
        exists r. apply andb_true_iff in Hp as (Hp1 & Hp2).
        repeat split; [exact Hr | | exact Ho]. rewrite Hp2, Hp1. cbn. rewrite !orb_true_r. reflexivity.
    + destruct (truthy (get raw K.url)) eqn:Hu; [| discriminate].
      destruct (first_where _ s) as [e |] eqn:H3 in H; [| discriminate].
      inversion H; subst e. destruct (first_where_Some _ _ _ _ H3) as (r & Hr & Hp & Ho & _).
      exists r. apply andb_true_iff in Hp as (Hp1 & Hp2).
      repeat split; [exact Hr | | exact Ho]. rewrite Hp2, Hp1. reflexivity.
Qed.

Lemma find_existing_job_is_Some s raw r :
  r ∈ rows s -> matches r raw = true -> is_Some (Save._find_existing_job s raw).
Proof.
  unfold matches. intros Hr Hm. apply andb_true_iff in Hm as (Hsc & Hm).
  unfold Save._find_existing_job.
  destruct (truthy (get raw K.detail_url) && pyval_eqb (detail_url r) (get raw K.detail_url)) eqn:H1.
  - apply andb_true_iff in H1 as (Ht & He). rewrite Ht.
    destruct (first_where_is_Some
      (fun j => pyval_eqb (detail_url j) (get raw K.detail_url) && Save.scoped (get raw K.source) j)
      s r Hr) as [e He']; [rewrite He, Hsc; reflexivity |].
    rewrite He'. eexists; reflexivity.
  - match goal with |- is_Some (match ?x with _ => _ end) => destruct x as [e |] end;
      [eexists; reflexivity |].
    destruct (truthy (get raw K.apply_url) && pyval_eqb (apply_url r) (get raw K.apply_url)) eqn:H2.
    + apply andb_true_iff in H2 as (Ht & He). rewrite Ht.
      destruct (first_where_is_Some
        (fun j => pyval_eqb (apply_url j) (get raw K.apply_url) && Save.scoped (get raw K.source) j)
        s r Hr) as [e He']; [rewrite He, Hsc; reflexivity |].
      rewrite He'. eexists; reflexivity.
    + match goal with |- is_Some (match ?x with _ => _ end) => destruct x as [e |] end;
        [eexists; reflexivity |].
      cbn in Hm. apply andb_true_iff in Hm as (Ht & He). rewrite Ht.
      destruct (first_where_is_Some
        (fun j => pyval_eqb (url j) (get raw K.url) && Save.scoped (get raw K.source) j)
        s r Hr) as [e He']; [rewrite He, Hsc; reflexivity |].
      rewrite He'. eexists; reflexivity.
Qed.

(** The result depends on the table and on the objects, never on what is
    pending. *)
Lemma first_where_ext p s s' :
  rows s = rows s' -> objects s = objects s' -> first_where p s = first_where p s'.
Proof. intros Hr Ho. unfold first_where. rewrite Hr, Ho. reflexivity. Qed.

Lemma find_existing_job_ext s s' raw :
  rows s = rows s' -> objects s = objects s' ->
  Save._find_existing_job s raw = Save._find_existing_job s' raw.
Proof.
  intros Hr Ho. unfold Save._find_existing_job.
  rewrite !(first_where_ext _ s s' Hr Ho). reflexivity.
Qed.

Lemma find_existing_job_index s s' raw :
  rows s = rows s' ->
  fst <$> Save._find_existing_job s raw = fst <$> Save._find_existing_job s' raw.
Proof.
  intros Hr. unfold Save._find_existing_job.
  pose proof (fun p => first_where_index p s s' Hr) as E.
  destruct (truthy (get raw K.detail_url));
    destruct (truthy (get raw K.apply_url));
    destruct (truthy (get raw K.url));
    repeat match goal with
      | |- context [first_where ?p s] =>
          let H := fresh in
          pose proof (E p) as H;
          destruct (first_where p s) as [[? ?] |], (first_where p s') as [[? ?] |];
          cbn in H; try discriminate; try (inversion H; subst; clear H)
      end; try reflexivity.
Qed.

(** ** The lookups of the Vodafone path *)

Lemma find_existing_Some s it i o :
  Vodafone.find_existing s it = Some (i, o) ->
  exists r, rows s !! i = Some r /\ matches_v r it = true
            /\ o = default r (objects s !! i).
Proof.
  unfold Vodafone.find_existing, matches_v. fold (apply_key it). intros H.
  destruct (truthy (get it K.detail_url)) eqn:Hd.
  - destruct (first_where _ s) as [e |] eqn:H1 in H.
    + inversion H; subst e. destruct (first_where_Some _ _ _ _ H1) as (r & Hr & Hp & Ho & _).
      exists r. repeat split; [exact Hr | | exact Ho]. rewrite Hp. reflexivity.
    + destruct (truthy (apply_key it)) eqn:Ha.
      * destruct (first_where _ s) as [e |] eqn:H2 in H.
        -- inversion H; subst e. destruct (first_where_Some _ _ _ _ H2) as (r & Hr & Hp & Ho & _).
           exists r. repeat split; [exact Hr | | exact Ho]. rewrite Hp. cbn. rewrite orb_true_r. reflexivity.
        -- destruct (truthy (get it K.url)) eqn:Hu; [| discriminate].
           destruct (first_where _ s) as [e |] eqn:H3 in H; [| discriminate].
           inversion H; subst e. destruct (first_where_Some _ _ _ _ H3) as (r & Hr & Hp & Ho & _).
           exists r. repeat split; [exact Hr | | exact Ho]. rewrite Hp. cbn. rewrite !orb_true_r. reflexivity.
      * destruct (truthy (get it K.url)) eqn:Hu; [| discriminate].
        destruct (first_where _ s) as [e |] eqn:H3 in H; [| discriminate].
        inversion H; subst e. destruct (first_where_Some _ _ _ _ H3) as (r & Hr & Hp & Ho & _).
        exists r. repeat split; [exact Hr | | exact Ho]. rewrite Hp. cbn. rewrite !orb_true_r. reflexivity.
  - destruct (truthy (apply_key it)) eqn:Ha.
    + destruct (first_where _ s) as [e |] eqn:H2 in H.
      * inversion H; subst e. destruct (first_where_Some _ _ _ _ H2) as (r & Hr & Hp & Ho & _).
        exists r. repeat split; [exact Hr | | exact Ho]. rewrite Hp. reflexivity.
      * destruct (truthy (get it K.url)) eqn:Hu; [| discriminate].
        destruct (first_where _ s) as [e |] eqn:H3 in H; [| discriminate].
        inversion H; subst e. destruct (first_where_Some _ _ _ _ H3) as (r & Hr & Hp & Ho & _).
        exists r. repeat split; [exact Hr | | exact Ho]. rewrite Hp. cbn. rewrite !orb_true_r. reflexivity.
    + destruct (truthy (get it K.url)) eqn:Hu; [| discriminate].
      destruct (first_where _ s) as [e |] eqn:H3 in H; [| discriminate].
      inversion H; subst e. destruct (first_where_Some _ _ _ _ H3) as (r & Hr & Hp & Ho & _).
      exists r. repeat split; [exact Hr | | exact Ho]. rewrite Hp. reflexivity.
Qed.

Lemma find_existing_is_Some s it r :
  r ∈ rows s -> matches_v r it = true -> is_Some (Vodafone.find_existing s it).
Proof.
  unfold matches_v. intros Hr Hm.
  unfold Vodafone.find_existing. fold (apply_key it).
  destruct (truthy (get it K.detail_url) && pyval_eqb (detail_url r) (get it K.detail_url)) eqn:H1.
  - apply andb_true_iff in H1 as (Ht & He). rewrite Ht.
    destruct (first_where_is_Some
      (fun j => pyval_eqb (detail_url j) (get it K.detail_url)) s r Hr He) as [e He'].
    rewrite He'. eexists; reflexivity.
  - match goal with |- is_Some (match match ?x with _ => _ end with _ => _ end) =>
      destruct x as [e |] end; [eexists; reflexivity |].
    destruct (truthy (apply_key it) && pyval_eqb (apply_url r) (apply_key it)) eqn:H2.
    + apply andb_true_iff in H2 as (Ht & He). rewrite Ht.
      destruct (first_where_is_Some
        (fun j => pyval_eqb (apply_url j) (apply_key it)) s r Hr He) as [e He'].
      rewrite He'. eexists; reflexivity.
    + match goal with |- is_Some (match ?x with _ => _ end) => destruct x as [e |] end;
        [eexists; reflexivity |].
      cbn in Hm. apply andb_true_iff in Hm as (Ht & He). rewrite Ht.
      destruct (first_where_is_Some
        (fun j => pyval_eqb (url j) (get it K.url)) s r Hr He) as [e He'].
      rewrite He'. eexists; reflexivity.
Qed.

Lemma find_existing_index s s' it :
  rows s = rows s' ->
  fst <$> Vodafone.find_existing s it = fst <$> Vodafone.find_existing s' it.
Proof.
  intros Hr. unfold Vodafone.find_existing.
  pose proof (fun p => first_where_index p s s' Hr) as E.
  destruct (truthy (get it K.detail_url));
    destruct (truthy (por (get it K.apply_url) (get it K.url)));
    destruct (truthy (get it K.url));
    repeat match goal with
      | |- context [first_where ?p s] =>
          let H := fresh in
          pose proof (E p) as H;
          destruct (first_where p s) as [[? ?] |], (first_where p s') as [[? ?] |];
          cbn in H; try discriminate; try (inversion H; subst; clear H)
      end; try reflexivity.
Qed.

End ResolveFacts.

(* ===================================================================== *)
(** * Ingestion: skip, resolve, merge or insert *)
(* ===================================================================== *)

Module IngestionFacts.
Import Models Db DbFacts ResolveFacts Spec Samples.

(** A turn of [save_jobs] leaves the session and the count alone when the
    candidate has no identity field. *)
Lemma save_item_skips now raw s n :
  Save.has_identity raw = false -> Save.save_item now raw s n = Ret (s, n).
Proof.
  intros H. unfold Save.save_item. rewrite has_identity_default_source, H. reflexivity.
Qed.

Lemma find_existing_without_identity s it :
  Save.has_identity it = false -> Vodafone.find_existing s it = None.
Proof.
  unfold Save.has_identity. intros H.
  apply orb_false_iff in H as (H & Hu). apply orb_false_iff in H as (Hd & Ha).
  unfold Vodafone.find_existing, por. rewrite Hd, Ha, Hu. reflexivity.
Qed.

(** C3.  A candidate without any of the three identity fields is skipped
    by [save_jobs], which leaves the table as it was and counts nothing;
    the [save_jobs_bulk] of the Vodafone scraper has no such guard: it
    appends the candidate as a new row and counts it. *)
Theorem bulk_inserts_without_identity
    (now : nat -> Z) (it : Posting) (table : list Job) :
  Save.has_identity it = false ->
  Save.save_jobs_bulk now [it] table = (table, Ret 0)
  /\ Vodafone.save_jobs_bulk now [it] table
     = ((table ++ [Job_init (now 0) (now 1) (Vodafone._filter_job_dict it)])%list, 1).
Proof.
  intros H. split.
  - unfold Save.save_jobs_bulk, Save.save_jobs. cbn [Save.save_loop bind].
    rewrite (save_item_skips _ _ _ _ H). cbn. rewrite app_nil_r. reflexivity.
  - unfold Vodafone.save_jobs_bulk. cbn [fold_left fst snd].
    unfold Vodafone.save_item. rewrite (find_existing_without_identity _ _ H).
    reflexivity.
Qed.

Lemma bulk_inserts_without_identity_witness :
  Save.save_jobs_bulk clock [card_without_link] [] = ([], Ret 0)
  /\ Vodafone.save_jobs_bulk clock [card_without_link] []
     = ([mkJob (PStr "N/A") (PStr "Vodafone") (PStr "") PNone PNone PNone
               (PStr "Data Analysis") (PStr "vodafone")
               (PTime 63900000000000000) 63900000000000000 63900000000000001], 1).
Proof.
  destruct (bulk_inserts_without_identity clock card_without_link [] eq_refl)
    as (Hs & Hv).
  split; [exact Hs |]. rewrite Hv. vm_compute. reflexivity.
Defined.

(** Each further run appends the same card again. *)
Example bulk_duplicates_card_without_link :
  let t1 := fst (Vodafone.save_jobs_bulk clock [card_without_link] []) in
  let t2 := fst (Vodafone.save_jobs_bulk clock [card_without_link] t1) in
  length t1 = 1 /\ length t2 = 2.
Proof. vm_compute. split; reflexivity. Qed.

(** ** Resolution by [detail_url] *)

Lemma update_fields_Raise keys dest src d e :
  Save.update_fields keys dest src = (d, Raise e) ->
  exists k, k ∈ keys /\ field k = None /\ blank (get src k) = false.
Proof.
  revert dest. induction keys as [| key rest IH]; intros dest H; cbn in H; [discriminate |].
  destruct (blank (get src key)) eqn:Hb.
  - destruct (IH dest H) as (k & Hin & Hk). exists k. split; [right; exact Hin | exact Hk].
  - destruct (setattr dest key (get src key)) as [d1 | e1] eqn:Hs.
    + destruct (IH d1 H) as (k & Hin & Hk). exists k. split; [right; exact Hin | exact Hk].
    + exists key. split; [left |].
      split; [| exact Hb]. destruct key; cbn in Hs; try discriminate; reflexivity.
Qed.

Lemma update_job_fields_Raise dest src d e :
  Save._update_job_fields dest src = (d, Raise e) ->
  blank (get src K.description) = false.
Proof.
  intros H. destruct (update_fields_Raise _ _ _ _ _ H) as (k & Hin & Hf & Hb).
  unfold Save.updatable in Hin.
  repeat (apply elem_of_cons in Hin as [-> | Hin]; [try discriminate; try exact Hb |]).
  inversion Hin.
Qed.

(** A candidate that carries a detail_url resolves to the first stored
    record with that detail_url, whatever the apply_url of the record; in
    [save_jobs] the record must also have the source of the candidate (the
    default source when the candidate has none), records of other sources
    being passed over.  The turn of the loop then assigns to the object of
    that record and adds nothing to the session; in [save_jobs] it can
    instead stop, on a non-blank description. *)
Lemma resolution_prefers_detail_url :
  (forall (now : nat -> Z) (s : Session) (item : Posting) (r : Job) (n : nat),
      let raw := Save.default_source item in
      truthy (get item K.detail_url) = true ->
      r ∈ rows s ->
      detail_url r = get item K.detail_url ->
      source r = get raw K.source ->
      exists i r0,
        rows s !! i = Some r0
        /\ detail_url r0 = get item K.detail_url
        /\ source r0 = get raw K.source
        /\ (forall j y, j < i -> rows s !! j = Some y ->
              detail_url y = get item K.detail_url -> source y <> get raw K.source)
        /\ Save._find_existing_job s raw = Some (i, default r0 (objects s !! i))
        /\ match Save.save_item now item s n with
           | Ret (s', n') =>
               s' = store_object i
                      (fst (Save._update_job_fields (default r0 (objects s !! i)) raw)) s
               /\ n' = n + 1
           | Raise _ => blank (get item K.description) = false
           end)
  /\ (forall (now : nat -> Z) (s : Session) (it : Posting) (r : Job),
      truthy (get it K.detail_url) = true ->
      r ∈ rows s ->
      detail_url r = get it K.detail_url ->
      exists i r0,
        rows s !! i = Some r0
        /\ detail_url r0 = get it K.detail_url
        /\ (forall j y, j < i -> rows s !! j = Some y ->
              detail_url y <> get it K.detail_url)
        /\ Vodafone.find_existing s it = Some (i, default r0 (objects s !! i))
        /\ Vodafone.save_item now it s
           = store_object i (Vodafone.merge (default r0 (objects s !! i)) it) s).
Proof.
  split.
  - intros now s item r n raw Hd Hr Hdr Hsr.
    assert (get raw K.detail_url = get item K.detail_url) as Ed
      by (apply get_default_source; discriminate).
    pose proof (truthy_default_source item) as Hts. fold raw in Hts.
    set (p := fun j : Job => pyval_eqb (detail_url j) (get raw K.detail_url)
                             && Save.scoped (get raw K.source) j).
    assert (p r = true) as Hp.
    { unfold p, Save.scoped. rewrite Hts, Ed, Hdr, Hsr, !pyval_eqb_refl. reflexivity. }
    destruct (first_where_is_Some p s r Hr Hp) as [[i o] Hfw].
    destruct (first_where_Some p s i o Hfw) as (r0 & Hr0 & Hp0 & Ho & Hfirst).
    unfold p, Save.scoped in Hp0. rewrite Hts in Hp0.
    apply andb_true_iff in Hp0 as (E1 & E2).
    apply pyval_eqb_eq in E1, E2. rewrite Ed in E1.
    assert (Save._find_existing_job s raw = Some (i, o)) as Hfind.
    { unfold Save._find_existing_job. rewrite Ed, Hd. rewrite <- Ed. fold p. rewrite Hfw. reflexivity. }
    exists i, r0. subst o. repeat split; try assumption.
    + intros j y Hj Hy Hdy Hsy. pose proof (Hfirst j y Hj Hy) as Hpy.
      unfold p, Save.scoped in Hpy. rewrite Hts, Ed, Hdy, Hsy, !pyval_eqb_refl in Hpy.
      discriminate.
    + unfold Save.save_item. fold raw.
      assert (Save.has_identity raw = true) as Hid
        by (unfold Save.has_identity; rewrite Ed, Hd; reflexivity).
      rewrite Hid. cbn [negb]. rewrite Hfind.
      destruct (Save._update_job_fields (default r0 (objects s !! i)) raw)
        as [d' [[] | e]] eqn:Hu.
      * split; reflexivity.
      * apply update_job_fields_Raise in Hu. unfold raw in Hu.
        rewrite get_default_source in Hu by discriminate. exact Hu.
  - intros now s it r Hd Hr Hdr.
    set (p := fun j : Job => pyval_eqb (detail_url j) (get it K.detail_url)).
    assert (p r = true) as Hp by (unfold p; rewrite Hdr; apply pyval_eqb_refl).
    destruct (first_where_is_Some p s r Hr Hp) as [[i o] Hfw].
    destruct (first_where_Some p s i o Hfw) as (r0 & Hr0 & Hp0 & Ho & Hfirst).
    apply pyval_eqb_eq in Hp0.
    assert (Vodafone.find_existing s it = Some (i, o)) as Hfind.
    { unfold Vodafone.find_existing. rewrite Hd. fold p. rewrite Hfw. reflexivity. }
    exists i, r0. subst o. repeat split; try assumption.
    + intros j y Hj Hy Hdy. pose proof (Hfirst j y Hj Hy) as Hpy.
      unfold p in Hpy. rewrite Hdy, pyval_eqb_refl in Hpy. discriminate.
    + unfold Vodafone.save_item. rewrite Hfind. reflexivity.
Qed.

Example resolution_prefers_detail_url_stored :
  (exists o, Save._find_existing_job (open [stored_job1]) (Save.default_source job1_again)
             = Some (0, o))
  /\ (exists o, Vodafone.find_existing (open [stored_job1]) job1_again = Some (0, o)).
Proof.
  destruct resolution_prefers_detail_url as (Hs & Hv).
  assert (stored_job1 ∈ rows (open [stored_job1])) as Hin by (left).
  split.
  - destruct (Hs clock (open [stored_job1]) job1_again stored_job1 0
                eq_refl Hin eq_refl eq_refl)
      as (i & r0 & Hr0 & _ & _ & _ & Hfind & _).
    destruct i as [| i]; [| destruct i; discriminate Hr0].
    eexists. exact Hfind.
  - destruct (Hv clock (open [stored_job1]) job1_again stored_job1
                eq_refl Hin eq_refl)
      as (i & r0 & Hr0 & _ & _ & Hfind & _).
    destruct i as [| i]; [| destruct i; discriminate Hr0].
    eexists. exact Hfind.
Qed.

(** The lookups of [save_jobs] are scoped by source: a record with the
    detail_url of the candidate and another source is passed over, and the
    candidate is inserted as a second record. *)
Lemma detail_url_of_other_source_not_resolved :
  detail_url stored_job1 = get job1_other_source K.detail_url
  /\ Save._find_existing_job (open [stored_job1])
       (Save.default_source job1_other_source) = None
  /\ length (fst (Save.save_jobs_bulk clock [job1_other_source] [stored_job1])) = 2.
Proof. vm_compute. repeat split; reflexivity. Qed.

(** C5 as stated fails: the merge writes the new town into the record and
    leaves [updated_at] at the instant of creation, which is none of the
    instants the clock shows during the run. *)
Lemma updated_at_not_set_on_merge :
  let t1 := fst (Save.save_jobs_bulk clock [job1_again] [stored_job1]) in
  let t2 := fst (Vodafone.save_jobs_bulk clock [job1_again] [stored_job1]) in
  location <$> t1 !! 0 = Some (PStr "Giza")
  /\ updated_at <$> t1 !! 0 = Some 100%Z
  /\ location <$> t2 !! 0 = Some (PStr "Giza")
  /\ updated_at <$> t2 !! 0 = Some 100%Z
  /\ (forall k, clock k <> 100%Z).
Proof.
  split; [vm_compute; reflexivity |].
  split; [vm_compute; reflexivity |].
  split; [vm_compute; reflexivity |].
  split; [vm_compute; reflexivity |].
  intros k. unfold clock. lia.
Qed.

End IngestionFacts.

(* ===================================================================== *)
(** * Running ingestion twice *)
(* ===================================================================== *)

Module Idempotence.
Import Models Db DbFacts ResolveFacts IngestionFacts Spec Samples.

Lemma consistent_agree table items a b i :
  consistent table items = true -> a ∈ items -> b ∈ items ->
  resolve table a = Some i -> resolve table b = Some i -> agree a b = true.
Proof.
  intros Hc Ha Hb Hra Hrb. unfold consistent in Hc.
  rewrite forallb_forall in Hc. apply list_elem_of_In in Ha, Hb.
  specialize (Hc a Ha). rewrite forallb_forall in Hc. specialize (Hc b Hb).
  rewrite Hra, Hrb in Hc. cbn in Hc. rewrite Nat.eqb_refl in Hc. exact Hc.
Qed.

Lemma consistent_v_agree table items a b i :
  consistent_v table items = true -> a ∈ items -> b ∈ items ->
  resolve_v table a = Some i -> resolve_v table b = Some i -> agree_v a b = true.
Proof.
  intros Hc Ha Hb Hra Hrb. unfold consistent_v in Hc.
  rewrite forallb_forall in Hc. apply list_elem_of_In in Ha, Hb.
  specialize (Hc a Ha). rewrite forallb_forall in Hc. specialize (Hc b Hb).
  rewrite Hra, Hrb in Hc. cbn in Hc. rewrite Nat.eqb_refl in Hc. exact Hc.
Qed.

(** A field that answers the candidate [cv] still does after a candidate
    that agrees with it has been merged. *)
Lemma key_match_preserved (cv bv ov : pyval) :
  agree_on bv cv = true ->
  truthy cv && pyval_eqb ov cv = true ->
  truthy cv && pyval_eqb (if blank bv then ov else bv) cv = true.
Proof.
  intros Hag Hm. destruct (blank bv) eqn:Hb; [exact Hm |].
  rewrite blank_truthy in Hb. apply negb_false_iff in Hb.
  apply andb_true_iff in Hm as (Hc & _).
  unfold agree_on in Hag. rewrite Hb, Hc in Hag. cbn in Hag.
  rewrite Hc, Hag. reflexivity.
Qed.

Lemma orb3_mono (a b c a' b' c' : bool) :
  (a = true -> a' = true) -> (b = true -> b' = true) -> (c = true -> c' = true) ->
  a || b || c = true -> a' || b' || c' = true.
Proof. destruct a, b, c, a', b', c'; cbn; intuition congruence. Qed.

Lemma merge_preserves_matches (o o' : Job) (b c : Posting) :
  matches o c = true ->
  agree b c = true ->
  get b K.source = get c K.source ->
  truthy (get b K.source) = true ->
  Save._update_job_fields o b = (o', Ret tt) ->
  matches o' c = true.
Proof.
  intros Hm Hag Hsrc Hts Hu.
  assert (forall k f, k ∈ Save.updatable -> field k = Some f ->
            f o' = if blank (get b k) then f o else get b k) as Hfield
    by (intros k f; apply SaveFacts._update_job_fields_Ret; exact Hu).
  pose proof (Hfield K.source source ltac:(solve_elem) eq_refl) as Es.
  pose proof (Hfield K.detail_url detail_url ltac:(solve_elem) eq_refl) as Ed.
  pose proof (Hfield K.apply_url apply_url ltac:(solve_elem) eq_refl) as Ea.
  pose proof (Hfield K.url url ltac:(solve_elem) eq_refl) as Eu.
  rewrite blank_truthy, Hts in Es. cbn in Es.
  unfold agree in Hag. apply andb_true_iff in Hag as (Hag & Hagu).
  apply andb_true_iff in Hag as (Hagd & Haga).
  unfold matches in *. apply andb_true_iff in Hm as (_ & Hm).
  apply andb_true_iff. split.
  - unfold Save.scoped. rewrite <- Hsrc, Hts, Es. apply pyval_eqb_refl.
  - revert Hm. rewrite Ed, Ea, Eu.
    apply orb3_mono; apply key_match_preserved; assumption.
Qed.

Lemma matches_Job_init t1 t2 raw :
  Save.has_identity raw = true -> truthy (get raw K.source) = true ->
  matches (Job_init t1 t2 raw) raw = true.
Proof.
  intros Hid Hts. unfold matches, Save.scoped. rewrite Hts.
  assert (source (Job_init t1 t2 raw) = get raw K.source) as Es.
  { cbn. unfold get in *. destruct (raw !! K.source); [reflexivity | discriminate]. }
  rewrite Es, pyval_eqb_refl. cbn [andb].
  change (detail_url (Job_init t1 t2 raw)) with (get raw K.detail_url).
  change (apply_url (Job_init t1 t2 raw)) with (get raw K.apply_url).
  change (url (Job_init t1 t2 raw)) with (get raw K.url).
  rewrite !pyval_eqb_refl, !andb_true_r. exact Hid.
Qed.

(** ** One run of [save_jobs], seen from the table it starts from *)

Section SaveRun.

Variable now : nat -> Z.
Variable table : list Job.
Variable all : list Posting.
Hypothesis Hcons : consistent table all = true.

Local Abbreviation Inv := (Spec.Inv table all).

Lemma Inv_open : Inv (open table).
Proof.
  repeat split. intros c i _ Hr. unfold resolve in Hr.
  destruct (Save._find_existing_job (open table) (Save.default_source c))
    as [[i' o] |] eqn:Hf; [| discriminate].
  cbn in Hr. inversion Hr; subst i'.
  destruct (find_existing_job_Some _ _ _ _ Hf) as (r & Hrow & Hm & _).
  exists r. split; [exact Hrow | exact Hm].
Qed.

Lemma resolve_of_find s raw i dest :
  rows s = table ->
  Save._find_existing_job s (Save.default_source raw) = Some (i, dest) ->
  resolve table raw = Some i.
Proof.
  intros Hrows Hf. unfold resolve.
  rewrite <- (find_existing_job_index s (open table)) by exact Hrows.
  rewrite Hf. reflexivity.
Qed.

Lemma matches_source o c :
  truthy (get c K.source) = true -> matches o c = true ->
  source o = get c K.source.
Proof.
  intros Ht Hm. unfold matches, Save.scoped in Hm. rewrite Ht in Hm.
  apply andb_true_iff in Hm as (Hs & _). apply pyval_eqb_eq. exact Hs.
Qed.

Lemma agree_default_source a b :
  agree (Save.default_source a) (Save.default_source b) = agree a b.
Proof. unfold agree. rewrite !get_default_source by discriminate. reflexivity. Qed.

Lemma save_item_Inv b s n s' n' :
  b ∈ all -> Inv s ->
  Save.save_item now b s n = Ret (s', n') ->
  Inv s'
  /\ (forall j, j ∈ new s -> j ∈ new s')
  /\ (Save.has_identity b = true -> resolve table b = None ->
      exists j, j ∈ new s' /\ matches j (Save.default_source b) = true).
Proof.
  intros Hb (Hrows & Hlen & Hobj) H. unfold Save.save_item in H.
  rewrite has_identity_default_source in H.
  destruct (Save.has_identity b) eqn:Hid; cbn [negb] in H.
  2:{ inversion H; subst s' n'.
      split; [split; [exact Hrows | split; [exact Hlen | exact Hobj]] |].
      split; [intros j Hj; exact Hj | intros Hc; discriminate Hc]. }
  destruct (Save._find_existing_job s (Save.default_source b)) as [[i dest] |] eqn:Hf.
  - pose proof (resolve_of_find _ _ _ _ Hrows Hf) as Hres.
    destruct (Save._update_job_fields dest (Save.default_source b)) as [d' [[] | e]] eqn:Hu;
      [| discriminate].
    inversion H; subst s' n'; clear H.
    destruct (find_existing_job_Some _ _ _ _ Hf) as (r & Hrow & Hmr & Hdest).
    destruct (Hobj b i Hb Hres) as (o & Ho & Hmo).
    rewrite Ho in Hdest. cbn in Hdest. subst dest.
    assert (i < length (objects s)) as Hi by (eapply lookup_lt_Some; exact Ho).
    split; [| split].
    + split; [exact Hrows | split].
      * cbn. rewrite length_insert. exact Hlen.
      * intros c i' Hc Hrc. cbn.
        destruct (decide (i = i')) as [<- | Hne].
        -- exists d'. split; [apply list_lookup_insert_eq; exact Hi |].
           destruct (Hobj c i Hc Hrc) as (o2 & Ho2 & Hmo2).
           rewrite Ho in Ho2. inversion Ho2; subst o2.
           apply (merge_preserves_matches o d' (Save.default_source b)
                    (Save.default_source c)); try assumption.
           ++ rewrite agree_default_source.
              exact (consistent_agree table all b c i Hcons Hb Hc Hres Hrc).
           ++ rewrite <- (matches_source o _ (truthy_default_source b) Hmo).
              apply (matches_source o _ (truthy_default_source c) Hmo2).
           ++ apply truthy_default_source.
        -- rewrite list_lookup_insert_ne by exact Hne. apply (Hobj c i' Hc Hrc).
    + intros j Hj. exact Hj.
    + intros _ Hnone. rewrite Hnone in Hres. discriminate.
  - inversion H; subst s' n'; clear H.
    split; [| split].
    + split; [exact Hrows | split; [exact Hlen | exact Hobj]].
    + intros j Hj. cbn. apply elem_of_app. left. exact Hj.
    + intros _ _. eexists. split.
      * cbn. apply elem_of_app. right. left.
      * apply matches_Job_init;
          [rewrite has_identity_default_source; exact Hid | apply truthy_default_source].
Qed.

Lemma save_loop_Inv items :
  (forall b, b ∈ items -> b ∈ all) ->
  forall s n s' n',
    Inv s ->
    Save.save_loop now items s n = Ret (s', n') ->
    Inv s'
    /\ (forall j, j ∈ new s -> j ∈ new s')
    /\ (forall b, b ∈ items -> Save.has_identity b = true ->
          resolve table b = None ->
          exists j, j ∈ new s' /\ matches j (Save.default_source b) = true).
Proof.
  induction items as [| b rest IH]; intros Hsub s n s' n' HI H; cbn in H.
  - inversion H; subst. repeat split; try apply HI; try (intros; assumption).
    intros b Hb. inversion Hb.
  - destruct (Save.save_item now b s n) as [[s1 n1] |] eqn:Hstep; [| discriminate].
    cbn in H.
    destruct (save_item_Inv b s n s1 n1 (Hsub b ltac:(left)) HI Hstep)
      as (HI1 & Hnew1 & Hins1).
    destruct (IH (fun c Hc => Hsub c ltac:(right; exact Hc)) s1 n1 s' n' HI1 H)
      as (HI' & Hnew' & Hins').
    split; [exact HI' | split].
    + intros j Hj. apply Hnew', Hnew1, Hj.
    + intros c Hc Hid Hnone. apply elem_of_cons in Hc as [-> | Hc].
      * destruct (Hins1 Hid Hnone) as (j & Hj & Hm). exists j. split; [apply Hnew', Hj | exact Hm].
      * apply (Hins' c Hc Hid Hnone).
Qed.

(** After a run that completes, every candidate that has an identity field
    resolves in the table the run leaves. *)
Lemma resolvable_after_run s' n' :
  Save.save_loop now all (open table) 0 = Ret (s', n') ->
  forall c, c ∈ all -> Save.has_identity c = true ->
            is_Some (resolve (objects s' ++ new s') c).
Proof.
  intros H c Hc Hid.
  destruct (save_loop_Inv all (fun b Hb => Hb) _ _ _ _ Inv_open H)
    as ((_ & _ & Hobj) & _ & Hins).
  unfold resolve.
  destruct (resolve table c) as [i |] eqn:Hr.
  - destruct (Hobj c i Hc Hr) as (o & Ho & Hm).
    destruct (find_existing_job_is_Some (open (objects s' ++ new s'))
                (Save.default_source c) o) as [e He]; [| exact Hm |].
    + cbn. apply elem_of_app. left. eapply list_elem_of_lookup_2. exact Ho.
    + rewrite He. eexists; reflexivity.
  - destruct (Hins c Hc Hid Hr) as (j & Hj & Hm).
    destruct (find_existing_job_is_Some (open (objects s' ++ new s'))
                (Save.default_source c) j) as [e He]; [| exact Hm |].
    + cbn. apply elem_of_app. right. exact Hj.
    + rewrite He. eexists; reflexivity.
Qed.

End SaveRun.

(** A run in which every candidate with an identity field resolves adds no
    row. *)
Lemma save_loop_no_insert now t items :
  (forall c, c ∈ items -> Save.has_identity c = true -> is_Some (resolve t c)) ->
  forall s n s' n',
    rows s = t ->
    Save.save_loop now items s n = Ret (s', n') ->
    rows s' = t /\ new s' = new s /\ length (objects s') = length (objects s).
Proof.
  induction items as [| b rest IH]; intros Hres s n s' n' Hrows H; cbn in H.
  - inversion H; subst. repeat split.
  - destruct (Save.save_item now b s n) as [[s1 n1] |] eqn:Hstep; [| discriminate].
    cbn in H.
    assert (rows s1 = t /\ new s1 = new s /\ length (objects s1) = length (objects s))
      as (Hr1 & Hn1 & Hl1).
    { unfold Save.save_item in Hstep. rewrite has_identity_default_source in Hstep.
      destruct (Save.has_identity b) eqn:Hid; cbn [negb] in Hstep.
      2:{ inversion Hstep; subst. repeat split. }
      destruct (Save._find_existing_job s (Save.default_source b)) as [[i dest] |] eqn:Hf.
      - destruct (Save._update_job_fields dest (Save.default_source b)) as [d' [[] | e]];
          [| discriminate].
        inversion Hstep; subst. cbn. rewrite length_insert. repeat split.
      - exfalso. destruct (Hres b ltac:(left) Hid) as [i Hi]. unfold resolve in Hi.
        rewrite <- (find_existing_job_index s (open t)) in Hi by exact Hrows.
        rewrite Hf in Hi. discriminate. }
    destruct (IH (fun c Hc => Hres c ltac:(right; exact Hc)) s1 n1 s' n' Hr1 H)
      as (Hr' & Hn' & Hl').
    repeat split; congruence.
Qed.

(** Whether a run stops on an exception does not depend on the clock. *)
Lemma save_loop_clock now now' items :
  forall s s2 n n2,
    rows s = rows s2 -> objects s = objects s2 ->
    match Save.save_loop now items s n, Save.save_loop now' items s2 n2 with
    | Ret (a, _), Ret (b, _) => rows a = rows b /\ objects a = objects b
    | Raise _, Raise _ => True
    | _, _ => False
    end.
Proof.
  induction items as [| b rest IH]; intros s s2 n n2 Hr Ho; cbn.
  - split; assumption.
  - unfold Save.save_item.
    rewrite (find_existing_job_ext s s2 _ Hr Ho).
    destruct (negb (Save.has_identity (Save.default_source b))).
    + cbn. apply IH; assumption.
    + destruct (Save._find_existing_job s2 (Save.default_source b)) as [[i dest] |].
      * destruct (Save._update_job_fields dest (Save.default_source b)) as [d' [[] | e]].
        -- cbn. apply IH; cbn; congruence.
        -- cbn. exact I.
      * cbn. apply IH; cbn; congruence.
Qed.

Lemma save_jobs_bulk_loop now items table :
  items <> [] ->
  Save.save_jobs_bulk now items table =
  match Save.save_loop now items (open table) 0 with
  | Ret (s, n) => ((objects s ++ new s)%list, Ret n)
  | Raise e => (table, Raise e)
  end.
Proof.
  intros Hne. destruct items as [| b rest]; [congruence |].
  unfold Save.save_jobs_bulk, Save.save_jobs.
  destruct (Save.save_loop now (b :: rest) (open table) 0) as [[s n] | e];
    reflexivity.
Qed.

Lemma save_jobs_idempotent_count now now' table items :
  consistent table items = true ->
  let t1 := fst (Save.save_jobs_bulk now items table) in
  length (fst (Save.save_jobs_bulk now' items t1)) = length t1.
Proof.
  intros Hcons.
  destruct (decide (items = [])) as [-> | Hne]; [reflexivity |].
  cbv zeta. rewrite (save_jobs_bulk_loop now items table Hne).
  destruct (Save.save_loop now items (open table) 0) as [[s' n'] |] eqn:H1;
    cbn [fst]; rewrite (save_jobs_bulk_loop now' items _ Hne).
  - destruct (Save.save_loop now' items (open (objects s' ++ new s')) 0)
      as [[s'' n''] |] eqn:H2; cbn [fst]; [| reflexivity].
    destruct (save_loop_no_insert now' (objects s' ++ new s') items
                (resolvable_after_run now table items Hcons s' n' H1)
                (open (objects s' ++ new s')) 0 s'' n'' eq_refl H2)
      as (_ & Hnew & Hlen).
    cbn [new objects open] in Hnew, Hlen. rewrite Hnew, app_nil_r. exact Hlen.
  - pose proof (save_loop_clock now now' items (open table) (open table) 0 0
                  eq_refl eq_refl) as Hsim.
    rewrite H1 in Hsim.
    destruct (Save.save_loop now' items (open table) 0) as [[s'' n''] |];
      [destruct Hsim | reflexivity].
Qed.

(** ** One run of the Vodafone [save_jobs_bulk] *)

Lemma filter_job_dict_lookup it k :
  k ∈ Vodafone._job_model_keys -> Vodafone._filter_job_dict it !! k = it !! k.
Proof.
  intros Hk. unfold Vodafone._filter_job_dict.
  destruct (it !! k) as [v |] eqn:E.
  - apply map_lookup_filter_Some_2; [exact E | exact Hk].
  - apply map_lookup_filter_None_2. left. exact E.
Qed.

Lemma Job_init_filter t1 t2 it :
  Job_init t1 t2 (Vodafone._filter_job_dict it) = Job_init t1 t2 it.
Proof.
  unfold Job_init.
  rewrite !filter_job_dict_lookup by model_key. reflexivity.
Qed.

Lemma matches_v_Job_init t1 t2 it :
  Save.has_identity it = true ->
  matches_v (Job_init t1 t2 (Vodafone._filter_job_dict it)) it = true.
Proof.
  intros Hid. rewrite Job_init_filter. unfold matches_v.
  change (detail_url (Job_init t1 t2 it)) with (get it K.detail_url).
  change (apply_url (Job_init t1 t2 it)) with (get it K.apply_url).
  change (url (Job_init t1 t2 it)) with (get it K.url).
  unfold Save.has_identity in Hid. unfold apply_key, por.
  rewrite !pyval_eqb_refl, !andb_true_r.
  destruct (truthy (get it K.detail_url)); [reflexivity |].
  destruct (truthy (get it K.apply_url)) eqn:Ha.
  - rewrite Ha, pyval_eqb_refl. reflexivity.
  - cbn in Hid. rewrite Hid. cbn. apply orb_true_r.
Qed.

Lemma agree_on_apply b cv :
  agree_on (apply_key b) cv = true -> agree_on (get b K.apply_url) cv = true.
Proof.
  unfold apply_key, por, agree_on.
  destruct (truthy (get b K.apply_url)) eqn:Ha; [rewrite Ha; intros H; exact H |].
  intros _. reflexivity.
Qed.

Lemma merge_v_preserves_matches (o : Job) (b c : Posting) :
  matches_v o c = true -> agree_v b c = true ->
  matches_v (Vodafone.merge o b) c = true.
Proof.
  intros Hm Hag.
  pose proof (VodafoneFacts.merge_field o b K.detail_url detail_url
                ltac:(solve_elem) eq_refl) as Ed.
  pose proof (VodafoneFacts.merge_field o b K.apply_url apply_url
                ltac:(solve_elem) eq_refl) as Ea.
  pose proof (VodafoneFacts.merge_url o b) as Eu.
  unfold agree_v in Hag. apply andb_true_iff in Hag as (Hagd & Haga).
  apply agree_on_apply in Haga.
  unfold matches_v in *. revert Hm. rewrite Ed, Ea, Eu.
  apply orb3_mono; [apply key_match_preserved | apply key_match_preserved | ];
    try assumption.
  intros H; exact H.
Qed.

Section BulkRun.

Variable now : nat -> Z.
Variable table : list Job.
Variable all : list Posting.
Hypothesis Hcons : consistent_v table all = true.

Local Abbreviation Inv_v := (Spec.Inv_v table all).

Lemma Inv_v_open : Inv_v (open table).
Proof.
  repeat split. intros c i _ Hr. unfold resolve_v in Hr.
  destruct (Vodafone.find_existing (open table) c) as [[i' o] |] eqn:Hf; [| discriminate].
  cbn in Hr. inversion Hr; subst i'.
  destruct (find_existing_Some _ _ _ _ Hf) as (r & Hrow & Hm & _).
  exists r. split; [exact Hrow | exact Hm].
Qed.

Lemma save_item_Inv_v b s :
  b ∈ all -> Inv_v s ->
  Inv_v (Vodafone.save_item now b s)
  /\ (forall j, j ∈ new s -> j ∈ new (Vodafone.save_item now b s))
  /\ (Save.has_identity b = true -> resolve_v table b = None ->
      exists j, j ∈ new (Vodafone.save_item now b s) /\ matches_v j b = true).
Proof.
  intros Hb (Hrows & Hlen & Hobj). unfold Vodafone.save_item.
  destruct (Vodafone.find_existing s b) as [[i dest] |] eqn:Hf.
  - assert (resolve_v table b = Some i) as Hres.
    { unfold resolve_v. rewrite <- (find_existing_index s (open table)) by exact Hrows.
      rewrite Hf. reflexivity. }
    destruct (find_existing_Some _ _ _ _ Hf) as (r & Hrow & Hmr & Hdest).
    destruct (Hobj b i Hb Hres) as (o & Ho & Hmo).
    rewrite Ho in Hdest. cbn in Hdest. subst dest.
    assert (i < length (objects s)) as Hi by (eapply lookup_lt_Some; exact Ho).
    split; [| split].
    + split; [exact Hrows | split].
      * cbn [objects store_object]. rewrite length_insert. exact Hlen.
      * intros c i' Hc Hrc. cbn [objects store_object].
        destruct (decide (i = i')) as [<- | Hne].
        -- exists (Vodafone.merge o b).
           split; [apply list_lookup_insert_eq; exact Hi |].
           destruct (Hobj c i Hc Hrc) as (o2 & Ho2 & Hmo2).
           rewrite Ho in Ho2. inversion Ho2; subst o2.
           apply merge_v_preserves_matches; [exact Hmo2 |].
           exact (consistent_v_agree table all b c i Hcons Hb Hc Hres Hrc).
        -- rewrite list_lookup_insert_ne by exact Hne. apply (Hobj c i' Hc Hrc).
    + intros j Hj. exact Hj.
    + intros _ Hnone. rewrite Hnone in Hres. discriminate.
  - split; [| split].
    + split; [exact Hrows | split; [exact Hlen | exact Hobj]].
    + intros j Hj. cbn [new add]. apply elem_of_app. left. exact Hj.
    + intros Hid _. eexists. split.
      * cbn [new add]. apply elem_of_app. right. left.
      * apply matches_v_Job_init. exact Hid.
Qed.

Lemma bulk_loop_cons b rest s n :
  bulk_loop now (b :: rest) (s, n) = bulk_loop now rest (Vodafone.save_item now b s, n + 1).
Proof. reflexivity. Qed.

Lemma bulk_loop_Inv_v items :
  (forall b, b ∈ items -> b ∈ all) ->
  forall s n,
    Inv_v s ->
    Inv_v (fst (bulk_loop now items (s, n)))
    /\ (forall j, j ∈ new s -> j ∈ new (fst (bulk_loop now items (s, n))))
    /\ (forall b, b ∈ items -> Save.has_identity b = true ->
          resolve_v table b = None ->
          exists j, j ∈ new (fst (bulk_loop now items (s, n))) /\ matches_v j b = true).
Proof.
  induction items as [| b rest IH]; intros Hsub s n HI.
  - split; [exact HI | split; [intros j Hj; exact Hj |]].
    intros b Hb. inversion Hb.
  - rewrite bulk_loop_cons.
    destruct (save_item_Inv_v b s (Hsub b ltac:(left)) HI) as (HI1 & Hnew1 & Hins1).
    destruct (IH (fun c Hc => Hsub c ltac:(right; exact Hc))
                (Vodafone.save_item now b s) (n + 1) HI1) as (HI' & Hnew' & Hins').
    split; [exact HI' | split].
    + intros j Hj. apply Hnew', Hnew1, Hj.
    + intros c Hc Hid Hnone. apply elem_of_cons in Hc as [-> | Hc].
      * destruct (Hins1 Hid Hnone) as (j & Hj & Hm).
        exists j. split; [apply Hnew', Hj | exact Hm].
      * apply (Hins' c Hc Hid Hnone).
Qed.

Lemma resolvable_after_bulk :
  let s' := fst (bulk_loop now all (open table, 0)) in
  forall c, c ∈ all -> Save.has_identity c = true ->
            is_Some (resolve_v (objects s' ++ new s') c).
Proof.
  intros s' c Hc Hid.
  destruct (bulk_loop_Inv_v all (fun b Hb => Hb) (open table) 0 Inv_v_open)
    as ((_ & _ & Hobj) & _ & Hins).
  fold s' in Hobj, Hins. unfold resolve_v.
  destruct (resolve_v table c) as [i |] eqn:Hr.
  - destruct (Hobj c i Hc Hr) as (o & Ho & Hm).
    destruct (find_existing_is_Some (open (objects s' ++ new s')) c o) as [e He];
      [| exact Hm |].
    + cbn [rows open]. apply elem_of_app. left. eapply list_elem_of_lookup_2. exact Ho.
    + rewrite He. eexists; reflexivity.
  - destruct (Hins c Hc Hid Hr) as (j & Hj & Hm).
    destruct (find_existing_is_Some (open (objects s' ++ new s')) c j) as [e He];
      [| exact Hm |].
    + cbn [rows open]. apply elem_of_app. right. exact Hj.
    + rewrite He. eexists; reflexivity.
Qed.

End BulkRun.

Lemma bulk_loop_no_insert now t items :
  (forall c, c ∈ items -> is_Some (resolve_v t c)) ->
  forall s n,
    rows s = t ->
    rows (fst (bulk_loop now items (s, n))) = t
    /\ new (fst (bulk_loop now items (s, n))) = new s
    /\ length (objects (fst (bulk_loop now items (s, n)))) = length (objects s).
Proof.
  induction items as [| b rest IH]; intros Hres s n Hrows.
  - repeat split. exact Hrows.
  - rewrite bulk_loop_cons.
    assert (rows (Vodafone.save_item now b s) = t
            /\ new (Vodafone.save_item now b s) = new s
            /\ length (objects (Vodafone.save_item now b s)) = length (objects s))
      as (Hr1 & Hn1 & Hl1).
    { unfold Vodafone.save_item.
      destruct (Vodafone.find_existing s b) as [[i dest] |] eqn:Hf.
      - cbn [rows new objects store_object]. rewrite length_insert.
        repeat split. exact Hrows.
      - exfalso. destruct (Hres b ltac:(left)) as [i Hi]. unfold resolve_v in Hi.
        rewrite <- (find_existing_index s (open t)) in Hi by exact Hrows.
        rewrite Hf in Hi. discriminate. }
    destruct (IH (fun c Hc => Hres c ltac:(right; exact Hc))
                (Vodafone.save_item now b s) (n + 1) Hr1) as (Hr' & Hn' & Hl').
    split; [exact Hr' | split]; [rewrite Hn'; exact Hn1 | rewrite Hl'; exact Hl1].
Qed.

Lemma bulk_table now items table :
  fst (Vodafone.save_jobs_bulk now items table)
  = (objects (fst (bulk_loop now items (open table, 0)))
     ++ new (fst (bulk_loop now items (open table, 0))))%list.
Proof.
  unfold Vodafone.save_jobs_bulk, bulk_loop.
  destruct (fold_left _ items (open table, 0)) as [db saved]. reflexivity.
Qed.

Lemma bulk_idempotent_count now now' table items :
  consistent_v table items = true ->
  forallb Save.has_identity items = true ->
  let t1 := fst (Vodafone.save_jobs_bulk now items table) in
  length (fst (Vodafone.save_jobs_bulk now' items t1)) = length t1.
Proof.
  intros Hcons Hids. cbv zeta. rewrite (bulk_table now items table).
  set (s' := fst (bulk_loop now items (open table, 0))).
  rewrite (bulk_table now' items).
  assert (forall c, c ∈ items -> is_Some (resolve_v (objects s' ++ new s') c)) as Hres.
  { intros c Hc. apply (resolvable_after_bulk now table items Hcons c Hc).
    rewrite forallb_forall in Hids. apply Hids, list_elem_of_In, Hc. }
  destruct (bulk_loop_no_insert now' (objects s' ++ new s') items Hres
              (open (objects s' ++ new s')) 0 eq_refl) as (_ & Hnew & Hlen).
  cbn [new objects open] in Hnew, Hlen. rewrite Hnew, app_nil_r. exact Hlen.
Qed.

End Idempotence.

(* ===================================================================== *)
(** * Idempotence of ingestion on the record count *)
(* ===================================================================== *)

Module IdempotenceFacts.
Import Models Db ResolveFacts IngestionFacts Idempotence Spec Samples.

(** C1, as the code has it.  Let the candidates of the list be consistent
    with the table: any two that resolve to the same stored record agree on
    each identity field both carry.  Then a second run of [save_jobs] on
    the same list leaves as many records as the first run left, whatever
    the clock shows and whether or not a run stops on an exception.  The
    same holds for the Vodafone [save_jobs_bulk] when, moreover, every
    candidate carries an identity field. *)
Theorem ingestion_idempotent_count :
  (forall (now now' : nat -> Z) (table : list Job) (items : list Posting),
      consistent table items = true ->
      let t1 := fst (Save.save_jobs_bulk now items table) in
      length (fst (Save.save_jobs_bulk now' items t1)) = length t1)
  /\ (forall (now now' : nat -> Z) (table : list Job) (items : list Posting),
      consistent_v table items = true ->
      forallb Save.has_identity items = true ->
      let t1 := fst (Vodafone.save_jobs_bulk now items table) in
      length (fst (Vodafone.save_jobs_bulk now' items t1)) = length t1).
Proof.
  split.
  - exact save_jobs_idempotent_count.
  - exact bulk_idempotent_count.
Qed.

Lemma ingestion_idempotent_count_witness :
  let t1 := fst (Save.save_jobs_bulk clock page [stored_job1]) in
  let v1 := fst (Vodafone.save_jobs_bulk clock page [stored_job1]) in
  (length t1 = 2 /\ length (fst (Save.save_jobs_bulk later page t1)) = 2)
  /\ (length v1 = 2 /\ length (fst (Vodafone.save_jobs_bulk later page v1)) = 2).
Proof.
  destruct ingestion_idempotent_count as (Hs & Hv).
  assert (consistent [stored_job1] page = true) as Hc by (vm_compute; reflexivity).
  assert (consistent_v [stored_job1] page = true) as Hcv by (vm_compute; reflexivity).
  assert (forallb Save.has_identity page = true) as Hid by (vm_compute; reflexivity).
  pose proof (Hs clock later [stored_job1] page Hc) as H1.
  pose proof (Hv clock later [stored_job1] page Hcv Hid) as H2.
  cbv zeta in H1, H2 |- *.
  assert (length (fst (Save.save_jobs_bulk clock page [stored_job1])) = 2) as L1
    by (vm_compute; reflexivity).
  assert (length (fst (Vodafone.save_jobs_bulk clock page [stored_job1])) = 2) as L2
    by (vm_compute; reflexivity).
  rewrite L1 in H1. rewrite L2 in H2.
  split; split; assumption.
Defined.

(** C1 as stated fails, in both paths.  Both candidates resolve to the one
    stored record, the first by its apply_url and the second by its
    detail_url, and the second replaces the apply_url.  The first run
    leaves one record; in the second run the first candidate resolves to
    nothing and is inserted, which leaves two. *)
Lemma second_run_inserts :
  let t1 := fst (Save.save_jobs_bulk clock conflicting [stored_job1]) in
  let t2 := fst (Save.save_jobs_bulk later conflicting t1) in
  let v1 := fst (Vodafone.save_jobs_bulk clock conflicting [stored_job1]) in
  let v2 := fst (Vodafone.save_jobs_bulk later conflicting v1) in
  length t1 = 1 /\ length t2 = 2 /\ length v1 = 1 /\ length v2 = 2.
Proof. vm_compute. split; [| split; [| split]]; reflexivity. Qed.

End IdempotenceFacts.

(* ===================================================================== *)
(** * Text: characters, [strip] and [lower] *)
(* ===================================================================== *)

Module TextFacts.
Import Vodafone Views UrlFacts.

Lemma chars_cut s : cut (chars s).
Proof.
  unfold cut. induction s as [| b r [IH1 IH2]]; [split; constructor |].
  cbn [chars]. destruct (chars r) as [| c cs] eqn:E.
  - split; [repeat constructor | constructor].
  - destruct (starts_with_cont c) eqn:Hc.
    + split.
      * inversion IH1; subst. constructor; [| assumption].
        destruct c as [| x t]; [discriminate |]. cbn in Hc. cbn.
        rewrite Hc. assumption.
      * exact IH2.
    + split.
      * constructor; [reflexivity | exact IH1].
      * cbn. constructor; [exact Hc | exact IH2].
Qed.

Lemma chars_cont_app t rest l :
  all_bytes is_cont t = true -> t <> "" ->
  chars rest = l -> Forall (fun c => starts_with_cont c = false) l ->
  chars (t ++ rest) = t :: l.
Proof.
  intros Ht Hne Hrest Hl. induction t as [| x t IH]; [congruence |].
  cbn in Ht. apply andb_true_iff in Ht as (Hx & Ht).
  change (String x t ++ rest) with (String x (t ++ rest)). cbn [chars].
  destruct t as [| y t'].
  - change ("" ++ rest) with rest. rewrite Hrest. destruct l as [| c cs]; [reflexivity |].
    inversion Hl; subst. rewrite H1. reflexivity.
  - rewrite (IH Ht) by discriminate. cbn in Ht.
    apply andb_true_iff in Ht as (Hy & _). cbn. rewrite Hy. reflexivity.
Qed.

Lemma chars_join l : cut l -> chars (join l) = l.
Proof.
  intros [Hc Hl]. induction l as [| c l IH]; [reflexivity |].
  inversion Hc as [| ? ? Hchunk Hc']; subst. cbn in Hl.
  assert (chars (join l) = l) as IHl.
  { apply IH; [exact Hc' |]. destruct l; [constructor |]. inversion Hl; assumption. }
  destruct c as [| b t]; [destruct Hchunk |]. cbn in Hchunk.
  change (join (String b t :: l)) with (String b (t ++ join l)). cbn [chars].
  destruct t as [| y t'].
  - change ("" ++ join l) with (join l). rewrite IHl. destruct l as [| c cs]; [reflexivity |].
    inversion Hl; subst. rewrite H1. reflexivity.
  - rewrite (chars_cont_app _ _ l Hchunk) by (try discriminate; assumption).
    cbn in Hchunk. apply andb_true_iff in Hchunk as (Hy & _). cbn. rewrite Hy.
    reflexivity.
Qed.

Lemma cut_suffix a l : cut (a ++ l)%list -> cut l.
Proof.
  intros [Hc Hl]. induction a as [| x a IH]; [split; assumption |].
  apply IH.
  - inversion Hc; assumption.
  - cbn in Hl. destruct (a ++ l)%list; [constructor |]. inversion Hl; assumption.
Qed.

Lemma cut_prefix l a : cut (l ++ a)%list -> cut l.
Proof.
  intros [Hc Hl]. split.
  - apply Forall_app in Hc. apply Hc.
  - destruct l as [| x l]; [constructor |]. cbn in *.
    apply Forall_app in Hl. apply Hl.
Qed.

Lemma drop_while_suffix {A} (p : A -> bool) l :
  exists a, l = (a ++ drop_while p l)%list.
Proof. exists (take_while p l). symmetry. apply take_drop_while. Qed.

Lemma drop_while_head {A} (p : A -> bool) l x r :
  drop_while p l = x :: r -> p x = false.
Proof.
  induction l as [| y l IH]; cbn; [discriminate |].
  destruct (p y) eqn:Hy; [exact IH |]. intros H; inversion H; subst. exact Hy.
Qed.

Lemma drop_while_fixed {A} (p : A -> bool) l :
  match l with x :: _ => p x = false | [] => True end -> drop_while p l = l.
Proof. destruct l as [| x l]; cbn; [reflexivity |]. intros ->. reflexivity. Qed.


Lemma drop_while_idem {A} (p : A -> bool) l :
  drop_while p (drop_while p l) = drop_while p l.
Proof.
  apply drop_while_fixed. destruct (drop_while p l) as [| x r] eqn:E; [exact I |].
  exact (drop_while_head p l x r E).
Qed.

(** What [strip] returns is a run of characters of the text that neither
    begins nor ends with white space. *)
Lemma strip_kept s :
  exists l, strip s = join l /\ cut l
            /\ drop_while isspace l = l /\ drop_while isspace (rev l) = rev l.
Proof.
  remember (drop_while isspace (chars s)) as l1 eqn:El1.
  remember (rev (drop_while isspace (rev l1))) as l eqn:El.
  exists l. split; [unfold strip; rewrite <- El1, <- El; reflexivity |].
  assert (cut l1) as Hl1.
  { destruct (drop_while_suffix isspace (chars s)) as [a Ha].
    apply (cut_suffix a). rewrite El1, <- Ha. apply chars_cut. }
  assert (l1 = (l ++ rev (take_while isspace (rev l1)))%list) as Hpre.
  { rewrite El, <- rev_app_distr, take_drop_while, rev_involutive. reflexivity. }
  split; [| split].
  - apply (cut_prefix l (rev (take_while isspace (rev l1)))). rewrite <- Hpre. exact Hl1.
  - apply drop_while_fixed. destruct l as [| x r]; [exact I |].
    apply (drop_while_head isspace (chars s) x
             (r ++ rev (take_while isspace (rev l1)))%list).
    rewrite <- El1. exact Hpre.
  - rewrite El, rev_involutive. apply drop_while_idem.
Qed.

Lemma strip_idem s : strip (strip s) = strip s.
Proof.
  destruct (strip_kept s) as (l & -> & Hcut & Hhead & Hlast).
  unfold strip. rewrite (chars_join l Hcut), Hhead, Hlast, rev_involutive.
  reflexivity.
Qed.

(** ** [lower] *)

Lemma lower_byte_cases b :
  ((byte_val b < 65 \/ 90 < byte_val b)%N /\ lower_byte b = b)
  \/ ((65 <= byte_val b <= 90)%N /\ byte_val (lower_byte b) = (byte_val b + 32)%N).
Proof.
  unfold lower_byte.
  destruct ((65 <=? byte_val b)%N && (byte_val b <=? 90)%N) eqn:E.
  - right. apply andb_true_iff in E as (E1 & E2).
    apply N.leb_le in E1, E2. split; [lia |].
    unfold byte_val at 1. apply N_ascii_embedding. lia.
  - left. split; [| reflexivity]. apply andb_false_iff in E as [E | E].
    + apply N.leb_gt in E. left. exact E.
    + apply N.leb_gt in E. right. exact E.
Qed.

Lemma lower_byte_sub b k :
  (128 <= k)%N -> (byte_val (lower_byte b) - k = byte_val b - k)%N.
Proof. intros Hk. destruct (lower_byte_cases b) as [[_ ->] | [Hb ->]]; lia. Qed.

Lemma is_cont_lower b : is_cont (lower_byte b) = is_cont b.
Proof.
  unfold is_cont. destruct (lower_byte_cases b) as [[_ ->] | [Hb ->]]; [reflexivity |].
  replace (128 <=? byte_val b + 32)%N with false by (symmetry; apply N.leb_gt; lia).
  replace (128 <=? byte_val b)%N with false by (symmetry; apply N.leb_gt; lia).
  reflexivity.
Qed.

Lemma lower_byte_idem b : lower_byte (lower_byte b) = lower_byte b.
Proof.
  destruct (lower_byte_cases b) as [[_ E] | [Hb E]].
  - rewrite E. exact E.
  - unfold lower_byte at 1. rewrite E.
    replace (byte_val b + 32 <=? 90)%N with false by (symmetry; apply N.leb_gt; lia).
    rewrite andb_false_r. reflexivity.
Qed.

Lemma lower_idem s : lower (lower s) = lower s.
Proof.
  induction s as [| b r IH]; [reflexivity |]. cbn. rewrite lower_byte_idem, IH.
  reflexivity.
Qed.

Lemma lower_app a b : lower (a ++ b) = lower a ++ lower b.
Proof.
  induction a as [| x a IH]; [reflexivity |].
  change (lower (String x (a ++ b)) = String (lower_byte x) (lower a ++ lower b)).
  cbn. rewrite IH. reflexivity.
Qed.

Lemma lower_join l : lower (join l) = join (List.map lower l).
Proof.
  induction l as [| c l IH]; [reflexivity |].
  change (lower (c ++ join l) = lower c ++ join (List.map lower l)).
  rewrite lower_app, IH. reflexivity.
Qed.

Lemma chars_lower s : chars (lower s) = List.map lower (chars s).
Proof.
  induction s as [| b r IH]; [reflexivity |]. cbn [lower chars]. rewrite IH.
  destruct (chars r) as [| c cs]; [reflexivity |]. cbn [List.map].
  assert (starts_with_cont (lower c) = starts_with_cont c) as ->.
  { destruct c as [| x t]; [reflexivity |]. cbn. apply is_cont_lower. }
  destruct (starts_with_cont c); reflexivity.
Qed.

Lemma isspace_letter n :
  (65 <= n <= 122)%N -> existsb (N.eqb n) whitespace = false.
Proof.
  intros Hn. unfold whitespace. cbn [existsb].
  repeat match goal with
    | |- context [N.eqb n ?k] =>
        replace (N.eqb n k) with false by (symmetry; apply N.eqb_neq; lia)
    end.
  reflexivity.
Qed.

Lemma isspace_lower c : isspace (lower c) = isspace c.
Proof.
  unfold isspace.
  destruct c as [| b1 [| b2 [| b3 [| b4 [| b5 t]]]]]; try reflexivity.
  - unfold codepoint. cbn [lower list_ascii_of_string List.map].
    destruct (lower_byte_cases b1) as [[_ ->] | [Hb ->]]; [reflexivity |].
    rewrite !isspace_letter by lia. reflexivity.
  - unfold codepoint. cbn [lower list_ascii_of_string List.map].
    rewrite !lower_byte_sub by lia. reflexivity.
  - unfold codepoint. cbn [lower list_ascii_of_string List.map].
    rewrite !lower_byte_sub by lia. reflexivity.
  - unfold codepoint. cbn [lower list_ascii_of_string List.map].
    rewrite !lower_byte_sub by lia. reflexivity.
Qed.

Lemma drop_while_map_lower l :
  drop_while isspace (List.map lower l) = List.map lower (drop_while isspace l).
Proof.
  induction l as [| c l IH]; [reflexivity |]. cbn [drop_while List.map].
  rewrite isspace_lower. destruct (isspace c); [exact IH | reflexivity].
Qed.

Lemma strip_lower s : strip (lower s) = lower (strip s).
Proof.
  unfold strip. rewrite chars_lower, drop_while_map_lower, <- map_rev,
    drop_while_map_lower, <- map_rev, lower_join. reflexivity.
Qed.

End TextFacts.


Module NamesFacts.
Import Normalize TextFacts.

Lemma mapping_values_fixed :
  map_Forall (fun _ c => norm_employment_type (Some c) = Some c) mapping.
Proof. refine (bool_decide_eq_true_1 _ _). vm_compute. reflexivity. Qed.

(** X1.  Normalising an employment type twice is normalising it once: a
    value [norm_employment_type] returns, other than the empty string, is
    returned unchanged when it is given back. *)
Theorem norm_employment_type_idempotent (v s : string) :
  norm_employment_type (Some v) = Some s -> s <> "" ->
  norm_employment_type (Some s) = Some s.
Proof.
  unfold norm_employment_type at 1.
  destruct (String.eqb v ""); [discriminate |].
  intros H Hne. injection H as Hs.
  destruct (mapping !! lower (strip v)) as [c |] eqn:Hm;
    cbn [from_option id] in Hs; subst s.
  - exact (mapping_values_fixed _ _ Hm).
  - unfold norm_employment_type.
    apply String.eqb_neq in Hne. rewrite Hne.
    rewrite strip_lower, strip_idem, lower_idem, Hm. reflexivity.
Qed.

Lemma norm_employment_type_idempotent_witness :
  norm_employment_type (Some "  Full-Time ") = Some "full_time"
  /\ norm_employment_type (Some "full_time") = Some "full_time".
Proof.
  assert (norm_employment_type (Some "  Full-Time ") = Some "full_time") as H
    by (vm_compute; reflexivity).
  split; [exact H |].
  apply (norm_employment_type_idempotent "  Full-Time " "full_time" H).
  discriminate.
Defined.

Lemma canonical_values_fixed :
  map_Forall (fun _ c => VodafoneSearch._canonicalize (Some c) = Some c)
             VodafoneSearch.CANONICAL_NAME
  /\ map_Forall (fun _ c => Jobs._canon (Some c) = Some c) Jobs._CANONICAL_NAME.
Proof.
  split; refine (bool_decide_eq_true_1 _ _); vm_compute; reflexivity.
Qed.

Lemma canonicalize_result_fixed (name c : string) :
  c <> "" -> VodafoneSearch._canonicalize (Some name) = Some c ->
  VodafoneSearch._canonicalize (Some c) = Some c.
Proof.
  intros Hne. apply String.eqb_neq in Hne.
  unfold VodafoneSearch._canonicalize at 1.
  destruct (String.eqb name ""); [discriminate |].
  intros H. injection H as Hc.
  destruct (VodafoneSearch.CANONICAL_NAME !! strip name) as [c' |] eqn:Hm;
    cbn [from_option id] in Hc; subst c.
  - exact (proj1 canonical_values_fixed _ _ Hm).
  - unfold VodafoneSearch._canonicalize. rewrite Hne.
    rewrite strip_idem, Hm. reflexivity.
Qed.

Lemma canon_result_fixed (name c : string) :
  c <> "" -> Jobs._canon (Some name) = Some c -> Jobs._canon (Some c) = Some c.
Proof.
  intros Hne. apply String.eqb_neq in Hne.
  unfold Jobs._canon at 1.
  destruct (String.eqb name ""); [discriminate |].
  intros H. injection H as Hc.
  destruct (Jobs._CANONICAL_NAME !! strip name) as [c' |] eqn:Hm;
    cbn [from_option id] in Hc; subst c.
  - exact (proj2 canonical_values_fixed _ _ Hm).
  - unfold Jobs._canon. rewrite Hne.
    rewrite strip_idem, Hm. reflexivity.
Qed.

(** X2.  Canonical profile names are fixed: whatever [_canonicalize] (the
    scraper) or [_canon] (the jobs router) returns for a name, apart from
    the empty string, it returns again when given that result. *)
Theorem canonical_name_fixed (name c : string) :
  c <> "" ->
  (VodafoneSearch._canonicalize (Some name) = Some c ->
   VodafoneSearch._canonicalize (Some c) = Some c)
  /\ (Jobs._canon (Some name) = Some c -> Jobs._canon (Some c) = Some c).
Proof.
  intros Hne. split.
  - exact (canonicalize_result_fixed name c Hne).
  - exact (canon_result_fixed name c Hne).
Qed.

Lemma canonical_name_fixed_witness :
  VodafoneSearch._canonicalize (Some "Data Analysis") = Some "Data Analysis"
  /\ Jobs._canon (Some "Data Analysis") = Some "Data Analysis".
Proof.
  assert ("Data Analysis" <> "") as Hne by discriminate.
  destruct (canonical_name_fixed " محلل بيانات " "Data Analysis" Hne) as (H1 & H2).
  split; [apply H1 | apply H2]; vm_compute; reflexivity.
Defined.

End NamesFacts.


(* ===================================================================== *)
(** * The two parsers of relative time *)
(* ===================================================================== *)

Module TimeFacts.
Import Mostaql Vodafone.

Lemma digit_value_range c v : digit_value c = Some v -> (0 <= v <= 9)%Z.
Proof.
  unfold digit_value.
  destruct (List.find _ decimal_zeros) as [z |] eqn:Hf; [| discriminate].
  intros H; inversion H; subst v. apply find_some in Hf as (_ & Hz).
  apply andb_true_iff in Hz as (H1 & H2).
  apply N.leb_le in H1. apply N.ltb_lt in H2. lia.
Qed.

Lemma digit_of_range c : (0 <= digit_of c <= 9)%Z.
Proof.
  unfold digit_of. destruct (digit_value c) as [v |] eqn:E; cbn [from_option id].
  - exact (digit_value_range c v E).
  - lia.
Qed.

Lemma int_of_digits_from ds a :
  (0 <= a)%Z ->
  (0 <= fold_left (fun acc c => 10 * acc + default 0 (digit_value c)) ds a)%Z.
Proof.
  revert a. induction ds as [| d ds IH]; intros a Ha; cbn [fold_left]; [exact Ha |].
  apply IH. pose proof (digit_of_range d) as Hd. unfold digit_of in Hd. lia.
Qed.

Lemma int_of_digits_nonneg ds : (0 <= int_of_digits ds)%Z.
Proof. apply int_of_digits_from. lia. Qed.

Lemma search_count_unit_nonneg units cs n :
  search_count_unit units cs = Some n -> (0 <= n)%Z.
Proof.
  induction cs as [| c cs IH]; cbn [search_count_unit].
  - unfold match_count_unit. cbn. discriminate.
  - destruct (match_count_unit units (c :: cs)) as [m |] eqn:Hm.
    + intros H; inversion H; subst m. unfold match_count_unit in Hm.
      destruct (take_while isdigit (c :: cs)) as [| d ds]; [discriminate |].
      destruct (existsb _ units); [| discriminate].
      inversion Hm. apply int_of_digits_nonneg.
    + exact IH.
Qed.

Lemma datetime_sub_cases now d :
  valid_datetime now -> (0 <= d)%Z ->
  match datetime_sub now d with
  | Ret r => valid_datetime r /\ (r <= now)%Z
  | Raise e => e = OverflowError
  end.
Proof.
  intros [H0 Hmax] Hd. unfold datetime_sub.
  destruct (now - d <? 0)%Z eqn:E; [reflexivity |].
  apply Z.ltb_ge in E. unfold valid_datetime. lia.
Qed.

Lemma units_positive :
  (0 < us_per_minute /\ 0 < us_per_hour /\ 0 < us_per_day)%Z.
Proof. vm_compute. repeat split. Qed.


(** ** [strptime] *)

Lemma ascii_digit_of lo hi c :
  ascii_between lo hi c = true -> (48 <= lo)%N -> (hi <= 57)%N ->
  digit_of c = (Z.of_N (codepoint c) - 48)%Z
  /\ (Z.of_N lo <= Z.of_N (codepoint c) <= Z.of_N hi)%Z.
Proof.
  unfold ascii_between. intros H Hlo Hhi. apply andb_true_iff in H as (H1 & H2).
  apply N.leb_le in H1, H2. split; [| lia].
  unfold digit_of, digit_value, decimal_zeros. cbn [List.find].
  assert (((48 <=? codepoint c) && (codepoint c <? 48 + 10))%N = true) as ->.
  { apply andb_true_iff. split; [apply N.leb_le | apply N.ltb_lt]; lia. }
  cbn [from_option id]. lia.
Qed.

Lemma eqb_digit a d n :
  String.eqb a d = true -> codepoint d = n -> Z.of_N (codepoint a) = Z.of_N n.
Proof. intros H <-. apply String.eqb_eq in H. subst. reflexivity. Qed.

Lemma parse_month_range cs m r :
  parse_month cs = Some (m, r) -> (1 <= m <= 12)%Z.
Proof.
  unfold parse_month. intros H.
  repeat match type of H with
    | context [match ?x with _ => _ end] =>
        lazymatch x with
        | context [match _ with _ => _ end] => fail
        | _ => destruct x eqn:?; try discriminate
        end
    end;
    inversion H; subst; clear H;
    repeat match goal with
      | E : _ && _ = true |- _ => apply andb_true_iff in E as (? & ?)
      | E : ascii_between _ _ _ = true |- _ =>
          apply ascii_digit_of in E as (? & ?); [| lia | lia]
      end; lia.
Qed.

Lemma parse_day_range cs d r :
  parse_day cs = Some (d, r) -> (1 <= d)%Z.
Proof.
  unfold parse_day. intros H.
  repeat match type of H with
    | context [match ?x with _ => _ end] =>
        lazymatch x with
        | context [match _ with _ => _ end] => fail
        | _ => destruct x eqn:?; try discriminate
        end
    end;
    inversion H; subst; clear H;
    repeat match goal with
      | E : _ && _ = true |- _ => apply andb_true_iff in E as (? & ?)
      | E : ascii_between _ _ _ = true |- _ =>
          apply ascii_digit_of in E as (? & ?); [| lia | lia]
      end;
    repeat match goal with
      | |- context [digit_of ?b] =>
          lazymatch goal with
          | _ : (0 <= digit_of b <= 9)%Z |- _ => fail
          | _ => pose proof (digit_of_range b)
          end
      end;
    lia.
Qed.

Lemma year_range y1 y2 y3 y4 : (0 <= int_of_digits [y1; y2; y3; y4] <= 9999)%Z.
Proof.
  unfold int_of_digits. cbn [fold_left].
  pose proof (digit_of_range y1). pose proof (digit_of_range y2).
  pose proof (digit_of_range y3). pose proof (digit_of_range y4).
  unfold digit_of in *. lia.
Qed.

Lemma days_of_year y m :
  (1 <= m <= 12)%Z ->
  (0 <= days_before_month y m
   /\ days_before_month y m + days_in_month y m <= if is_leap y then 366 else 365)%Z.
Proof.
  intros Hm.
  assert (m = 1 \/ m = 2 \/ m = 3 \/ m = 4 \/ m = 5 \/ m = 6 \/ m = 7 \/ m = 8
          \/ m = 9 \/ m = 10 \/ m = 11 \/ m = 12)%Z as Hcases by lia.
  repeat (destruct Hcases as [-> | Hcases]); [.. | subst m];
    unfold days_before_month, days_in_month;
    destruct (is_leap y); vm_compute; split; discriminate.
Qed.

Lemma ordinal_range y m d :
  (1 <= y <= 9999)%Z -> (1 <= m <= 12)%Z -> (1 <= d <= days_in_month y m)%Z ->
  (1 <= ordinal y m d <= max_ordinal)%Z.
Proof.
  intros Hy Hm Hd. destruct (days_of_year y m Hm) as (H0 & H1).
  unfold ordinal, max_ordinal. cbv zeta.
  assert (is_leap 9999%Z = false) as Hlast by reflexivity.
  destruct (Z.eq_dec y 9999%Z) as [-> | Hne].
  - rewrite Hlast in H1. change (9999 - 1)%Z with 9998%Z.
    change (9998 * 365 + 9998 / 4 - 9998 / 100 + 9998 / 400)%Z with 3651694%Z.
    lia.
  - assert (is_leap y = true \/ is_leap y = false) as [E | E]
      by (destruct (is_leap y); auto); rewrite E in H1;
      Z.div_mod_to_equations; lia.
Qed.

Lemma strptime_ymd_valid t r : strptime_ymd t = Some r -> valid_datetime r.
Proof.
  unfold strptime_ymd. intros H.
  repeat match type of H with
    | context [match ?x with _ => _ end] =>
        lazymatch x with
        | context [match _ with _ => _ end] => fail
        | _ => destruct x eqn:?; try discriminate
        end
    end.
  inversion H; subst r; clear H.
  match goal with
  | Em : parse_month _ = Some (?m, _), Ed : parse_day _ = Some (?d, _),
    Ec : (1 <=? int_of_digits [?y1; ?y2; ?y3; ?y4])%Z && _ = true |- _ =>
      apply andb_true_iff in Ec as (Ey & Edm); apply Z.leb_le in Ey, Edm;
      pose proof (year_range y1 y2 y3 y4) as Hy;
      pose proof (parse_month_range _ _ _ Em) as Hm;
      pose proof (parse_day_range _ _ _ Ed) as Hd;
      pose proof (ordinal_range (int_of_digits [y1; y2; y3; y4]) m d
                    ltac:(lia) Hm ltac:(lia)) as Ho
  end.
  destruct units_positive as (_ & _ & Hday).
  unfold valid_datetime. nia.
Qed.

(** X3.  The Arabic parser never answers an instant after the clock
    reading: for a clock within the range of [datetime] and a text of at
    most 4300 bytes (so that every run of digits in it is one [int]
    converts) it returns None exactly on an absent or empty text, and
    otherwise an instant of the range that is not later than the clock, or
    it raises OverflowError and nothing else. *)
Theorem parse_ar_posted_not_after_clock (now : Z) (text : option string) :
  valid_datetime now ->
  Domain.short text = true ->
  match parse_ar_posted now text with
  | Ret None => text = None \/ text = Some ""
  | Ret (Some t) =>
      valid_datetime t /\ (t <= now)%Z /\ text <> None /\ text <> Some ""
  | Raise e => e = OverflowError
  end.
Proof.
  intros Hnow _. destruct units_positive as (Hm & Hh & Hd).
  destruct text as [text |]; [| left; reflexivity].
  unfold parse_ar_posted. destruct (String.eqb_spec text "") as [-> | Hne].
  { right. reflexivity. }
  assert (forall d, (0 <= d)%Z ->
            match bind (datetime_sub now d) (fun r => Ret (Some r)) with
            | Ret None => Some text = None \/ Some text = Some ""
            | Ret (Some t) =>
                valid_datetime t /\ (t <= now)%Z /\ Some text <> None
                /\ Some text <> Some ""
            | Raise e => e = OverflowError
            end) as Hsub.
  { intros d Hd0. pose proof (datetime_sub_cases now d Hnow Hd0) as H.
    destruct (datetime_sub now d) as [r | e]; cbn [bind]; [| exact H].
    destruct H as (H1 & H2).
    split; [exact H1 | split; [exact H2 | split; [discriminate |]]].
    intros H; inversion H; contradiction. }
  destruct (search_count_unit ["دقيقة"; "دقائق"] _) as [n |] eqn:E1.
  { apply Hsub. apply search_count_unit_nonneg in E1. lia. }
  destruct (search_count_unit ["ساعة"; "ساعات"] _) as [n |] eqn:E2.
  { apply Hsub. apply search_count_unit_nonneg in E2. lia. }
  destruct (search_count_unit ["يوم"; "أيام"] _) as [n |] eqn:E3.
  { apply Hsub. apply search_count_unit_nonneg in E3. lia. }
  destruct (contains _ _).
  - apply Hsub. lia.
  - split; [exact Hnow | split; [lia | split; [discriminate |]]].
    intros H; inversion H; contradiction.
Qed.

Lemma parse_ar_posted_not_after_clock_witness :
  valid_datetime 63900000000000000
  /\ match parse_ar_posted 63900000000000000 (Some "منذ 3 ساعات") with
     | Ret None => False
     | Ret (Some t) => valid_datetime t /\ (t <= 63900000000000000)%Z
     | Raise e => e = OverflowError
     end.
Proof.
  assert (valid_datetime 63900000000000000) as Hnow
    by (unfold valid_datetime; vm_compute; split; [discriminate | reflexivity]).
  split; [exact Hnow |].
  pose proof (parse_ar_posted_not_after_clock 63900000000000000
                (Some "منذ 3 ساعات") Hnow eq_refl) as H.
  destruct (parse_ar_posted 63900000000000000 (Some "منذ 3 ساعات"))
    as [[t |] | e].
  - destruct H as (H1 & H2 & _). split; assumption.
  - destruct H as [H | H]; discriminate H.
  - exact H.
Defined.


(** X4.  The English parser is total and stays in range: for a clock
    within the range of [datetime] it returns an instant of the range,
    which is not later than the clock unless the text, trimmed and
    lower-cased, is a date in ISO form, in which case it is that date. *)
Theorem parse_posted_at_in_range (now : Z) (text : option string) :
  valid_datetime now ->
  let t := parse_posted_at now text in
  valid_datetime t
  /\ ((t <= now)%Z
      \/ exists s, text = Some s /\ strptime_ymd (lower (strip s)) = Some t).
Proof.
  intros Hnow. cbv zeta. destruct units_positive as (Hm & Hh & Hd).
  destruct text as [text |]; [| split; [exact Hnow | left; cbn; lia]].
  unfold parse_posted_at.
  destruct (String.eqb text ""); [split; [exact Hnow | left; lia] |].
  assert (forall d, (0 <= d)%Z ->
            let r := match datetime_sub now d with Ret r => r | Raise _ => now end in
            valid_datetime r /\ (r <= now)%Z) as Hsub.
  { intros d Hd0. pose proof (datetime_sub_cases now d Hnow Hd0) as H.
    destruct (datetime_sub now d) as [r | e]; cbv zeta; [exact H |].
    split; [exact Hnow | lia]. }
  assert (forall unit_, (0 < unit_)%Z ->
            let r := match first_digits (chars (lower (strip text))) with
                     | Some ds =>
                         match datetime_sub now (int_of_digits ds * unit_) with
                         | Ret r => r
                         | Raise _ => now
                         end
                     | None => now
                     end in
            valid_datetime r /\ (r <= now)%Z) as Hcount.
  { intros unit_ Hu. destruct (first_digits _) as [ds |]; cbv zeta.
    - apply Hsub. pose proof (int_of_digits_nonneg ds). nia.
    - split; [exact Hnow | lia]. }
  repeat match goal with
    | |- context [if contains ?a ?b then _ else _] =>
        destruct (contains a b);
        [first [ exact (conj (proj1 (Hsub us_per_day ltac:(lia)))
                             (or_introl (proj2 (Hsub us_per_day ltac:(lia)))))
               | exact (conj (proj1 (Hsub us_per_hour ltac:(lia)))
                             (or_introl (proj2 (Hsub us_per_hour ltac:(lia)))))
               | exact (conj (proj1 (Hsub us_per_minute ltac:(lia)))
                             (or_introl (proj2 (Hsub us_per_minute ltac:(lia)))))
               | exact (conj (proj1 (Hcount us_per_day Hd))
                             (or_introl (proj2 (Hcount us_per_day Hd))))
               | exact (conj (proj1 (Hcount us_per_hour Hh))
                             (or_introl (proj2 (Hcount us_per_hour Hh))))
               | exact (conj (proj1 (Hcount us_per_minute Hm))
                             (or_introl (proj2 (Hcount us_per_minute Hm)))) ] |]
    end.
  destruct (strptime_ymd (lower (strip text))) as [r |] eqn:E; cbn [from_option id].
  - split; [exact (strptime_ymd_valid _ _ E) |]. right. exists text. split; [reflexivity | exact E].
  - split; [exact Hnow | left; lia].
Qed.

Lemma parse_posted_at_in_range_witness :
  valid_datetime 63900000000000000
  /\ valid_datetime (parse_posted_at 63900000000000000 (Some "Posted 3 Days Ago"))
  /\ valid_datetime (parse_posted_at 63900000000000000 (Some "2999-01-01")).
Proof.
  assert (valid_datetime 63900000000000000) as Hnow
    by (unfold valid_datetime; vm_compute; split; [discriminate | reflexivity]).
  split; [exact Hnow | split].
  - exact (proj1 (parse_posted_at_in_range _ (Some "Posted 3 Days Ago") Hnow)).
  - exact (proj1 (parse_posted_at_in_range _ (Some "2999-01-01") Hnow)).
Defined.

(** Relative forms are read off the text; a date can lie after the clock. *)
Example parse_posted_at_examples :
  let now := 63900000000000000%Z in
  parse_posted_at now (Some "Posted 3 Days Ago") = (now - 3 * us_per_day)%Z
  /\ parse_posted_at now (Some "1 hour ago") = (now - us_per_hour)%Z
  /\ parse_posted_at now (Some "days ago") = now
  /\ parse_posted_at now (Some "99999999999 days ago") = now
  /\ parse_posted_at now (Some "Yesterday") = now
  /\ (now < parse_posted_at now (Some "2999-01-01"))%Z.
Proof. vm_compute. repeat split; reflexivity. Qed.

End TimeFacts.


(* ===================================================================== *)
(** * The classifier of mostaql.py *)
(* ===================================================================== *)

Module ClassifyFacts.
Import Mostaql Views.

Lemma active_spec (p : string) (active : list string) :
  bool_decide (p ∈ (list_to_set active : gset string)) = true -> p ∈ active.
Proof. intros H. apply bool_decide_eq_true_1 in H. apply elem_of_list_to_set in H. exact H. Qed.

Lemma classify_development (title : string) (active : list string) :
  _classify_profile title active "development" <> "Digital Marketing".
Proof.
  unfold _classify_profile. cbn [String.eqb Ascii.eqb Bool.eqb andb].
  repeat match goal with
    | |- context [if ?c then _ else _] => destruct c
    end; discriminate.
Qed.

(** X5.  The classifier answers one of the three profile names.  It
    answers Machine Learning only when exactly that name is among the
    active profiles, whereas the other two names are also its fallbacks;
    under the categories string "marketing" it always answers Digital
    Marketing, and under "development" never. *)
Theorem classify_profile_range
    (title : string) (active : list string) (categories : string) :
  let r := _classify_profile title active categories in
  r ∈ ["Digital Marketing"; "Machine Learning"; "Data Analysis"]
  /\ (r = "Machine Learning" -> "Machine Learning" ∈ active)
  /\ (categories = "marketing" -> r = "Digital Marketing")
  /\ (categories = "development" -> r <> "Digital Marketing").
Proof.
  cbv zeta. unfold _classify_profile.
  pose proof (active_spec "Machine Learning" active) as Hml.
  destruct (bool_decide ("Machine Learning" ∈ (list_to_set active : gset string))).
  - specialize (Hml eq_refl).
    destruct (String.eqb_spec categories "marketing") as [-> | Hm];
      [| destruct (String.eqb_spec categories "development") as [-> | Hd]];
      repeat match goal with
        | |- context [if ?c then _ else _] => destruct c
        end;
      (split; [solve_elem | split; [intros _; exact Hml | split; intros E; try congruence; discriminate]]).
  - clear Hml.
    destruct (String.eqb_spec categories "marketing") as [-> | Hm];
      [| destruct (String.eqb_spec categories "development") as [-> | Hd]];
      rewrite ?andb_false_r; cbn [andb negb];
      repeat match goal with
        | |- context [if ?c then _ else _] => destruct c
        end;
      (split; [solve_elem | split; [intros E; discriminate E | split; intros E; try congruence; discriminate]]).
Qed.

Lemma existsb_map_false {A B} (f : A -> B) (q : B -> bool) (l : list A) :
  (forall x, x ∈ l -> q (f x) = false) -> existsb q (List.map f l) = false.
Proof.
  induction l as [| x l IH]; intros H; [reflexivity |]. cbn.
  rewrite (H x) by left. apply IH. intros y Hy. apply H. right. exact Hy.
Qed.

Lemma existsb_map_true {A B} (f : A -> B) (q : B -> bool) (l : list A) x :
  x ∈ l -> q (f x) = true -> existsb q (List.map f l) = true.
Proof.
  intros Hx Hq. apply existsb_exists. exists (f x). split; [| exact Hq].
  apply in_map. apply list_elem_of_In. exact Hx.
Qed.

(** X6.  [scrape_mostaql_for_profiles] classifies with the categories it
    derives from the active profiles.  For profile names written in ASCII
    and Arabic letters: when no active profile mentions "data" or
    "machine" (the empty list included) every posting is classed Digital
    Marketing; when none mentions "marketing" and one mentions "data" or
    "machine", no posting is. *)
Theorem classify_for_profiles (title : string) (active : list string) :
  forallb Domain.plain active = true ->
  let r := _classify_profile title active (_profiles_to_categories active) in
  ((forall p, p ∈ active -> mentions "data" p = false /\ mentions "machine" p = false) ->
   r = "Digital Marketing")
  /\ ((forall p, p ∈ active -> mentions "marketing" p = false) ->
      (exists p, p ∈ active /\ mentions "data" p || mentions "machine" p = true) ->
      r <> "Digital Marketing").
Proof.
  intros _. cbv zeta. split.
  - intros Hnone.
    assert (_profiles_to_categories active = "marketing") as ->.
    { unfold _profiles_to_categories.
      rewrite (existsb_map_false (fun p => lower (strip p))
                 (fun x => contains "data" x || contains "machine" x) active).
      - rewrite andb_false_r. destruct (existsb _ _); reflexivity.
      - intros p Hp. destruct (Hnone p Hp) as (H1 & H2).
        unfold mentions in H1, H2. rewrite H1, H2. reflexivity. }
    reflexivity.
  - intros Hnm (p & Hp & Hdm).
    assert (_profiles_to_categories active = "development") as ->.
    { unfold _profiles_to_categories.
      rewrite (existsb_map_false (fun p => lower (strip p))
                 (fun x => contains "marketing" x) active)
        by (intros q Hq; exact (Hnm q Hq)).
      rewrite (existsb_map_true (fun p => lower (strip p))
                 (fun x => contains "data" x || contains "machine" x) active p Hp Hdm).
      reflexivity. }
    apply classify_development.
Qed.

Lemma classify_for_profiles_witness :
  _classify_profile "SEO expert" ["تسويق رقمي"]
    (_profiles_to_categories ["تسويق رقمي"]) = "Digital Marketing"
  /\ _classify_profile "SEO expert" ["Data Analysis"; "محلل بيانات"]
       (_profiles_to_categories ["Data Analysis"; "محلل بيانات"])
     <> "Digital Marketing".
Proof.
  split.
  - apply (classify_for_profiles "SEO expert" ["تسويق رقمي"] eq_refl).
    intros p Hp. apply list_elem_of_singleton in Hp as ->.
    split; vm_compute; reflexivity.
  - apply (classify_for_profiles "SEO expert" ["Data Analysis"; "محلل بيانات"]
             eq_refl).
    + intros p Hp.
      apply elem_of_cons in Hp as [-> | Hp]; [vm_compute; reflexivity |].
      apply list_elem_of_singleton in Hp as ->. vm_compute. reflexivity.
    + exists "Data Analysis". split; [left | vm_compute; reflexivity].
Defined.

End ClassifyFacts.


(* ===================================================================== *)
(** * A run of ingestion, seen from the table *)
(* ===================================================================== *)

Module RunFacts.
Import Models Db DbFacts SaveFacts VodafoneFacts ResolveFacts IngestionFacts
       Idempotence Spec Samples Views Cases.

(** ** [_update_job_fields] *)

Lemma update_fields_exn keys dest src d e :
  Save.update_fields keys dest src = (d, Raise e) -> e = ValueError.
Proof.
  revert dest. induction keys as [| key rest IH]; intros dest H; cbn in H; [discriminate |].
  destruct (blank (get src key)); [exact (IH dest H) |].
  destruct (setattr dest key (get src key)) as [d1 | e1] eqn:Hs; [exact (IH d1 H) |].
  inversion H; subst. destruct key; cbn in Hs; congruence.
Qed.

Lemma update_fields_app a b dest src :
  Save.update_fields (a ++ b) dest src =
  match Save.update_fields a dest src with
  | (d, Ret _) => Save.update_fields b d src
  | (d, Raise e) => (d, Raise e)
  end.
Proof.
  revert dest. induction a as [| key a IH]; intros dest; cbn; [reflexivity |].
  destruct (blank (get src key)); [apply IH |].
  destruct (setattr dest key (get src key)) as [d1 | e1]; [apply IH | reflexivity].
Qed.

Lemma update_fields_declared keys dest src :
  (forall k, k ∈ keys -> field k <> None \/ blank (get src k) = true) ->
  snd (Save.update_fields keys dest src) = Ret tt.
Proof.
  intros Hk. destruct (Save.update_fields keys dest src) as [d [[] | e]] eqn:H;
    [reflexivity |].
  destruct (update_fields_Raise _ _ _ _ _ H) as (k & Hin & Hf & Hb).
  destruct (Hk k Hin); congruence.
Qed.

Lemma update_fields_notin keys dest src k f :
  field k = Some f -> k ∉ keys ->
  f (fst (Save.update_fields keys dest src)) = f dest.
Proof.
  intros Hf. revert dest.
  induction keys as [| key rest IH]; intros dest Hnotin; cbn; [reflexivity |].
  apply not_elem_of_cons in Hnotin as (Hne & Hnotin).
  destruct (blank (get src key)); [apply IH; exact Hnotin |].
  destruct (setattr dest key (get src key)) as [dest' | e] eqn:Hs; [| reflexivity].
  rewrite (IH _ Hnotin). apply (setattr_other _ _ _ _ _ _ Hs Hf). congruence.
Qed.

Lemma update_blank_description dest src :
  blank (get src K.description) = true ->
  snd (Save._update_job_fields dest src) = Ret tt.
Proof.
  intros Hb. apply update_fields_declared. intros k Hin.
  unfold Save.updatable in Hin.
  repeat (apply elem_of_cons in Hin as [-> | Hin];
          [first [right; exact Hb | left; discriminate] |]).
  inversion Hin.
Qed.

Lemma update_description dest src :
  blank (get src K.description) = false ->
  Save._update_job_fields dest src
  = (fst (Save.update_fields [K.title; K.company; K.location] dest src),
     Raise ValueError).
Proof.
  intros Hb. unfold Save._update_job_fields, Save.updatable.
  change [K.title; K.company; K.location; K.description; K.detail_url;
          K.apply_url; K.url; K.source; K.category; K.posted_at]
    with ([K.title; K.company; K.location]
          ++ K.description :: [K.detail_url; K.apply_url; K.url; K.source;
                               K.category; K.posted_at])%list.
  rewrite update_fields_app.
  pose proof (update_fields_declared [K.title; K.company; K.location] dest src) as Hp.
  destruct (Save.update_fields [K.title; K.company; K.location] dest src)
    as [d [[] | e]] eqn:E.
  - cbn [Save.update_fields fst]. rewrite Hb. reflexivity.
  - exfalso. cbn [snd] in Hp. discriminate Hp.
    intros k Hin. left.
    repeat (apply elem_of_cons in Hin as [-> | Hin]; [discriminate |]).
    inversion Hin.
Qed.

(** X7.  [_update_job_fields] completes exactly when the candidate has no
    description.  When it completes, every field it names takes the value
    of the candidate where that value is not blank, the title and the
    legacy url included.  A description that is not blank makes it raise
    ValueError, the model having no such field; by then the title, the
    company and the location have been assigned and no other field has. *)
Theorem update_job_fields_outcome (dest : Job) (src : Posting) :
  let after := fst (Save._update_job_fields dest src) in
  (blank (get src K.description) = true ->
   snd (Save._update_job_fields dest src) = Ret tt
   /\ forall k f, k ∈ Save.updatable -> field k = Some f ->
        f after = if blank (get src k) then f dest else get src k)
  /\ (blank (get src K.description) = false ->
      snd (Save._update_job_fields dest src) = Raise ValueError
      /\ (forall k f, k ∈ [K.title; K.company; K.location] -> field k = Some f ->
            f after = if blank (get src k) then f dest else get src k)
      /\ (forall k f, k ∉ [K.title; K.company; K.location] -> field k = Some f ->
            f after = f dest)).
Proof.
  cbv zeta. split.
  - intros Hb. pose proof (update_blank_description dest src Hb) as Hr.
    split; [exact Hr |]. intros k f Hin Hf.
    apply (_update_job_fields_Ret dest src); [| exact Hin | exact Hf].
    destruct (Save._update_job_fields dest src) as [d o]. cbn in Hr |- *.
    rewrite Hr. reflexivity.
  - intros Hb. rewrite (update_description dest src Hb). cbn [fst snd].
    split; [reflexivity | split].
    + intros k f Hin Hf.
      destruct (blank (get src k)) eqn:Hk.
      * apply (update_fields_blank _ _ _ _ _ Hf Hk).
      * assert (snd (Save.update_fields [K.title; K.company; K.location] dest src) = Ret tt) as Hr.
        { apply update_fields_declared. intros k' Hin'. left.
          repeat (apply elem_of_cons in Hin' as [-> | Hin']; [discriminate |]).
          inversion Hin'. }
        destruct (Save.update_fields [K.title; K.company; K.location] dest src)
          as [d o] eqn:E. cbn [snd] in Hr. subst o. cbn [fst].
        apply (update_fields_set _ _ _ _ _ _ E Hf Hk). left. exact Hin.
    + intros k f Hnotin Hf. apply (update_fields_notin _ _ _ _ _ Hf Hnotin).
Qed.


(** ** A run of [save_jobs] that stops *)

Lemma find_existing_job_without_identity s raw :
  Save.has_identity raw = false -> Save._find_existing_job s raw = None.
Proof.
  unfold Save.has_identity. intros H.
  apply orb_false_iff in H as (H & Hu). apply orb_false_iff in H as (Hd & Ha).
  unfold Save._find_existing_job. rewrite Hd, Ha, Hu. reflexivity.
Qed.

Lemma resolve_has_identity table c i :
  resolve table c = Some i -> Save.has_identity c = true.
Proof.
  intros H. destruct (Save.has_identity c) eqn:E; [reflexivity |].
  unfold resolve in H.
  rewrite find_existing_job_without_identity in H; [discriminate |].
  rewrite has_identity_default_source. exact E.
Qed.

Lemma save_item_rows now b s n s' n' :
  Save.save_item now b s n = Ret (s', n') -> rows s' = rows s.
Proof.
  unfold Save.save_item.
  destruct (negb (Save.has_identity (Save.default_source b))).
  - intros H; inversion H; reflexivity.
  - destruct (Save._find_existing_job s (Save.default_source b)) as [[i dest] |].
    + destruct (Save._update_job_fields dest (Save.default_source b)) as [d [[] | e]];
        intros H; inversion H; reflexivity.
    + intros H; inversion H; reflexivity.
Qed.

Lemma save_item_exn now b s n e :
  Save.save_item now b s n = Raise e -> e = ValueError.
Proof.
  unfold Save.save_item.
  destruct (negb (Save.has_identity (Save.default_source b))); [discriminate |].
  destruct (Save._find_existing_job s (Save.default_source b)) as [[i dest] |];
    [| discriminate].
  destruct (Save._update_job_fields dest (Save.default_source b)) as [d [[] | e']] eqn:E;
    [discriminate |].
  intros H; inversion H; subst. exact (update_fields_exn _ _ _ _ _ E).
Qed.

Lemma save_item_described now table it i s n :
  rows s = table -> resolve table it = Some i ->
  blank (get it K.description) = false ->
  Save.save_item now it s n = Raise ValueError.
Proof.
  intros Hrows Hres Hb. unfold Save.save_item.
  rewrite has_identity_default_source, (resolve_has_identity _ _ _ Hres). cbn [negb].
  unfold resolve in Hres.
  rewrite <- (find_existing_job_index s (open table)) in Hres by exact Hrows.
  destruct (Save._find_existing_job s (Save.default_source it)) as [[i' dest] |];
    [| discriminate].
  rewrite update_description; [reflexivity |].
  rewrite get_default_source by discriminate. exact Hb.
Qed.

Lemma save_loop_described now table it i items :
  it ∈ items -> resolve table it = Some i ->
  blank (get it K.description) = false ->
  forall s n, rows s = table ->
    Save.save_loop now items s n = Raise ValueError.
Proof.
  intros Hin Hres Hb.
  induction items as [| b rest IH]; intros s n Hrows; [inversion Hin |].
  cbn [Save.save_loop].
  destruct (Save.save_item now b s n) as [[s1 n1] | e] eqn:Hstep.
  - cbn [bind fst snd]. apply elem_of_cons in Hin as [<- | Hin].
    + rewrite (save_item_described now table it i s n Hrows Hres Hb) in Hstep.
      discriminate.
    + apply (IH Hin). rewrite (save_item_rows _ _ _ _ _ _ Hstep). exact Hrows.
  - cbn [bind]. rewrite (save_item_exn _ _ _ _ _ Hstep). reflexivity.
Qed.

(** X8.  A run of [save_jobs] is all or nothing.  If the list holds one
    candidate that resolves to a stored record and carries a description
    that is not blank, the run raises ValueError and the table is left as
    it was: no candidate of the list is inserted or merged, those before
    the failing one included. *)
Theorem save_jobs_fails_on_description
    (now : nat -> Z) (table : list Job) (items : list Posting)
    (it : Posting) (i : nat) :
  it ∈ items ->
  resolve table it = Some i ->
  blank (get it K.description) = false ->
  Save.save_jobs_bulk now items table = (table, Raise ValueError).
Proof.
  intros Hin Hres Hb.
  assert (items <> []) as Hne by (intros ->; inversion Hin).
  rewrite (save_jobs_bulk_loop now items table Hne).
  rewrite (save_loop_described now table it i items Hin Hres Hb (open table) 0 eq_refl).
  reflexivity.
Qed.

Lemma save_jobs_fails_on_description_witness :
  Save.save_jobs_bulk clock [job2_posting; job1_described] [stored_job1]
  = ([stored_job1], Raise ValueError).
Proof.
  apply (save_jobs_fails_on_description clock [stored_job1]
           [job2_posting; job1_described] job1_described 0).
  - right. left.
  - vm_compute. reflexivity.
  - vm_compute. reflexivity.
Defined.

(** ** A run of [save_jobs] that completes *)

Lemma save_item_effect now table b s n s' n' :
  rows s = table ->
  Save.save_item now b s n = Ret (s', n') ->
  rows s' = table
  /\ length (objects s') = length (objects s)
  /\ n' = n + (if Save.has_identity b then 1 else 0)
  /\ length (new s') = length (new s)
                       + (if Save.has_identity b && unresolved table b then 1 else 0)
  /\ (forall i, resolve table b <> Some i -> objects s' !! i = objects s !! i).
Proof.
  intros Hrows H. pose proof (save_item_rows _ _ _ _ _ _ H) as Hr.
  unfold Save.save_item in H. rewrite has_identity_default_source in H.
  unfold unresolved.
  destruct (Save.has_identity b) eqn:Hid; cbn [negb andb] in H |- *.
  2:{ inversion H; subst.
      split; [reflexivity | split; [reflexivity | split; [lia | split; [lia |]]]].
      intros i _. reflexivity. }
  destruct (Save._find_existing_job s (Save.default_source b)) as [[i dest] |] eqn:Hf.
  - assert (resolve table b = Some i) as Hres.
    { unfold resolve. rewrite <- (find_existing_job_index s (open table)) by exact Hrows.
      rewrite Hf. reflexivity. }
    destruct (Save._update_job_fields dest (Save.default_source b)) as [d [[] | e]];
      [| discriminate].
    inversion H; subst s' n'; clear H. rewrite Hres.
    rewrite bool_decide_eq_false_2 by discriminate.
    cbn [rows objects new store_object]. rewrite length_insert.
    split; [exact Hrows | split; [reflexivity | split; [reflexivity | split; [lia |]]]].
    intros i' Hne. apply list_lookup_insert_ne. congruence.
  - assert (resolve table b = None) as Hres.
    { unfold resolve. rewrite <- (find_existing_job_index s (open table)) by exact Hrows.
      rewrite Hf. reflexivity. }
    inversion H; subst s' n'; clear H. rewrite Hres.
    rewrite bool_decide_eq_true_2 by reflexivity.
    cbn [rows objects new add]. rewrite length_app. cbn [length].
    split; [exact Hrows | split; [reflexivity | split; [reflexivity | split; [lia |]]]].
    intros i' _. reflexivity.
Qed.

Lemma save_loop_effect now table items :
  forall s n s' n',
    rows s = table ->
    Save.save_loop now items s n = Ret (s', n') ->
    rows s' = table
    /\ length (objects s') = length (objects s)
    /\ n' = n + length (List.filter Save.has_identity items)
    /\ length (new s') = length (new s)
         + length (List.filter (fun c => Save.has_identity c && unresolved table c) items)
    /\ (forall i, (forall c, c ∈ items -> resolve table c <> Some i) ->
                  objects s' !! i = objects s !! i).
Proof.
  induction items as [| b rest IH]; intros s n s' n' Hrows H; cbn [Save.save_loop] in H.
  - inversion H; subst. cbn [List.filter length].
    split; [reflexivity | split; [reflexivity | split; [lia | split; [lia |]]]].
    intros i _. reflexivity.
  - destruct (Save.save_item now b s n) as [[s1 n1] | e] eqn:Hstep; [| discriminate].
    cbn [bind fst snd] in H.
    destruct (save_item_effect now table b s n s1 n1 Hrows Hstep)
      as (Hr1 & Hl1 & Hn1 & Hw1 & Hf1).
    destruct (IH s1 n1 s' n' Hr1 H) as (Hr' & Hl' & Hn' & Hw' & Hf').
    cbn [List.filter].
    split; [exact Hr' | split; [lia | split; [| split]]].
    + destruct (Save.has_identity b); cbn [length]; lia.
    + destruct (Save.has_identity b && unresolved table b); cbn [length]; lia.
    + intros i Hi. rewrite Hf' by (intros c Hc; apply Hi; right; exact Hc).
      apply Hf1. apply Hi. left.
Qed.

(** X9.  A run of [save_jobs] that completes only adds and merges.  It
    returns the number of candidates that carry an identity field; the
    table grows by one row for each such candidate that resolves to no
    stored record, two equal candidates of one list included; every stored
    record keeps its place; and a record that no candidate of the list
    resolves to is left exactly as it was. *)
Theorem save_jobs_growth
    (now : nat -> Z) (items : list Posting) (table t' : list Job) (n : nat) :
  Save.save_jobs_bulk now items table = (t', Ret n) ->
  n = length (List.filter Save.has_identity items)
  /\ length t' = length table
       + length (List.filter (fun c => Save.has_identity c && unresolved table c) items)
  /\ (forall i j, table !! i = Some j -> is_Some (t' !! i))
  /\ (forall i j, table !! i = Some j ->
        (forall c, c ∈ items -> resolve table c <> Some i) -> t' !! i = Some j).
Proof.
  intros H. destruct (decide (items = [])) as [-> | Hne].
  { cbn in H. inversion H; subst. cbn [List.filter length].
    split; [reflexivity | split; [lia | split]].
    - intros i j Hj. eexists; exact Hj.
    - intros i j Hj _. exact Hj. }
  rewrite (save_jobs_bulk_loop now items table Hne) in H.
  destruct (Save.save_loop now items (open table) 0) as [[s' n'] | e] eqn:Hloop;
    [| discriminate].
  inversion H; subst t' n; clear H.
  destruct (save_loop_effect now table items (open table) 0 s' n' eq_refl Hloop)
    as (Hr & Hl & Hn & Hw & Hf).
  cbn [objects new open length] in Hl, Hw.
  split; [exact Hn | split; [rewrite length_app; lia | split]].
  - intros i j Hj. apply lookup_lt_is_Some. rewrite length_app.
    apply lookup_lt_Some in Hj. lia.
  - intros i j Hj Hnone. rewrite lookup_app_l by (apply lookup_lt_Some in Hj; lia).
    rewrite (Hf i Hnone). exact Hj.
Qed.

Lemma save_jobs_growth_witness :
  let items := [job2_posting; job2_posting; card_without_link] in
  let t' := [stored_job1; Job_init (clock 0) (clock 1) job2_posting;
             Job_init (clock 2) (clock 3) job2_posting] in
  Save.save_jobs_bulk clock items [stored_job1] = (t', Ret 2)
  /\ 2 = length (List.filter Save.has_identity items)
  /\ length t' = 1 + 2
  /\ t' !! 0 = Some stored_job1.
Proof.
  cbv zeta.
  assert (Save.save_jobs_bulk clock [job2_posting; job2_posting; card_without_link]
            [stored_job1]
          = ([stored_job1;
              Job_init (clock 0) (clock 1) job2_posting;
              Job_init (clock 2) (clock 3) job2_posting], Ret 2)) as H
    by (vm_compute; reflexivity).
  destruct (save_jobs_growth _ _ _ _ _ H) as (Hn & Hlen & Hkeep & Hframe).
  split; [exact H | split; [exact Hn | split; [reflexivity |]]].
  apply (Hframe 0 stored_job1 eq_refl).
  intros c Hc.
  repeat (apply elem_of_cons in Hc as [-> | Hc]; [vm_compute; discriminate |]).
  inversion Hc.
Defined.


(** ** A run of the Vodafone [save_jobs_bulk] *)

Lemma save_item_v_effect now table b s :
  rows s = table ->
  rows (Vodafone.save_item now b s) = table
  /\ length (objects (Vodafone.save_item now b s)) = length (objects s)
  /\ length (new (Vodafone.save_item now b s))
     = length (new s) + (if unresolved_v table b then 1 else 0)
  /\ (forall i, resolve_v table b <> Some i ->
                objects (Vodafone.save_item now b s) !! i = objects s !! i).
Proof.
  intros Hrows. unfold Vodafone.save_item, unresolved_v.
  destruct (Vodafone.find_existing s b) as [[i dest] |] eqn:Hf.
  - assert (resolve_v table b = Some i) as Hres.
    { unfold resolve_v. rewrite <- (find_existing_index s (open table)) by exact Hrows.
      rewrite Hf. reflexivity. }
    rewrite Hres, bool_decide_eq_false_2 by discriminate.
    cbn [rows objects new store_object]. rewrite length_insert.
    split; [exact Hrows | split; [reflexivity | split; [lia |]]].
    intros i' Hne. apply list_lookup_insert_ne. congruence.
  - assert (resolve_v table b = None) as Hres.
    { unfold resolve_v. rewrite <- (find_existing_index s (open table)) by exact Hrows.
      rewrite Hf. reflexivity. }
    rewrite Hres, bool_decide_eq_true_2 by reflexivity.
    cbn [rows objects new add]. rewrite length_app. cbn [length].
    split; [exact Hrows | split; [reflexivity | split; [lia |]]].
    intros i' _. reflexivity.
Qed.

Lemma bulk_loop_effect now table items :
  forall s n,
    rows s = table ->
    let r := bulk_loop now items (s, n) in
    rows (fst r) = table
    /\ length (objects (fst r)) = length (objects s)
    /\ snd r = n + length items
    /\ length (new (fst r))
       = length (new s) + length (List.filter (unresolved_v table) items)
    /\ (forall i, (forall c, c ∈ items -> resolve_v table c <> Some i) ->
                  objects (fst r) !! i = objects s !! i).
Proof.
  induction items as [| b rest IH]; intros s n Hrows; cbv zeta.
  - cbn [bulk_loop fold_left fst snd List.filter length].
    split; [exact Hrows | split; [reflexivity | split; [lia | split; [lia |]]]].
    intros i _. reflexivity.
  - rewrite bulk_loop_cons.
    destruct (save_item_v_effect now table b s Hrows) as (Hr1 & Hl1 & Hw1 & Hf1).
    destruct (IH (Vodafone.save_item now b s) (n + 1) Hr1) as (Hr' & Hl' & Hn' & Hw' & Hf').
    cbn [List.filter length].
    split; [exact Hr' | split; [lia | split; [lia | split]]].
    + destruct (unresolved_v table b); cbn [length]; lia.
    + intros i Hi. rewrite Hf' by (intros c Hc; apply Hi; right; exact Hc).
      apply Hf1. apply Hi. left.
Qed.

Lemma bulk_count now items table :
  snd (Vodafone.save_jobs_bulk now items table)
  = snd (bulk_loop now items (open table, 0)).
Proof.
  unfold Vodafone.save_jobs_bulk, bulk_loop.
  destruct (fold_left _ items (open table, 0)) as [db saved]. reflexivity.
Qed.

(** X10.  On a list the table accepts, the Vodafone [save_jobs_bulk]
    counts every candidate, whatever becomes of it.  When the values of
    every candidate have the types of their columns, and every candidate
    that resolves to no stored record gives a row with a title, a company
    and a source, the call returns the length of the list.  The table
    grows by one row for each candidate that resolves to no stored record,
    those without any identity field and repeated ones included; every
    stored record keeps its place; and a record that no candidate resolves
    to is left exactly as it was. *)
Theorem bulk_growth (now : nat -> Z) (items : list Posting) (table : list Job) :
  (forall c, c ∈ items -> Domain.typed c = true) ->
  (forall c, c ∈ items -> unresolved_v table c = true ->
     Domain.accepted (Job_init 0 0 (Vodafone._filter_job_dict c)) = true) ->
  let t' := fst (Vodafone.save_jobs_bulk now items table) in
  snd (Vodafone.save_jobs_bulk now items table) = length items
  /\ length t' = length table + length (List.filter (unresolved_v table) items)
  /\ (forall i j, table !! i = Some j -> is_Some (t' !! i))
  /\ (forall i j, table !! i = Some j ->
        (forall c, c ∈ items -> resolve_v table c <> Some i) -> t' !! i = Some j).
Proof.
  intros _ _. cbv zeta. rewrite bulk_count, bulk_table.
  destruct (bulk_loop_effect now table items (open table) 0 eq_refl)
    as (Hr & Hl & Hn & Hw & Hf).
  cbn [objects new open length] in Hl, Hw.
  split; [rewrite Hn; lia | split; [rewrite length_app; lia | split]].
  - intros i j Hj. apply lookup_lt_is_Some. rewrite length_app.
    apply lookup_lt_Some in Hj. lia.
  - intros i j Hj Hnone. rewrite lookup_app_l by (apply lookup_lt_Some in Hj; lia).
    rewrite (Hf i Hnone). exact Hj.
Qed.

Lemma bulk_growth_witness :
  Vodafone.save_jobs_bulk clock [job1_again; job2_posting; job2_posting] [stored_job1]
  = (fst (Vodafone.save_jobs_bulk clock [job1_again; job2_posting; job2_posting]
            [stored_job1]), 3)
  /\ length (fst (Vodafone.save_jobs_bulk clock [job1_again; job2_posting; job2_posting]
                    [stored_job1])) = 3.
Proof.
  assert (forall c, c ∈ [job1_again; job2_posting; job2_posting] ->
                    Domain.typed c = true) as Ht.
  { intros c Hc. repeat (apply elem_of_cons in Hc as [-> | Hc]; [reflexivity |]).
    inversion Hc. }
  assert (forall c, c ∈ [job1_again; job2_posting; job2_posting] ->
                    unresolved_v [stored_job1] c = true ->
                    Domain.accepted (Job_init 0 0 (Vodafone._filter_job_dict c)) = true)
    as Ha.
  { intros c Hc _. repeat (apply elem_of_cons in Hc as [-> | Hc]; [reflexivity |]).
    inversion Hc. }
  destruct (bulk_growth clock [job1_again; job2_posting; job2_posting] [stored_job1]
              Ht Ha) as (Hn & Hl & _).
  split.
  - destruct (Vodafone.save_jobs_bulk clock [job1_again; job2_posting; job2_posting]
                [stored_job1]) as [t n].
    cbn [fst snd] in Hn |- *. rewrite Hn. reflexivity.
  - rewrite Hl. reflexivity.
Defined.

(** The same page as above: the new posting is inserted twice and the
    card without a link once. *)
Example bulk_growth_example :
  Vodafone.save_jobs_bulk clock [job2_posting; job2_posting; card_without_link]
    [stored_job1]
  = ([stored_job1;
      Job_init (clock 0) (clock 1) job2_posting;
      Job_init (clock 2) (clock 3) job2_posting;
      Job_init (clock 4) (clock 5) card_without_link], 3).
Proof. vm_compute. reflexivity. Qed.

(** ** The two resolutions compared *)

Lemma find_row_pred_ext {A} (p q : A -> bool) (l : list A) :
  (forall x, x ∈ l -> p x = q x) -> find_row p l = find_row q l.
Proof.
  induction l as [| a l IH]; intros H; [reflexivity |]. cbn.
  rewrite <- (H a) by left. destruct (p a); [reflexivity |].
  rewrite IH; [reflexivity |]. intros x Hx. apply H. right. exact Hx.
Qed.

Lemma first_where_pred_ext p q s :
  (forall x, x ∈ rows s -> p x = q x) -> first_where p s = first_where q s.
Proof. intros H. unfold first_where. rewrite (find_row_pred_ext p q _ H). reflexivity. Qed.

(** X11.  The two upserts resolve a candidate alike on a table of one
    source.  When every stored record has the source of the candidate (the
    default source when it names none) and the candidate has an apply_url
    or has no legacy url, [_find_existing_job] of save.py and the lookups
    of the Vodafone [save_jobs_bulk] find the same record, or both find
    none. *)
Theorem resolutions_agree (table : list Job) (it : Posting) :
  (forall j, j ∈ table -> source j = get (Save.default_source it) K.source) ->
  truthy (get it K.apply_url) = true \/ truthy (get it K.url) = false ->
  Save._find_existing_job (open table) (Save.default_source it)
  = Vodafone.find_existing (open table) it.
Proof.
  intros Hsrc Hkeys.
  unfold Save._find_existing_job, Vodafone.find_existing. cbv zeta.
  rewrite (get_default_source it K.detail_url), (get_default_source it K.apply_url),
    (get_default_source it K.url) by discriminate.
  assert (forall (f : Job -> pyval) v,
            first_where (fun j => pyval_eqb (f j) v
                                  && Save.scoped (get (Save.default_source it) K.source) j)
                        (open table)
            = first_where (fun j => pyval_eqb (f j) v) (open table)) as Hsame.
  { intros f v. apply first_where_pred_ext. intros x Hx. cbn [rows open] in Hx.
    unfold Save.scoped. rewrite truthy_default_source, (Hsrc x Hx), pyval_eqb_refl.
    apply andb_true_r. }
  rewrite (Hsame detail_url), (Hsame apply_url), (Hsame url).
  set (D := first_where (fun j => pyval_eqb (detail_url j) (get it K.detail_url)) (open table)).
  set (U := first_where (fun j => pyval_eqb (url j) (get it K.url)) (open table)).
  assert (truthy (por (get it K.apply_url) (get it K.url)) = truthy (get it K.apply_url)
          /\ (truthy (get it K.apply_url) = true ->
              por (get it K.apply_url) (get it K.url) = get it K.apply_url))
    as (Htr & Hpor).
  { unfold por. destruct (truthy (get it K.apply_url)) eqn:Ha.
    - split; [exact Ha | reflexivity].
    - destruct Hkeys as [Hk | Hk]; [discriminate | split; [exact Hk | discriminate]]. }
  rewrite Htr.
  destruct (truthy (get it K.apply_url)) eqn:Ha.
  - rewrite (Hpor eq_refl).
    set (A := first_where (fun j => pyval_eqb (apply_url j) (get it K.apply_url)) (open table)).
    destruct (truthy (get it K.detail_url)), D, A, (truthy (get it K.url)), U; reflexivity.
  - destruct (truthy (get it K.detail_url)), D, (truthy (get it K.url)), U; reflexivity.
Qed.

Lemma resolutions_agree_witness :
  Save._find_existing_job (open [stored_job1]) (Save.default_source job1_again)
  = Vodafone.find_existing (open [stored_job1]) job1_again.
Proof.
  apply resolutions_agree.
  - intros j Hj. apply elem_of_cons in Hj as [-> | Hj]; [reflexivity | inversion Hj].
  - left. reflexivity.
Defined.

(** Without an apply_url the two differ: the Vodafone path compares the
    legacy url of the candidate with the apply_url of the records. *)
Example resolutions_differ :
  let it : Posting :=
    {[ K.url := PStr "https://jobs.vodafone.com/careers/apply?pid=1&domain=vodafone.com" ]} in
  let row := mkJob (PStr "Data Analyst") (PStr "Vodafone") PNone PNone PNone
                   (PStr "https://jobs.vodafone.com/careers/apply?pid=1&domain=vodafone.com")
                   PNone (PStr "vodafone") PNone 100 100 in
  resolve [row] it = None /\ resolve_v [row] it = Some 0.
Proof. vm_compute. split; reflexivity. Qed.

End RunFacts.


(* ===================================================================== *)
(** * Writing and reading a query string *)
(* ===================================================================== *)

Module QuoteFacts.
Import Vodafone Urllib Views UrlFacts.

Lemma app_cons x (a b : string) : String x a ++ b = String x (a ++ b).
Proof. reflexivity. Qed.

Lemma app_nil_l (b : string) : "" ++ b = b.
Proof. reflexivity. Qed.

Lemma app_nil_r (a : string) : a ++ "" = a.
Proof. induction a as [| x a IH]; [reflexivity |]. rewrite app_cons, IH. reflexivity. Qed.

Lemma all_bytes_app p a b :
  all_bytes p (a ++ b) = all_bytes p a && all_bytes p b.
Proof.
  induction a as [| x a IH]; [reflexivity |]. rewrite app_cons. cbn [all_bytes].
  rewrite IH. apply andb_assoc.
Qed.

Lemma all_bytes_impl (p q : ascii -> bool) s :
  (forall b, p b = true -> q b = true) -> all_bytes p s = true -> all_bytes q s = true.
Proof.
  intros Hpq. induction s as [| x s IH]; [reflexivity |]. cbn [all_bytes].
  intros H. apply andb_true_iff in H as (Hx & Hs). rewrite (Hpq x Hx), (IH Hs). reflexivity.
Qed.

(** ** [quote_plus] *)

Lemma hex_upper_spec n :
  (n < 16)%N ->
  ishex (hex_upper n) = true /\ hexval (hex_upper n) = n
  /\ always_safe (hex_upper n) = true.
Proof.
  intros Hn.
  assert (forallb (fun k => ishex (hex_upper k) && (hexval (hex_upper k) =? k)%N
                            && always_safe (hex_upper k))
            (List.map N.of_nat (seq 0 16)) = true) as Hall
    by (vm_compute; reflexivity).
  rewrite forallb_forall in Hall. specialize (Hall n).
  assert (In n (List.map N.of_nat (seq 0 16))) as Hin.
  { rewrite <- (N2Nat.id n). apply in_map, in_seq. lia. }
  apply Hall in Hin. apply andb_true_iff in Hin as (Hin & H3).
  apply andb_true_iff in Hin as (H1 & H2). apply N.eqb_eq in H2.
  split; [exact H1 | split; [exact H2 | exact H3]].
Qed.

Lemma byte_val_lt b : (byte_val b < 256)%N.
Proof. apply N_ascii_bounded. Qed.

Lemma quote_byte_quoted b : all_bytes quoted (quote_byte b) = true.
Proof.
  unfold quote_byte. destruct (always_safe b) eqn:Hs.
  - cbn. unfold quoted. rewrite Hs. reflexivity.
  - destruct (Ascii.eqb b " "); [reflexivity |].
    pose proof (byte_val_lt b) as Hb.
    destruct (hex_upper_spec (byte_val b / 16)) as (_ & _ & H1).
    { apply N.Div0.div_lt_upper_bound. lia. }
    destruct (hex_upper_spec (byte_val b mod 16)) as (_ & _ & H2).
    { apply N.mod_lt. lia. }
    cbn [all_bytes]. unfold quoted at 2 3. rewrite H1, H2. reflexivity.
Qed.

Lemma quote_plus_quoted s : all_bytes quoted (quote_plus s) = true.
Proof.
  induction s as [| b s IH]; [reflexivity |]. cbn [quote_plus].
  rewrite all_bytes_app, quote_byte_quoted, IH. reflexivity.
Qed.

Lemma quote_plus_nonempty s : s <> "" -> quote_plus s <> "".
Proof.
  destruct s as [| b s]; [congruence |]. intros _. cbn [quote_plus].
  unfold quote_byte. destruct (always_safe b); [discriminate |].
  destruct (Ascii.eqb b " "); discriminate.
Qed.

(** [unquote_to_bytes] undoes the escapes once "+" is read as a space. *)
Lemma plus_to_space_app a b :
  plus_to_space (a ++ b) = plus_to_space a ++ plus_to_space b.
Proof.
  induction a as [| x a IH]; [reflexivity |].
  rewrite app_cons. unfold plus_to_space in *. cbn [list_ascii_of_string List.map string_of_list_ascii].
  rewrite IH. reflexivity.
Qed.

Lemma unquote_quote s :
  unquote_to_bytes (plus_to_space (quote_plus s)) = s.
Proof.
  induction s as [| b s IH]; [reflexivity |]. cbn [quote_plus].
  rewrite plus_to_space_app. unfold quote_byte.
  destruct (always_safe b) eqn:Hs.
  - assert (Ascii.eqb b "+" = false /\ Ascii.eqb b "%" = false) as (Hp & Hq).
    { split; apply Ascii.eqb_neq; intros ->; vm_compute in Hs; discriminate. }
    unfold plus_to_space at 1. cbn [list_ascii_of_string List.map string_of_list_ascii].
    rewrite Hp, app_cons, app_nil_l. cbn [unquote_to_bytes]. rewrite Hq, IH. reflexivity.
  - destruct (Ascii.eqb_spec b " ") as [-> |].
    + change (plus_to_space "+") with " ". rewrite app_cons, app_nil_l.
      cbn [unquote_to_bytes]. change (Ascii.eqb " " "%") with false. cbv iota.
      rewrite IH. reflexivity.
    + pose proof (byte_val_lt b) as Hb.
      destruct (hex_upper_spec (byte_val b / 16)) as (Hh1 & Hv1 & Hs1).
      { apply N.Div0.div_lt_upper_bound. lia. }
      destruct (hex_upper_spec (byte_val b mod 16)) as (Hh2 & Hv2 & Hs2).
      { apply N.mod_lt. lia. }
      assert (forall c, always_safe c = true -> Ascii.eqb c "+" = false) as Hplus.
      { intros c Hc. apply Ascii.eqb_neq. intros ->. vm_compute in Hc. discriminate. }
      unfold plus_to_space at 1.
      cbn [list_ascii_of_string List.map string_of_list_ascii].
      change (Ascii.eqb "%" "+") with false. cbv iota.
      rewrite (Hplus _ Hs1), (Hplus _ Hs2), !app_cons, app_nil_l.
      cbn [unquote_to_bytes]. change (Ascii.eqb "%" "%") with true. cbv iota.
      rewrite Hh1, Hh2. cbn [andb]. rewrite Hv1, Hv2, IH.
      f_equal. unfold byte_val.
      replace (16 * (N_of_ascii b / 16) + N_of_ascii b mod 16)%N with (N_of_ascii b)
        by (apply N.div_mod; lia).
      apply ascii_N_embedding.
Qed.


Lemma unquote_to_bytes_plain s :
  has_byte "%" s = false -> unquote_to_bytes s = s.
Proof.
  unfold has_byte. intros H. apply negb_false_iff in H.
  induction s as [| c s IH]; [reflexivity |]. cbn [all_bytes] in H.
  apply andb_true_iff in H as (Hc & Hs). apply negb_true_iff in Hc.
  cbn [unquote_to_bytes]. rewrite Hc, (IH Hs). reflexivity.
Qed.

Lemma break_at_none p s :
  all_bytes (fun b => negb (p b)) s = true -> break_at p s = (s, "").
Proof.
  induction s as [| c s IH]; [reflexivity |]. cbn [all_bytes break_at].
  intros H. apply andb_true_iff in H as (Hc & Hs). apply negb_true_iff in Hc.
  rewrite Hc, (IH Hs). reflexivity.
Qed.

Lemma quoted_ascii b : quoted b = true -> is_ascii b = true.
Proof.
  unfold quoted, always_safe, is_alpha, is_ascii. intros H.
  apply N.ltb_lt.
  repeat (apply orb_true_iff in H as [H | H]);
    repeat match goal with
      | E : _ && _ = true |- _ => apply andb_true_iff in E as (? & ?)
      | E : (_ <=? _)%N = true |- _ => apply N.leb_le in E
      | E : Ascii.eqb _ _ = true |- _ => apply Ascii.eqb_eq in E; subst b; vm_compute; reflexivity
      end; lia.
Qed.

Lemma plus_to_space_ascii s :
  all_bytes quoted s = true -> all_bytes is_ascii (plus_to_space s) = true.
Proof.
  induction s as [| c s IH]; [reflexivity |]. cbn [all_bytes].
  intros H. apply andb_true_iff in H as (Hc & Hs).
  change (String c s) with (String c "" ++ s). rewrite plus_to_space_app, all_bytes_app.
  rewrite (IH Hs), andb_true_r. unfold plus_to_space.
  cbn [list_ascii_of_string List.map string_of_list_ascii all_bytes].
  destruct (Ascii.eqb c "+"); [reflexivity |]. rewrite (quoted_ascii c Hc). reflexivity.
Qed.

Section WithDecoder.

Variable utf8_replace : string -> string.

Lemma unquote_runs_nil fuel : unquote_runs utf8_replace fuel "" = "".
Proof. destruct fuel; reflexivity. Qed.

(** [unquote] undoes [quote_plus], "+" read as a space, on a text that
    decoding leaves as it is. *)
Lemma unquote_quote_plus s :
  (has_byte "%" (plus_to_space (quote_plus s)) = true -> utf8_replace s = s) ->
  unquote utf8_replace (plus_to_space (quote_plus s)) = s.
Proof.
  intros Hdec. unfold unquote.
  destruct (has_byte "%" (plus_to_space (quote_plus s))) eqn:Hp.
  - pose proof (plus_to_space_ascii _ (quote_plus_quoted s)) as Hascii.
    destruct (plus_to_space (quote_plus s)) as [| b r] eqn:E; [discriminate Hp |].
    cbn [String.length unquote_runs].
    assert (is_ascii b = true) as Hb
      by (cbn [all_bytes] in Hascii; apply andb_true_iff in Hascii; apply Hascii).
    rewrite Hb, break_at_none.
    + rewrite unquote_runs_nil, <- E, unquote_quote, (Hdec eq_refl).
      apply app_nil_r.
    + revert Hascii. apply all_bytes_impl. intros c ->. reflexivity.
  - rewrite <- (unquote_quote s) at 2. symmetry. apply unquote_to_bytes_plain. exact Hp.
Qed.

End WithDecoder.

Lemma quote_plus_safe s : all_bytes always_safe s = true -> quote_plus s = s.
Proof.
  induction s as [| b s IH]; [reflexivity |]. cbn [all_bytes quote_plus].
  intros H. apply andb_true_iff in H as (Hb & Hs).
  unfold quote_byte. rewrite Hb, (IH Hs). reflexivity.
Qed.




(** ** Splitting *)

Lemma split_once_none d s :
  has_byte d s = false -> split_once d s = None.
Proof.
  unfold has_byte. intros H. apply negb_false_iff in H.
  induction s as [| c s IH]; [reflexivity |]. cbn [all_bytes] in H.
  apply andb_true_iff in H as (Hc & Hs). apply negb_true_iff in Hc.
  cbn [split_once]. rewrite Hc, (IH Hs). reflexivity.
Qed.

Lemma split_once_app d a b :
  has_byte d a = false -> split_once d (a ++ String d b) = Some (a, b).
Proof.
  unfold has_byte. intros H. apply negb_false_iff in H.
  induction a as [| c a IH].
  - rewrite app_nil_l. cbn [split_once]. rewrite Ascii.eqb_refl. reflexivity.
  - cbn [all_bytes] in H. apply andb_true_iff in H as (Hc & Ha).
    apply negb_true_iff in Hc. rewrite app_cons. cbn [split_once].
    rewrite Hc, (IH Ha). reflexivity.
Qed.

Lemma split_amp_plain x : has_byte "&" x = false -> split_amp x = [x].
Proof.
  unfold has_byte. intros H. apply negb_false_iff in H.
  induction x as [| c x IH]; [reflexivity |]. cbn [all_bytes] in H.
  apply andb_true_iff in H as (Hc & Hx). apply negb_true_iff in Hc.
  cbn [split_amp]. rewrite Hc, (IH Hx). reflexivity.
Qed.

Lemma split_amp_app x r :
  has_byte "&" x = false -> split_amp (x ++ "&" ++ r) = x :: split_amp r.
Proof.
  unfold has_byte. intros H. apply negb_false_iff in H.
  induction x as [| c x IH].
  - rewrite app_nil_l, app_cons, app_nil_l. cbn [split_amp].
    rewrite Ascii.eqb_refl. reflexivity.
  - cbn [all_bytes] in H. apply andb_true_iff in H as (Hc & Hx).
    apply negb_true_iff in Hc. rewrite app_cons. cbn [split_amp].
    rewrite Hc, (IH Hx). reflexivity.
Qed.

Lemma has_byte_app d a b : has_byte d (a ++ b) = has_byte d a || has_byte d b.
Proof. unfold has_byte. rewrite all_bytes_app. apply negb_andb. Qed.

Lemma quoted_has_byte d s :
  quoted d = false -> all_bytes quoted s = true -> has_byte d s = false.
Proof.
  intros Hd Hs. unfold has_byte. apply negb_false_iff. revert Hs.
  apply all_bytes_impl. intros b Hb. apply negb_true_iff. apply Ascii.eqb_neq.
  intros ->. congruence.
Qed.

Lemma flat_map_step {A B} (f : A -> list B) x l :
  flat_map f (x :: l) = (f x ++ flat_map f l)%list.
Proof. reflexivity. Qed.

(** One pair as [urlencode] writes it *)
Lemma item_has_byte d k v :
  quoted d = false -> Ascii.eqb d "=" = false ->
  has_byte d (quote_plus k ++ "=" ++ quote_plus v) = false.
Proof.
  intros Hd He. rewrite !has_byte_app.
  rewrite (quoted_has_byte d _ Hd (quote_plus_quoted k)),
    (quoted_has_byte d _ Hd (quote_plus_quoted v)).
  unfold has_byte at 1. cbn [all_bytes]. rewrite Ascii.eqb_sym, He. reflexivity.
Qed.

Lemma urlencode_one k v :
  urlencode [(k, v)] = quote_plus k ++ "=" ++ quote_plus v.
Proof. reflexivity. Qed.

Lemma urlencode_cons k v kv l :
  urlencode ((k, v) :: kv :: l)
  = (quote_plus k ++ "=" ++ quote_plus v) ++ "&" ++ urlencode (kv :: l).
Proof. reflexivity. Qed.

Lemma urlencode_has_byte d l :
  quoted d = false -> Ascii.eqb d "=" = false -> Ascii.eqb d "&" = false ->
  has_byte d (urlencode l) = false.
Proof.
  intros Hd He Ha. unfold urlencode.
  induction l as [| [k v] l IH]; [reflexivity |].
  cbn [List.map join_amp fst snd].
  destruct (List.map _ l) as [| y ys] eqn:E.
  - apply item_has_byte; assumption.
  - rewrite has_byte_app, (item_has_byte d k v Hd He), has_byte_app, IH.
    unfold has_byte at 1. cbn [all_bytes]. rewrite Ascii.eqb_sym, Ha. reflexivity.
Qed.

Section Reading.

Variable utf8_replace : string -> string.

Local Abbreviation readable := (Views.readable utf8_replace).

Lemma parse_item k v :
  readable k -> readable v ->
  match split_once "=" (quote_plus k ++ "=" ++ quote_plus v) with
  | Some (n, w) =>
      if String.eqb w "" then []
      else [(unquote utf8_replace (plus_to_space n),
             unquote utf8_replace (plus_to_space w))]
  | None => []
  end = List.filter has_value [(k, v)].
Proof.
  intros Hk Hv.
  change ("=" ++ quote_plus v) with (String "=" (quote_plus v)).
  rewrite (split_once_app "=" (quote_plus k) (quote_plus v))
    by (apply quoted_has_byte; [reflexivity | apply quote_plus_quoted]).
  cbn [List.filter]. unfold has_value at 1. cbn [snd].
  destruct (String.eqb_spec v "") as [-> | Hne]; [reflexivity |].
  destruct (String.eqb_spec (quote_plus v) "") as [E | _].
  - exfalso. exact (quote_plus_nonempty v Hne E).
  - cbn [negb]. rewrite (unquote_quote_plus _ k Hk), (unquote_quote_plus _ v Hv).
    reflexivity.
Qed.

(** Reading back a query that [urlencode] wrote gives the pairs whose
    value is not empty. *)
Lemma parse_qsl_urlencode l :
  Forall (fun kv => readable (fst kv) /\ readable (snd kv)) l ->
  parse_qsl utf8_replace (urlencode l) = List.filter has_value l.
Proof.
  intros Hl. unfold parse_qsl.
  destruct l as [| [k v] l]; [reflexivity |].
  assert (String.eqb (urlencode ((k, v) :: l)) "" = false) as ->.
  { apply String.eqb_neq. unfold urlencode. cbn [List.map join_amp fst snd].
    destruct (List.map _ l); destruct (quote_plus k); discriminate. }
  revert k v Hl. induction l as [| [k2 v2] l IH]; intros k v Hl.
  - unfold urlencode. cbn [List.map join_amp fst snd].
    rewrite split_amp_plain by (apply item_has_byte; reflexivity).
    cbn [flat_map]. inversion Hl as [| ? ? [Hk Hv] _]; subst.
    rewrite (parse_item k v Hk Hv). apply List.app_nil_r.
  - inversion Hl as [| ? ? [Hk Hv] Hl']; subst. cbn [fst snd] in Hk, Hv.
    rewrite urlencode_cons, split_amp_app by (apply item_has_byte; reflexivity).
    rewrite flat_map_step, (parse_item k v Hk Hv), (IH k2 v2 Hl').
    cbn [List.filter]. destruct (has_value (k, v)); reflexivity.
Qed.

End Reading.


(** ** Reading an address that was built from a fixed prefix *)

Lemma remove_bytes_id p s :
  all_bytes (fun b => negb (p b)) s = true -> remove_bytes p s = s.
Proof.
  induction s as [| c s IH]; [reflexivity |]. cbn [all_bytes remove_bytes].
  intros H. apply andb_true_iff in H as (Hc & Hs). apply negb_true_iff in Hc.
  rewrite Hc, (IH Hs). reflexivity.
Qed.



Section Listing.

Variable netloc_ok : string -> bool.


End Listing.


Lemma safe_readable utf8_replace s :
  all_bytes always_safe s = true -> readable utf8_replace s.
Proof.
  intros Hs Hp. exfalso. rewrite (quote_plus_safe s Hs) in Hp.
  assert (has_byte "%" (plus_to_space s) = false) as E; [| congruence].
  clear Hp. unfold has_byte. apply negb_false_iff.
  induction s as [| c s IH]; [reflexivity |]. cbn [all_bytes] in Hs.
  apply andb_true_iff in Hs as (Hc & Hs').
  change (String c s) with (String c "" ++ s).
  rewrite plus_to_space_app, all_bytes_app, (IH Hs'), andb_true_r.
  unfold plus_to_space. cbn [list_ascii_of_string List.map string_of_list_ascii all_bytes].
  destruct (Ascii.eqb c "+"); [reflexivity |].
  destruct (Ascii.eqb_spec c "%") as [-> |]; [vm_compute in Hc; discriminate | reflexivity].
Qed.

End QuoteFacts.

(* ===================================================================== *)
(** * The addresses the scrapers request *)
(* ===================================================================== *)

Module RequestFacts.
Import Vodafone Urllib MostaqlListing VodafoneSearch Views QuoteFacts.



(** The three addresses of the first two pages *)
Example build_url_examples :
  _build_url "marketing" 1 = "https://mostaql.com/projects?category=marketing&sort=latest"
  /\ _build_url "development,marketing" 2
     = "https://mostaql.com/projects?category=development%2Cmarketing&sort=latest&page=2"
  /\ listing_urls "development" 0
     = ["https://mostaql.com/projects?category=development&sort=latest"].
Proof. vm_compute. repeat split; reflexivity. Qed.


(** ** The search requests of the Vodafone scraper *)

Section Search.

Variable netloc_ok : string -> bool.
Variable utf8_replace : string -> string.




End Search.


(** Arabic names, padding and unknown names *)
Example build_search_urls_example :
  build_search_urls (fun _ => true) (fun s => s)
    [" محلل بيانات "; "Sales"; ""; "Machine Learning"] 3
  = Ret [mkRequest
           "https://jobs.vodafone.com/careers?domain=vodafone.com&query=Data+Analysis&start=40&pid=563018687504917&sort_by=solr"
           "Data Analysis" 3;
         mkRequest
           "https://jobs.vodafone.com/careers?domain=vodafone.com&query=Machine+Learning&start=40&pid=563018687504927&sort_by=solr"
           "Machine Learning" 3].
Proof. vm_compute. reflexivity. Qed.

End RequestFacts.


(* ===================================================================== *)
(** * The listings of the jobs router *)
(* ===================================================================== *)

Module ListingFacts.
Import Models Normalize Jobs Views Cases NamesFacts.

(** ** The order of a listing *)

Lemma insert_row_perm r l : insert_row r l ≡ₚ r :: l.
Proof.
  induction l as [| x l IH]; [reflexivity |]. cbn [insert_row].
  destruct (before r x); [reflexivity |]. rewrite IH. apply Permutation_swap.
Qed.

Lemma order_rows_perm l : order_rows l ≡ₚ l.
Proof.
  induction l as [| x l IH]; [reflexivity |]. cbn [order_rows fold_right].
  rewrite insert_row_perm. constructor. exact IH.
Qed.




(** ** Rows and their ids *)












(** ** The buckets of the grouped listing *)

Lemma bucket_add_keys {A} limit c (d : A) g k :
  k ∈ List.map fst (bucket_add limit c d g) <-> k = c \/ k ∈ List.map fst g.
Proof.
  induction g as [| (k', b) g IH]; cbn [bucket_add List.map fst].
  - rewrite elem_of_cons. split; intros [H | H]; auto; inversion H.
  - destruct (String.eqb_spec k' c) as [-> | Hne]; cbn [List.map fst];
      rewrite !elem_of_cons; [tauto | rewrite IH; tauto].
Qed.

Lemma bucket_add_NoDup {A} limit c (d : A) g :
  NoDup (List.map fst g) -> NoDup (List.map fst (bucket_add limit c d g)).
Proof.
  induction g as [| (k', b) g IH]; cbn [bucket_add List.map fst]; intros Hnd.
  - apply NoDup_cons. split; [intros H; inversion H | constructor].
  - apply NoDup_cons in Hnd as (Hk & Hnd).
    destruct (String.eqb_spec k' c) as [-> | Hne]; cbn [List.map fst].
    + apply NoDup_cons. split; assumption.
    + apply NoDup_cons. split; [| exact (IH Hnd)].
      rewrite bucket_add_keys. intros [E | E]; [congruence | contradiction].
Qed.

Lemma bucket_of_add {A} limit c (d : A) g k :
  bucket_of k (bucket_add limit c d g)
  = if String.eqb c k
    then Some (match bucket_of c g with
               | Some b0 => if (Z.of_nat (length b0) <? limit)%Z
                            then (b0 ++ [d])%list else b0
               | None => if (0 <? limit)%Z then [d] else []
               end)
    else bucket_of k g.
Proof.
  induction g as [| (k', b) g IH]; cbn [bucket_add bucket_of].
  - reflexivity.
  - destruct (String.eqb_spec k' c) as [-> | Hne]; cbn [bucket_of].
    + destruct (String.eqb c k); reflexivity.
    + destruct (String.eqb_spec k' k) as [-> | Hne2].
      * destruct (String.eqb_spec c k) as [E | _]; [congruence | reflexivity].
      * rewrite IH. reflexivity.
Qed.

Lemma bucket_of_elem {A} (g : list (string * list A)) k b :
  NoDup (List.map fst g) -> ((k, b) ∈ g <-> bucket_of k g = Some b).
Proof.
  induction g as [| (k', b') g IH]; cbn [List.map fst bucket_of]; intros Hnd.
  - split; [intros H; inversion H | discriminate].
  - apply NoDup_cons in Hnd as (Hk & Hnd). rewrite elem_of_cons.
    destruct (String.eqb_spec k' k) as [-> | Hne].
    + split.
      * intros [E | Hin]; [congruence |].
        exfalso. apply Hk. change k with (fst (k, b)).
        apply list_elem_of_fmap_2. exact Hin.
      * intros E. left. congruence.
    + rewrite <- (IH Hnd). split; [intros [E | Hin]; [congruence | exact Hin] | auto].
Qed.

(** ** Rendering and paging *)



Section Engine.

Variable like_contains : string -> string -> bool.
Variable isoformat : Z -> string.

Lemma job_to_dict_keeps r :
  fst (_job_to_dict isoformat r) = fst r
  /\ source (snd (_job_to_dict isoformat r)) = source (snd r)
  /\ category (snd (_job_to_dict isoformat r)) = category (snd r).
Proof. unfold _job_to_dict. destruct (posted_at (snd r)); repeat split. Qed.

Lemma offset_limit_elem {A} (o l : Z) (rows : list A) x :
  x ∈ offset_limit o l rows -> x ∈ rows.
Proof.
  unfold offset_limit. destruct (l <? 0)%Z; intros H.
  - exact (subseteq_drop _ _ _ H).
  - exact (subseteq_drop _ _ _ (subseteq_take _ _ _ H)).
Qed.

Lemma filter_elem {A} (p : A -> bool) l x :
  x ∈ List.filter p l <-> x ∈ l /\ p x = true.
Proof. rewrite !list_elem_of_In. apply filter_In. Qed.





Lemma group_rows_NoDup limit rows g :
  NoDup (List.map fst g) ->
  NoDup (List.map fst (group_rows isoformat limit rows g)).
Proof.
  revert g. induction rows as [| j rest IH]; intros g Hnd; cbn [group_rows];
    [exact Hnd |].
  destruct (_canon (text (category (snd j)))) as [c |]; [| exact (IH g Hnd)].
  destruct (String.eqb c ""); [exact (IH g Hnd) |].
  apply IH, bucket_add_NoDup, Hnd.
Qed.

Lemma in_section_dict k r :
  in_section k (_job_to_dict isoformat r) = in_section k r.
Proof.
  unfold in_section. destruct (job_to_dict_keeps r) as (_ & _ & ->). reflexivity.
Qed.

Lemma filter_dicts k rows :
  List.filter (in_section k) (List.map (_job_to_dict isoformat) rows)
  = List.map (_job_to_dict isoformat) (List.filter (in_section k) rows).
Proof.
  induction rows as [| r rows IH]; [reflexivity |].
  cbn [List.map List.filter]. rewrite in_section_dict, IH.
  destruct (in_section k r); reflexivity.
Qed.

Lemma group_rows_buckets (limit : Z) rows :
  (1 <= limit)%Z ->
  forall g,
    (forall k b, bucket_of k g = Some b ->
                 k <> "" /\ length b <= Z.to_nat limit) ->
    forall k,
      bucket_of k (group_rows isoformat limit rows g)
      = match bucket_of k g with
        | Some b0 =>
            Some (take (Z.to_nat limit)
                    (b0 ++ List.map (_job_to_dict isoformat)
                             (List.filter (in_section k) rows)))
        | None =>
            if String.eqb k "" then None
            else match List.map (_job_to_dict isoformat)
                         (List.filter (in_section k) rows) with
                 | [] => None
                 | m => Some (take (Z.to_nat limit) m)
                 end
        end.
Proof.
  intros Hl. induction rows as [| j rest IH]; intros g Hg k; cbn [group_rows].
  - cbn [List.filter List.map]. destruct (bucket_of k g) as [b0 |] eqn:E.
    + rewrite app_nil_r, take_ge by (apply (Hg k b0 E)). reflexivity.
    + destruct (String.eqb k ""); reflexivity.
  - assert (forall c, _canon (text (category (snd j))) = c -> c <> Some k ->
              List.filter (in_section k) (j :: rest)
              = List.filter (in_section k) rest) as Hskip.
    { intros c Hc Hne. cbn [List.filter]. unfold in_section at 1.
      rewrite bool_decide_eq_false_2 by congruence. reflexivity. }
    assert (forall c, _canon (text (category (snd j))) = c ->
              (bucket_of k g = None -> k = "" \/ c <> Some k) ->
              (forall b0, bucket_of k g = Some b0 -> c <> Some k) ->
              bucket_of k (group_rows isoformat limit rest g)
              = match bucket_of k g with
                | Some b0 =>
                    Some (take (Z.to_nat limit)
                            (b0 ++ List.map (_job_to_dict isoformat)
                                     (List.filter (in_section k) (j :: rest))))
                | None =>
                    if String.eqb k "" then None
                    else match List.map (_job_to_dict isoformat)
                                 (List.filter (in_section k) (j :: rest)) with
                         | [] => None
                         | m => Some (take (Z.to_nat limit) m)
                         end
                end) as Hsame.
    { intros c Hc Hnone Hsome. rewrite (IH g Hg k).
      destruct (bucket_of k g) as [b0 |] eqn:E.
      - rewrite (Hskip c Hc (Hsome b0 eq_refl)). reflexivity.
      - destruct (String.eqb_spec k "") as [-> | Hk]; [reflexivity |].
        destruct (Hnone eq_refl) as [? | Hne]; [contradiction |].
        rewrite (Hskip c Hc Hne). reflexivity. }
    destruct (_canon (text (category (snd j)))) as [c |] eqn:Hc.
    2:{ apply (Hsame None eq_refl); [right; discriminate | discriminate]. }
    destruct (String.eqb_spec c "") as [-> | Hcne].
    { apply (Hsame (Some "") eq_refl).
      - intros _. destruct (String.eqb_spec k ""); [left; assumption |].
        right. congruence.
      - intros b0 Hb0 E. destruct (Hg k b0 Hb0) as (Hk & _). congruence. }
    assert (forall k' b, bucket_of k'
              (bucket_add limit c (_job_to_dict isoformat j) g) = Some b ->
              k' <> "" /\ length b <= Z.to_nat limit) as Hg'.
    { intros k' b. rewrite bucket_of_add.
      destruct (String.eqb_spec c k') as [<- | Hne]; [| apply Hg].
      intros E. injection E as <-. split; [exact Hcne |].
      destruct (bucket_of c g) as [b0 |] eqn:E0.
      - destruct (Hg c b0 E0) as (_ & Hlen).
        destruct (Z.ltb_spec (Z.of_nat (length b0)) limit); [| exact Hlen].
        rewrite length_app. cbn [length]. lia.
      - replace (0 <? limit)%Z with true by (symmetry; apply Z.ltb_lt; lia).
        cbn [length]. lia. }
    rewrite (IH _ Hg' k), bucket_of_add.
    destruct (String.eqb_spec c k) as [<- | Hne].
    + assert (List.filter (in_section c) (j :: rest)
              = j :: List.filter (in_section c) rest) as Hin.
      { cbn [List.filter]. unfold in_section at 1.
        rewrite bool_decide_eq_true_2 by exact Hc. reflexivity. }
      rewrite Hin. cbn [List.map].
      destruct (bucket_of c g) as [b0 |] eqn:E0.
      * destruct (Hg c b0 E0) as (_ & Hlen).
        destruct (Z.ltb_spec (Z.of_nat (length b0)) limit) as [Hlt | Hge].
        -- rewrite <- app_assoc. reflexivity.
        -- rewrite !take_app_le by lia. reflexivity.
      * replace (0 <? limit)%Z with true by (symmetry; apply Z.ltb_lt; lia).
        destruct (String.eqb_spec c ""); [contradiction | reflexivity].
    + rewrite (Hskip (Some c) eq_refl) by congruence. reflexivity.
Qed.

Lemma group_rows_sections (limit : Z) rows :
  (1 <= limit)%Z ->
  NoDup (List.map fst (group_rows isoformat limit rows []))
  /\ forall k b,
       (k, b) ∈ group_rows isoformat limit rows []
       <-> k <> "" /\ List.filter (in_section k)
                        (List.map (_job_to_dict isoformat) rows) <> []
           /\ b = take (Z.to_nat limit)
                    (List.filter (in_section k)
                       (List.map (_job_to_dict isoformat) rows)).
Proof.
  intros Hl.
  assert (NoDup (List.map fst (group_rows isoformat limit rows [])))
    as Hnd by (apply group_rows_NoDup; constructor).
  split; [exact Hnd |].
  assert (forall k,
            bucket_of k (group_rows isoformat limit rows [])
            = if String.eqb k "" then None
              else match List.filter (in_section k)
                           (List.map (_job_to_dict isoformat) rows) with
                   | [] => None
                   | m => Some (take (Z.to_nat limit) m)
                   end) as Hb.
  { intros k. rewrite (group_rows_buckets limit rows Hl []).
    - cbn [bucket_of]. rewrite filter_dicts. reflexivity.
    - intros ? ? E. discriminate E. }
  intros k b. rewrite (bucket_of_elem _ k b Hnd), Hb.
  destruct (String.eqb_spec k "") as [-> | Hk].
  - split; [discriminate | intros (E & _); contradiction].
  - destruct (List.filter (in_section k)
                (List.map (_job_to_dict isoformat) rows)) as [| m ms].
    + split; [discriminate | intros (_ & E & _); contradiction].
    + split.
      * intros E. injection E as <-. repeat split; [exact Hk | discriminate].
      * intros (_ & _ & ->). reflexivity.
Qed.

Lemma listing_without_location (cats : gset string) q employment (l : list Row) :
  List.filter
    (fun r : Row =>
       category_in cats (snd r) && q_filter like_contains q (snd r)
       && location_filter like_contains None (snd r) && employment (snd r)) l
  = List.filter
      (fun r : Row =>
         category_in cats (snd r) && q_filter like_contains q (snd r)
         && employment (snd r)) l.
Proof.
  apply List.filter_ext. intros r. cbn [location_filter].
  rewrite andb_true_r. reflexivity.
Qed.

(** X17.  The sections of the grouped listing are the flat listing cut by
    canonical category.  With a limit of at least 1, the answer has each
    section name once; a name has a section exactly when it is not empty
    and the flat listing of the same request (page 1, no limit, no
    location) has a row whose category canonicalises to it; and the
    section holds the first [limit_per_category] such rows, in the order
    of the flat listing.  So no section is empty or longer than the
    limit. *)
Theorem list_jobs_grouped_sections
    (q : option string) (limit_per_category : Z)
    (profiles employment_type : option string)
    (search_profiles : list SearchProfile) (table : list Job)
    (grouped : list (string * list Row)) :
  (1 <= limit_per_category)%Z ->
  list_jobs_grouped like_contains isoformat q limit_per_category profiles
    employment_type search_profiles table = OK grouped ->
  let all :=
    body (list_jobs like_contains isoformat q employment_type None None 1 (-1)
            profiles search_profiles table) in
  NoDup (List.map fst grouped)
  /\ (forall k b,
        (k, b) ∈ grouped
        <-> k <> "" /\ List.filter (in_section k) all <> []
            /\ b = take (Z.to_nat limit_per_category)
                     (List.filter (in_section k) all))
  /\ Forall (fun kb => snd kb <> []
                       /\ (Z.of_nat (length (snd kb)) <= limit_per_category)%Z)
       grouped.
Proof.
  intros Hl. cbv zeta. unfold list_jobs_grouped, list_jobs.
  destruct (_apply_employment_source_filter employment_type) as [employment |];
    [| discriminate].
  cbn [body]. unfold offset_limit. cbn [Z.sub Z.mul Z.to_nat drop Z.ltb Z.compare
                                        Z.opp Z.add Z.pos_sub].
  change (1 + -1)%Z with 0%Z. cbn [Z.mul Z.to_nat drop].
  rewrite listing_without_location.
  match goal with
  | |- context [order_rows ?l] => set (rows := order_rows l)
  end.
  intros H. injection H as <-.
  destruct (group_rows_sections limit_per_category rows Hl) as (Hnd & Hiff).
  split; [exact Hnd |]. split; [exact Hiff |].
  apply Forall_forall. intros (k, b) Hkb. apply Hiff in Hkb as (_ & Hne & ->).
  cbn [snd]. split.
  - destruct (List.filter (in_section k)
                (List.map (_job_to_dict isoformat) rows)) as [| m ms];
      [contradiction |].
    destruct (Z.to_nat limit_per_category) eqn:E; [lia | discriminate].
  - rewrite length_take. lia.
Qed.

Lemma categories_canonical profiles search_profiles table x :
  x ∈ categories_for profiles search_profiles table ->
  x = "" \/ _canon (Some x) = Some x.
Proof.
  assert (forall (s : option string) c,
            (if given s then s else None) = Some c -> s = Some c /\ c <> "")
    as Hgiven.
  { intros [s |] c; cbn [given]; [| discriminate].
    destruct (String.eqb_spec s ""); cbn [negb]; [discriminate |].
    intros E. injection E as <-. split; [reflexivity | assumption]. }
  assert (x ∈ _parse_profiles_param profiles -> _canon (Some x) = Some x) as H1.
  { unfold _parse_profiles_param. destruct profiles as [p |]; [| set_solver].
    destruct (String.eqb p ""); [set_solver |].
    rewrite elem_of_list_to_set, list_elem_of_omap. intros (y & _ & Hy).
    apply Hgiven in Hy as (Hy & Hne). exact (canon_result_fixed y x Hne Hy). }
  assert (x ∈ _get_active_categories_from_db search_profiles ->
          _canon (Some x) = Some x) as H2.
  { unfold _get_active_categories_from_db.
    rewrite elem_of_list_to_set, list_elem_of_omap. intros (y & _ & Hy).
    apply Hgiven in Hy as (Hy & Hne). exact (canon_result_fixed _ x Hne Hy). }
  assert (x ∈ _get_all_existing_categories table ->
          x = "" \/ _canon (Some x) = Some x) as H3.
  { unfold _get_all_existing_categories.
    rewrite elem_of_list_to_set, list_elem_of_omap. intros (y & _ & Hy).
    destruct (text (category y)) as [s |]; cbn [given] in Hy; [| discriminate].
    destruct (String.eqb s ""); cbn [negb] in Hy; [discriminate |].
    destruct (decide (x = "")) as [-> | Hne]; [left; reflexivity | right].
    exact (canon_result_fixed s x Hne Hy). }
  unfold categories_for.
  repeat match goal with
         | |- context [bool_decide ?P] => destruct (bool_decide P)
         end; auto.
Qed.

Lemma category_in_canonical profiles search_profiles table j :
  category_in (categories_for profiles search_profiles table) j = true ->
  exists c, category j = PStr c /\ (c = "" \/ _canon (Some c) = Some c).
Proof.
  unfold category_in. destruct (category j) as [| c |]; try discriminate.
  intros H. apply bool_decide_eq_true_1 in H. exists c.
  split; [reflexivity | exact (categories_canonical _ _ _ c H)].
Qed.

(** X18.  The listings show a row only under the category it is stored
    with.  The requested names are canonicalised but the stored category
    is compared as it is, so every row of the flat listing has a
    category that is the empty string or its own canonical name, a row
    stored under an alias or with surrounding blanks is never listed,
    and in the grouped listing the name of a section is the stored
    category of each of its rows. *)
Theorem listed_categories_canonical
    (q employment_type experience_level location_ profiles : option string)
    (page limit limit_per_category : Z)
    (search_profiles : list SearchProfile) (table : list Job) :
  (forall rows,
     list_jobs like_contains isoformat q employment_type experience_level
       location_ page limit profiles search_profiles table = OK rows ->
     Forall (fun r => exists c, category (snd r) = PStr c
                                /\ (c = "" \/ _canon (Some c) = Some c)) rows)
  /\ (forall grouped,
        (1 <= limit_per_category)%Z ->
        list_jobs_grouped like_contains isoformat q limit_per_category profiles
          employment_type search_profiles table = OK grouped ->
        Forall (fun kb => Forall (fun r => category (snd r) = PStr (fst kb))
                            (snd kb)) grouped).
Proof.
  unfold list_jobs, list_jobs_grouped.
  destruct (_apply_employment_source_filter employment_type) as [employment |].
  2:{ split; [intros ? H | intros ? _ H]; discriminate H. }
  split.
  - intros rows H. injection H as <-. apply Forall_forall. intros x Hx.
    apply list_elem_of_fmap in Hx as (y & -> & Hy).
    apply offset_limit_elem in Hy. rewrite order_rows_perm in Hy.
    apply filter_elem in Hy as (_ & Hy).
    destruct (job_to_dict_keeps y) as (_ & _ & ->).
    apply andb_true_iff in Hy as (Hy & _). apply andb_true_iff in Hy as (Hy & _).
    apply andb_true_iff in Hy as (Hy & _).
    exact (category_in_canonical _ _ _ _ Hy).
  - intros grouped Hl H. injection H as <-.
    match goal with
    | |- context [order_rows ?l] => set (rows := order_rows l)
    end.
    destruct (group_rows_sections limit_per_category rows Hl) as (_ & Hiff).
    apply Forall_forall. intros (k, b) Hkb. apply Hiff in Hkb as (Hk & _ & ->).
    cbn [fst snd]. apply Forall_forall. intros r Hr.
    apply subseteq_take in Hr. apply filter_elem in Hr as (Hr & Hsec).
    apply list_elem_of_fmap in Hr as (y & -> & Hy).
    rewrite in_section_dict in Hsec.
    destruct (job_to_dict_keeps y) as (_ & _ & ->).
    unfold rows in Hy. rewrite order_rows_perm in Hy.
    apply filter_elem in Hy as (_ & Hy).
    apply andb_true_iff in Hy as (Hy & _). apply andb_true_iff in Hy as (Hy & _).
    apply category_in_canonical in Hy as (c & Hc & Hfix).
    unfold in_section in Hsec. apply bool_decide_eq_true_1 in Hsec.
    rewrite Hc in Hsec |- *. cbn [text] in Hsec.
    destruct Hfix as [-> | Hfix]; [discriminate Hsec | congruence].
Qed.





End Engine.



(** Aliases of freelance select mostaql as the canonical value does, and
    part_time fails. *)
Example list_jobs_employment_examples :
  let ids et := List.map fst (body (list_jobs (fun _ _ => true) (fun _ => "")
                  None et None None 1 20 None [] board)) in
  ids (Some " Contract ") = [3]
  /\ ids (Some "full-time") = [4; 2; 1]
  /\ ids (Some "  ") = [4; 2; 1; 3]
  /\ list_jobs (fun _ _ => true) (fun _ => "") None (Some "part_time") None None
       1 20 None [] board = HTTPException 500.
Proof. vm_compute. repeat split; reflexivity. Qed.


Lemma list_jobs_grouped_sections_witness :
  Forall (fun kb => snd kb <> [] /\ (Z.of_nat (length (snd kb)) <= 2)%Z)
    (body (list_jobs_grouped (fun _ _ => true) (fun _ => "") None 2 None None
             [] board)).
Proof.
  apply (list_jobs_grouped_sections (fun _ _ => true) (fun _ => "") None 2 None
           None [] board
           (body (list_jobs_grouped (fun _ _ => true) (fun _ => "") None 2 None
                    None [] board))
           ltac:(lia) eq_refl).
Defined.

(** The board grouped with two rows a section: the posting stored under
    the alias of Data Analysis (id 5) is in no section, though it is the
    newest, and an active profile named by that alias changes nothing. *)
Example list_jobs_grouped_examples :
  let sections sps :=
    List.map (fun kb => (fst kb, List.map fst (snd kb)))
      (body (list_jobs_grouped (fun _ _ => true) (fun _ => "") None 2 None None
               sps board)) in
  sections [] = [("Data Analysis", [4; 1]); ("Machine Learning", [2])]
  /\ sections active_profiles = [("Data Analysis", [4; 1])].
Proof. vm_compute. split; reflexivity. Qed.

End ListingFacts.


(* ===================================================================== *)
(** * The apply links handed to the autofill *)
(* ===================================================================== *)

Module AutofillFacts.
Import Models VodafoneAutofill Views Cases.

Lemma collect_spec (limit : Z) rows : forall urls,
  NoDup urls ->
  let out := collect limit rows urls in
  NoDup out
  /\ (forall u, u ∈ out -> u ∈ urls \/ (u ∈ rows /\ truthy u = true))
  /\ (forall u, u ∈ urls -> u ∈ out)
  /\ (Z.of_nat (length out) <= Z.max limit (Z.of_nat (length urls) + 1))%Z
  /\ ((Z.of_nat (length out) < limit)%Z ->
      forall u, u ∈ rows -> truthy u = true -> u ∈ out).
Proof.
  induction rows as [| u rest IH]; intros urls Hnd; cbv zeta; cbn [collect].
  - split; [exact Hnd |]. split; [auto |]. split; [auto |]. split; [lia |].
    intros _ u Hu. inversion Hu.
  - set (urls' := if truthy u && negb (bool_decide (u ∈ urls))
                  then (urls ++ [u])%list else urls).
    assert (NoDup urls') as Hnd'.
    { unfold urls'. destruct (truthy u); cbn [andb]; [| exact Hnd].
      destruct (decide (u ∈ urls)) as [Hin | Hout].
      - rewrite bool_decide_eq_true_2 by exact Hin. exact Hnd.
      - rewrite bool_decide_eq_false_2 by exact Hout. cbn [negb].
        apply NoDup_app. split; [exact Hnd |]. split.
        + intros x Hx Hx'. apply list_elem_of_singleton in Hx'. congruence.
        + apply NoDup_singleton. }
    assert (forall x, x ∈ urls' -> x ∈ urls \/ (x = u /\ truthy u = true)) as Hsub.
    { intros x. unfold urls'. destruct (truthy u); cbn [andb]; [| auto].
      destruct (bool_decide (u ∈ urls)); cbn [negb]; [auto |].
      rewrite elem_of_app, list_elem_of_singleton. intros [H | H]; auto. }
    assert (forall x, x ∈ urls -> x ∈ urls') as Hsup.
    { intros x Hx. unfold urls'.
      destruct (truthy u && negb (bool_decide (u ∈ urls))); [| exact Hx].
      apply elem_of_app. left. exact Hx. }
    assert (truthy u = true -> u ∈ urls') as Hu.
    { intros Ht. unfold urls'. rewrite Ht. cbn [andb].
      destruct (decide (u ∈ urls)) as [Hin | Hout].
      - rewrite bool_decide_eq_true_2 by exact Hin. exact Hin.
      - rewrite bool_decide_eq_false_2 by exact Hout. cbn [negb].
        apply elem_of_app. right. apply list_elem_of_singleton. reflexivity. }
    assert (length urls' <= S (length urls)) as Hlen.
    { unfold urls'.
      destruct (truthy u && negb (bool_decide (u ∈ urls)));
        [rewrite length_app; cbn [length]; lia | lia]. }
    destruct (Z.leb_spec limit (Z.of_nat (length urls'))) as [Hfull | Hroom].
    + split; [exact Hnd' |]. split.
      { intros x Hx. destruct (Hsub x Hx) as [H | (-> & Ht)]; [left; exact H |].
        right. split; [left | exact Ht]. }
      split; [exact Hsup |]. split; [lia |]. intros Hlt. lia.
    + destruct (IH urls' Hnd') as (H1 & H2 & H3 & H4 & H5).
      split; [exact H1 |]. split.
      { intros x Hx. destruct (H2 x Hx) as [H | (H & Ht)].
        - destruct (Hsub x H) as [H' | (-> & Ht)]; [left; exact H' |].
          right. split; [left | exact Ht].
        - right. split; [right; exact H | exact Ht]. }
      split; [intros x Hx; exact (H3 x (Hsup x Hx)) |].
      split; [lia |].
      intros Hlt x Hx Ht. apply elem_of_cons in Hx as [-> | Hx].
      * exact (H3 u (Hu Ht)).
      * exact (H5 Hlt x Hx Ht).
Qed.

Lemma with_ids_snd (l : list Job) : List.map snd (Jobs.with_ids l) = l.
Proof.
  unfold Jobs.with_ids.
  assert (forall k, List.map snd (imap (fun i (j : Job) => (S (k + i), j)) l) = l) as H.
  { induction l as [| j l IH]; intros k; [reflexivity |].
    cbn [imap List.map snd]. f_equal.
    rewrite <- (IH (S k)) at 2. f_equal. apply imap_ext. intros; cbn; f_equal; lia. }
  rewrite <- (H 0) at 2. f_equal.
Qed.

Lemma newest_first_perm (l : list Job) : newest_first l ≡ₚ l.
Proof.
  unfold newest_first. rewrite <- (with_ids_snd l) at 2.
  change (@List.map) with (@fmap list _). apply fmap_Permutation.
  apply ListingFacts.order_rows_perm.
Qed.

(** X14.  The links handed to the autofill, for any order in which the
    engine returns the rows: no link twice, none empty, each the apply
    link of a vodafone row of the requested category; at most [limit] of
    them, but one even when [limit] is 0 or less; and when fewer than
    [limit] come back, every non-empty apply link of such a row is among
    them. *)
Theorem apply_urls_of_table
    (order_by_posted_at_desc : list Job -> list Job)
    (limit : Z) (category_ : option string) (table : list Job) :
  (forall l, order_by_posted_at_desc l ≡ₚ l) ->
  let urls := _iter_vodafone_apply_urls order_by_posted_at_desc limit category_
                table in
  NoDup urls
  /\ Forall (fun u => truthy u = true
                      /\ exists j, j ∈ table /\ apply_url j = u
                                   /\ source j = PStr "vodafone"
                                   /\ selected category_ j = true) urls
  /\ (Z.of_nat (length urls) <= Z.max limit 1)%Z
  /\ ((Z.of_nat (length urls) < limit)%Z ->
      forall j, j ∈ table -> selected category_ j = true ->
                truthy (apply_url j) = true -> apply_url j ∈ urls).
Proof.
  intros Hperm. cbv zeta. unfold _iter_vodafone_apply_urls.
  destruct (collect_spec limit
              (List.map apply_url
                 (order_by_posted_at_desc (List.filter (selected category_) table)))
              [] (NoDup_nil_2)) as (H1 & H2 & _ & H4 & H5).
  assert (forall j, j ∈ order_by_posted_at_desc (List.filter (selected category_) table)
                    <-> j ∈ table /\ selected category_ j = true) as Hrows.
  { intros j. rewrite (Hperm _). rewrite !list_elem_of_In. apply filter_In. }
  split; [exact H1 |]. split.
  { apply Forall_forall. intros u Hu.
    destruct (H2 u Hu) as [H | (H & Ht)]; [inversion H |].
    split; [exact Ht |].
    apply list_elem_of_fmap in H as (j & -> & Hj). apply Hrows in Hj as (Hj & Hs).
    exists j. split; [exact Hj |]. split; [reflexivity |]. split; [| exact Hs].
    unfold selected in Hs. apply andb_true_iff in Hs as (Hs & _).
    apply andb_true_iff in Hs as (Hs & _).
    unfold pyval_eqb in Hs. exact (bool_decide_eq_true_1 _ Hs). }
  split; [cbn [length] in H4; lia |].
  intros Hlt j Hj Hs Ht. apply (H5 Hlt); [| exact Ht].
  apply list_elem_of_fmap_2. apply Hrows. split; assumption.
Qed.

Lemma apply_urls_of_table_witness :
  _iter_vodafone_apply_urls newest_first 5 (Some "Data Analysis") board
  = [PStr "https://jobs.vodafone.com/careers/apply?pid=1&domain=vodafone.com"]
  /\ NoDup (_iter_vodafone_apply_urls newest_first 5 (Some "Data Analysis") board).
Proof.
  split; [vm_compute; reflexivity |].
  exact (proj1 (apply_urls_of_table newest_first 5 (Some "Data Analysis") board
                  newest_first_perm)).
Defined.

(** A limit of 0 still gives the link of the first row, when it has one:
    the newest Machine Learning row has a link, the newest row of the
    whole board has an empty one. *)
Example apply_urls_limit_zero :
  _iter_vodafone_apply_urls newest_first 0 (Some "Machine Learning") board
  = [PStr "https://jobs.vodafone.com/careers/apply?pid=2&domain=vodafone.com"]
  /\ _iter_vodafone_apply_urls newest_first 0 None board = [].
Proof. vm_compute. split; reflexivity. Qed.

End AutofillFacts.


(* ===================================================================== *)
(** * The configuration of an application *)
(* ===================================================================== *)

Module ScrapeFacts.
Import Scrape Views TextFacts.

Lemma phone_query_short phone :
  phone_query phone "egy" <> ""
  /\ (length (chars (phone_query phone "egy")) <= 3)%nat.
Proof.
  unfold phone_query. cbv zeta.
  destruct (String.prefix "egy" (lower (strip phone)));
    [split; [discriminate | vm_compute; lia] |].
  set (s := lower (strip phone)).
  destruct (3 <=? length (chars s))%nat eqn:Hlen.
  - destruct (String.eqb_spec (join (take 3 (chars s))) "") as [E | E];
      [split; [discriminate | vm_compute; lia] |].
    split; [exact E |].
    rewrite chars_join.
    + rewrite length_take. lia.
    + apply (cut_prefix _ (drop 3 (chars s))). rewrite take_drop. apply chars_cut.
  - apply Nat.leb_gt in Hlen.
    destruct (String.eqb_spec s "") as [E | E];
      [split; [discriminate | vm_compute; lia] |].
    split; [exact E | lia].
Qed.

(** X19.  The text typed to find the phone country is never empty and
    never longer than three characters, whatever the request holds; a
    phone country that starts with egy in any letter case and after any
    blanks gives egy, and so does a missing or blank one. *)
Theorem phone_country_query_short (p : ApplyVodafoneIn) :
  let query_ := phone_country_query (_map_apply_payload_to_config p) in
  query_ <> ""
  /\ (length (chars query_) <= 3)%nat
  /\ (forall pr ph, profile p = Some pr -> phone_country pr = Some ph ->
        String.prefix "egy" (lower (strip ph)) = true \/ strip ph = "" ->
        query_ = "egy")
  /\ (profile p = None -> query_ = "egy").
Proof.
  cbv zeta. unfold _map_apply_payload_to_config. cbn [phone_country_query].
  split; [| split; [| split]].
  - destruct (phone_country _) as [ph |]; [| discriminate].
    destruct (String.eqb ph ""); [discriminate | apply phone_query_short].
  - destruct (phone_country _) as [ph |]; [| vm_compute; lia].
    destruct (String.eqb ph ""); [vm_compute; lia | apply phone_query_short].
  - intros pr ph -> Hph Hegy. cbn [default from_option id]. rewrite Hph.
    destruct (String.eqb ph ""); [reflexivity |].
    unfold phone_query. cbv zeta. destruct Hegy as [-> | E]; [reflexivity |].
    rewrite E. vm_compute. reflexivity.
  - intros ->. reflexivity.
Qed.

Example phone_country_query_examples :
  let query_ ph :=
    phone_country_query
      (_map_apply_payload_to_config
         (mkApplyIn "https://jobs.vodafone.com/careers/apply?pid=1" true true None
            None (Some (mkProfile None None (Some ph) None None None None)) None)) in
  query_ " Egypt " = "egy" /\ query_ "United Kingdom" = "uni"
  /\ query_ "UK" = "uk" /\ query_ "  " = "egy".
Proof. vm_compute. repeat split; reflexivity. Qed.

End ScrapeFacts.

(* ===================================================================== *)
(** * Keyword and fallback in the classifier *)
(* ===================================================================== *)

Module KeywordFacts.
Import Mostaql Samples Domain TextFacts.

Lemma contains_any_true title kws :
  _contains_any (lower title) kws = true
  <-> Exists (fun k => contains k (lower title) = true) kws.
Proof.
  unfold _contains_any. rewrite lower_idem, Exists_exists. split.
  - intros H. apply existsb_exists in H as (k & Hk & Hc).
    exists k. split; [apply list_elem_of_In; exact Hk | exact Hc].
  - intros (k & Hk & Hc). apply existsb_exists. exists k.
    split; [apply list_elem_of_In; exact Hk | exact Hc].
Qed.

Lemma contains_any_false title kws :
  _contains_any (lower title) kws = false
  <-> Forall (fun k => contains k (lower title) = false) kws.
Proof.
  rewrite <- not_true_iff_false, contains_any_true, <- Forall_Exists_neg.
  apply Forall_iff. intros k. apply not_true_iff_false.
Qed.

Lemma active_elem (p : string) (active : list string) :
  bool_decide (p ∈ (list_to_set active : gset string)) = true <-> p ∈ active.
Proof. rewrite bool_decide_eq_true, elem_of_list_to_set. reflexivity. Qed.

(** C8.  A keyword match wins over the fallback.  For a title written in
    ASCII and Arabic letters, outside the source context "marketing", and
    where the context is not "development" for a title without a marketing
    keyword: a title with a machine-learning keyword is classified Machine
    Learning when that profile is active; a title with a data-analysis
    keyword is classified Data Analysis when that profile is active and
    the first rule does not apply; and only a title to which neither rule
    applies gets the fallback, which is the class of the empty title.  The
    title
    "Senior Data Analyst needed, Power BI/SQL" has a data-analysis keyword
    and no machine-learning keyword, so with the profiles Machine Learning
    and Data Analysis, which select the context "development", it is
    classified Data Analysis.  The keyword decides also where the fallback
    is another class: beside an active Digital Marketing profile that
    title is still Data Analysis while the fallback is Digital Marketing,
    and in the context "development" a title naming PyTorch is Machine
    Learning while the fallback is Data Analysis. *)
Theorem keyword_match_wins :
  (forall (title : string) (active : list string) (categories : string),
      plain title = true ->
      categories <> "marketing" ->
      categories = "development"
      \/ Forall (fun k => contains k (lower title) = false) MK_KW ->
      let r := _classify_profile title active categories in
      let no_ml :=
        Forall (fun k => contains k (lower title) = false) ML_KW
        \/ "Machine Learning" ∉ active in
      let no_da :=
        Forall (fun k => contains k (lower title) = false) DA_KW
        \/ "Data Analysis" ∉ active in
      (Exists (fun k => contains k (lower title) = true) ML_KW ->
       "Machine Learning" ∈ active -> r = "Machine Learning")
      /\ (Exists (fun k => contains k (lower title) = true) DA_KW ->
          "Data Analysis" ∈ active -> no_ml -> r = "Data Analysis")
      /\ (no_ml -> no_da -> r = _classify_profile "" active categories))
  /\ _profiles_to_categories ["Machine Learning"; "Data Analysis"] = "development"
  /\ plain analyst_title = true
  /\ Forall (fun k => contains k (lower analyst_title) = false) ML_KW
  /\ Exists (fun k => contains k (lower analyst_title) = true) DA_KW
  /\ _classify_profile analyst_title ["Machine Learning"; "Data Analysis"]
       "development" = "Data Analysis"
  /\ _classify_profile "" ["Digital Marketing"; "Machine Learning"; "Data Analysis"]
       "development,marketing" = "Digital Marketing"
  /\ _classify_profile analyst_title
       ["Digital Marketing"; "Machine Learning"; "Data Analysis"]
       "development,marketing" = "Data Analysis"
  /\ _classify_profile "" ["Machine Learning"; "Data Analysis"] "development"
     = "Data Analysis"
  /\ _classify_profile "PyTorch engineer needed"
       ["Machine Learning"; "Data Analysis"] "development" = "Machine Learning".
Proof.
  split.
  - intros title active categories _ Hnm Hmk. cbv zeta.
    assert (_contains_any (lower "") ML_KW = false) as E1 by (vm_compute; reflexivity).
    assert (_contains_any (lower "") DA_KW = false) as E2 by (vm_compute; reflexivity).
    assert (_contains_any (lower "") MK_KW = false) as E3 by (vm_compute; reflexivity).
    unfold _classify_profile. rewrite E1, E2, E3.
    apply String.eqb_neq in Hnm. rewrite Hnm.
    assert ((categories =? "development") = true
            \/ _contains_any (lower title) MK_KW = false) as Hmk'.
    { destruct Hmk as [-> | H]; [left; reflexivity | right].
      apply contains_any_false. exact H. }
    pose proof (contains_any_true title ML_KW) as Hml.
    pose proof (contains_any_false title ML_KW) as Hml'.
    pose proof (contains_any_true title DA_KW) as Hda.
    pose proof (contains_any_false title DA_KW) as Hda'.
    pose proof (active_elem "Machine Learning" active) as Aml.
    pose proof (active_elem "Data Analysis" active) as Ada.
    destruct (_contains_any (lower title) ML_KW) eqn:Kml;
      destruct (_contains_any (lower title) DA_KW) eqn:Kda;
      destruct (bool_decide ("Machine Learning" ∈ (list_to_set active : gset string))) eqn:Bml;
      destruct (bool_decide ("Data Analysis" ∈ (list_to_set active : gset string))) eqn:Bda;
      destruct (categories =? "development") eqn:Hdev;
      (destruct Hmk' as [Hmk' | Hmk']; [try discriminate Hmk' | rewrite ?Hmk']);
      cbn [andb negb];
      (split; [intros X1 X2 | split; [intros X1 X2 X3 | intros X3 X4]]);
      try reflexivity;
      try (exfalso; apply Aml in X2; discriminate X2);
      try (exfalso; apply Ada in X2; discriminate X2);
      try (exfalso; apply Hml in X1; discriminate X1);
      try (exfalso; apply Hda in X1; discriminate X1);
      try (exfalso; destruct X3 as [X3 | X3];
           [apply Hml' in X3; discriminate X3 | apply X3, Aml; reflexivity]);
      try (exfalso; destruct X4 as [X4 | X4];
           [apply Hda' in X4; discriminate X4 | apply X4, Ada; reflexivity]).
  - split; [vm_compute; reflexivity |].
    split; [vm_compute; reflexivity |].
    split; [apply contains_any_false; vm_compute; reflexivity |].
    split; [apply contains_any_true; vm_compute; reflexivity |].
    repeat split; vm_compute; reflexivity.
Qed.

End KeywordFacts.

(* ===================================================================== *)
(** * A matched record and a candidate with a description *)
(* ===================================================================== *)

Module PriorityFacts.
Import Models Db DbFacts SaveFacts VodafoneFacts ResolveFacts IngestionFacts
       Idempotence Spec Samples Views Cases RunFacts.

(** C2.  A candidate that carries a detail_url resolves, in both save
    paths, to the first stored record with that detail_url (and, in
    [save_jobs], with the source of the candidate), whatever the apply_url
    of the record.  The Vodafone [save_jobs_bulk] then merges the candidate
    into that record and adds no row.  [save_jobs] does not when the
    candidate carries a description: [_update_job_fields] raises
    ValueError on that field, the run stops before the commit and the
    table is left as it was, the matched record not updated. *)
Theorem detail_url_match_not_merged
    (now : nat -> Z) (table : list Job) (item : Posting) (r : Job) :
  truthy (get item K.detail_url) = true ->
  r ∈ table ->
  detail_url r = get item K.detail_url ->
  source r = get (Save.default_source item) K.source ->
  blank (get item K.description) = false ->
  (exists i r0,
      table !! i = Some r0
      /\ detail_url r0 = get item K.detail_url
      /\ source r0 = get (Save.default_source item) K.source
      /\ Save._find_existing_job (open table) (Save.default_source item)
         = Some (i, r0))
  /\ Save.save_jobs_bulk now [item] table = (table, Raise ValueError)
  /\ (exists i r1,
        table !! i = Some r1
        /\ detail_url r1 = get item K.detail_url
        /\ Vodafone.find_existing (open table) item = Some (i, r1)
        /\ Vodafone.save_jobs_bulk now [item] table
           = (<[i := Vodafone.merge r1 item]> table, 1)).
Proof.
  intros Hd Hr Hdr Hsr Hb.
  destruct resolution_prefers_detail_url as (Hs & Hv).
  destruct (Hs now (open table) item r 0 Hd Hr Hdr Hsr)
    as (i & r0 & Hr0 & Hd0 & Hs0 & _ & Hfind & _).
  destruct (Hv now (open table) item r Hd Hr Hdr)
    as (i' & r1 & Hr1 & Hd1 & _ & Hfind' & Hsave).
  cbn [rows objects open] in Hr0, Hr1, Hfind, Hfind', Hsave.
  rewrite Hr0 in Hfind. rewrite Hr1 in Hfind', Hsave. cbn [default from_option id] in *.
  split; [exists i, r0; repeat split; assumption |].
  split.
  - assert (resolve table item = Some i) as Hres
      by (unfold resolve; rewrite Hfind; reflexivity).
    rewrite (save_jobs_bulk_loop now [item] table) by discriminate.
    rewrite (save_loop_described now table item i [item]
               ltac:(left) Hres Hb (open table) 0 eq_refl).
    reflexivity.
  - exists i', r1. split; [exact Hr1 | split; [exact Hd1 | split; [exact Hfind' |]]].
    unfold Vodafone.save_jobs_bulk. cbn [fold_left fst snd].
    rewrite Hsave. cbn [commit store_object rows objects new open Nat.add].
    rewrite app_nil_r. reflexivity.
Qed.

Lemma detail_url_match_not_merged_witness :
  Save._find_existing_job (open [stored_job1]) (Save.default_source job1_described)
  = Some (0, stored_job1)
  /\ Save.save_jobs_bulk clock [job1_described] [stored_job1]
     = ([stored_job1], Raise ValueError)
  /\ location <$> fst (Vodafone.save_jobs_bulk clock [job1_described] [stored_job1]) !! 0
     = Some (PStr "Giza").
Proof.
  assert (stored_job1 ∈ [stored_job1]) as Hin by left.
  destruct (detail_url_match_not_merged clock [stored_job1] job1_described
              stored_job1 eq_refl Hin eq_refl eq_refl eq_refl)
    as ((i & r0 & Hr0 & _ & _ & Hfind) & Hsave & (i' & r1 & Hr1 & _ & _ & Hbulk)).
  destruct i as [| i]; [| destruct i; discriminate Hr0].
  destruct i' as [| i']; [| destruct i'; discriminate Hr1].
  cbn in Hr0, Hr1. injection Hr0 as <-. injection Hr1 as <-.
  split; [exact Hfind | split; [exact Hsave |]].
  rewrite Hbulk. vm_compute. reflexivity.
Defined.

End PriorityFacts.

(* ===================================================================== *)
(** * The canonical apply URL, from the address to the result *)
(* ===================================================================== *)

Module ApplyUrlFacts.
Import Vodafone Urllib Spec Samples Views Domain UrlFacts QuoteFacts.

(** ** Runs of ASCII digits *)

Lemma digit_byte_cases b :
  digit_byte b = true ->
  In b (list_ascii_of_string "0123456789").
Proof.
  unfold digit_byte, byte_val. intros H. apply andb_true_iff in H as (Hlo & Hhi).
  apply N.leb_le in Hlo, Hhi.
  rewrite <- (ascii_N_embedding b).
  assert (In (N_of_ascii b) (List.map N.of_nat (seq 48 10))) as Hin.
  { rewrite <- (N2Nat.id (N_of_ascii b)). apply in_map, in_seq. lia. }
  revert Hin. generalize (N_of_ascii b). intros n Hin.
  cbn in Hin. repeat (destruct Hin as [<- | Hin]; [cbn; tauto |]). contradiction.
Qed.

Lemma digit_byte_facts b :
  digit_byte b = true ->
  always_safe b = true /\ isdigit (String b "") = true
  /\ is_cont b = false /\ Ascii.eqb "a" b = false.
Proof.
  intros H. apply digit_byte_cases in H. cbn in H.
  repeat (destruct H as [<- | H]; [vm_compute; repeat split |]). contradiction.
Qed.

Lemma digits_safe pid :
  all_bytes digit_byte pid = true -> all_bytes always_safe pid = true.
Proof.
  apply all_bytes_impl. intros b Hb. apply (digit_byte_facts b Hb).
Qed.

Lemma digits_chars pid :
  all_bytes digit_byte pid = true ->
  take_while isdigit (chars pid) = chars pid
  /\ (pid <> "" -> chars pid <> []).
Proof.
  induction pid as [| b r IH]; [split; [reflexivity | congruence] |].
  cbn [all_bytes]. intros H. apply andb_true_iff in H as (Hb & Hr).
  destruct (digit_byte_facts b Hb) as (_ & Hd & _ & _).
  destruct (IH Hr) as (IH1 & _). cbn [chars].
  destruct r as [| b' r'].
  - cbn [chars take_while]. rewrite Hd. split; [reflexivity | discriminate].
  - cbn [all_bytes] in Hr. apply andb_true_iff in Hr as (Hb' & _).
    destruct (digit_byte_facts b' Hb') as (_ & _ & Hc & _).
    destruct (chars (String b' r')) as [| c cs] eqn:E.
    + cbn [take_while]. rewrite Hd. split; [reflexivity | discriminate].
    + assert (starts_with_cont c = false) as Hsc.
      { pose proof (join_chars (String b' r')) as Hj. rewrite E in Hj.
        cbn [join fold_right] in Hj. destruct c as [| x c'].
        - reflexivity.
        - cbn in Hj. injection Hj as -> _. exact Hc. }
      rewrite Hsc. cbn [take_while] in IH1 |- *. rewrite Hd, IH1.
      split; [reflexivity | discriminate].
Qed.

Lemma digits_no_apply pid :
  all_bytes digit_byte pid = true -> contains "apply" pid = false.
Proof.
  induction pid as [| b r IH]; [reflexivity |].
  cbn [all_bytes]. intros H. apply andb_true_iff in H as (Hb & Hr).
  destruct (digit_byte_facts b Hb) as (_ & _ & _ & Ha).
  cbn [contains String.prefix].
  destruct (ascii_dec "a" b) as [E | _];
    [rewrite <- E in Ha; discriminate Ha |].
  cbn [orb]. exact (IH Hr).
Qed.

Lemma search_job_digits pid :
  pid <> "" -> all_bytes digit_byte pid = true ->
  search_digits_after "/job/" ("/careers/job/" ++ pid) = Some pid.
Proof.
  intros Hne Hd. destruct (digits_chars pid Hd) as (Htw & Hnil).
  transitivity
    (match
       match take_while isdigit (chars pid) with
       | [] => None
       | ds => Some (join ds)
       end
     with
     | Some ds => Some ds
     | None => search_digits_after "/job/" ("job/" ++ pid)
     end); [reflexivity |].
  rewrite Htw. destruct (chars pid) as [| c cs] eqn:E; [destruct (Hnil Hne eq_refl) |].
  rewrite <- E, join_chars. reflexivity.
Qed.

Lemma job_path_no_apply pid :
  all_bytes digit_byte pid = true ->
  contains "apply" ("/careers/job/" ++ pid) = false.
Proof.
  intros Hd. transitivity (contains "apply" pid); [reflexivity |].
  exact (digits_no_apply pid Hd).
Qed.

(** ** Reading the address *)

Lemma query_bytes_plain s :
  all_bytes (fun b => always_safe b || Ascii.eqb b "=" || Ascii.eqb b "&"
                      || Ascii.eqb b "?") s = true ->
  remove_bytes (fun b => Ascii.eqb b "009" || Ascii.eqb b "013" || Ascii.eqb b "010") s = s
  /\ has_byte "#" s = false /\ has_byte ";" s = false.
Proof.
  intros H. split; [| split].
  - apply remove_bytes_id. revert H. apply all_bytes_impl. intros b Hb.
    apply negb_true_iff.
    destruct (Ascii.eqb_spec b "009") as [-> |]; [vm_compute in Hb; discriminate |].
    destruct (Ascii.eqb_spec b "013") as [-> |]; [vm_compute in Hb; discriminate |].
    destruct (Ascii.eqb_spec b "010") as [-> |]; [vm_compute in Hb; discriminate |].
    reflexivity.
  - unfold has_byte. apply negb_false_iff. revert H. apply all_bytes_impl.
    intros b Hb. apply negb_true_iff.
    destruct (Ascii.eqb_spec b "#") as [-> |]; [vm_compute in Hb; discriminate |].
    reflexivity.
  - unfold has_byte. apply negb_false_iff. revert H. apply all_bytes_impl.
    intros b Hb. apply negb_true_iff.
    destruct (Ascii.eqb_spec b ";") as [-> |]; [vm_compute in Hb; discriminate |].
    reflexivity.
Qed.

Lemma safe_no_question s :
  all_bytes always_safe s = true -> has_byte "?" s = false.
Proof.
  intros H. unfold has_byte. apply negb_false_iff. revert H. apply all_bytes_impl.
  intros b Hb. apply negb_true_iff.
  destruct (Ascii.eqb_spec b "?") as [-> |]; [vm_compute in Hb; discriminate |].
  reflexivity.
Qed.

Section Address.

Variable netloc_ok : string -> bool.
Variable utf8_replace : string -> string.

Lemma urlparse_job pid query_ :
  all_bytes digit_byte pid = true ->
  all_bytes (fun b => always_safe b || Ascii.eqb b "=" || Ascii.eqb b "&") query_ = true ->
  urlparse netloc_ok ("https://jobs.vodafone.com/careers/job/" ++ pid ++ "?" ++ query_)
  = Ret (mkParse "https" "jobs.vodafone.com" ("/careers/job/" ++ pid) "" query_ "").
Proof.
  intros Hd Hq. pose proof (digits_safe pid Hd) as Hs.
  assert (all_bytes (fun b => always_safe b || Ascii.eqb b "=" || Ascii.eqb b "&"
                              || Ascii.eqb b "?") (pid ++ "?" ++ query_) = true) as Hall.
  { rewrite !all_bytes_app.
    rewrite (all_bytes_impl always_safe _ pid) by (try exact Hs; intros b ->; reflexivity).
    rewrite (all_bytes_impl _ _ query_ (fun b Hb => eq_trans (f_equal (fun x => x || Ascii.eqb b "?") Hb) eq_refl) Hq).
    reflexivity. }
  destruct (query_bytes_plain _ Hall) as (Hrm & Hfrag & _).
  assert (all_bytes (fun b => always_safe b || Ascii.eqb b "=" || Ascii.eqb b "&"
                              || Ascii.eqb b "?") pid = true) as Hpid
    by (revert Hs; apply all_bytes_impl; intros b ->; reflexivity).
  destruct (query_bytes_plain _ Hpid) as (_ & _ & Hsemi).
  unfold urlparse.
  replace (drop_bytes (fun b => (byte_val b <=? 32)%N)
             ("https://jobs.vodafone.com/careers/job/" ++ pid ++ "?" ++ query_))
    with ("https://jobs.vodafone.com/careers/job/" ++ pid ++ "?" ++ query_) by reflexivity.
  replace (remove_bytes (fun b => Ascii.eqb b "009" || Ascii.eqb b "013" || Ascii.eqb b "010")
             ("https://jobs.vodafone.com/careers/job/" ++ pid ++ "?" ++ query_))
    with ("https://jobs.vodafone.com/careers/job/"
          ++ remove_bytes (fun b => Ascii.eqb b "009" || Ascii.eqb b "013" || Ascii.eqb b "010")
               (pid ++ "?" ++ query_))
    by reflexivity.
  rewrite Hrm.
  transitivity
    (let '(u, fragment_) :=
       match split_once "#" ("/careers/job/" ++ pid ++ "?" ++ query_) with
       | Some (x, y) => (x, y)
       | None => ("/careers/job/" ++ pid ++ "?" ++ query_, EmptyString)
       end in
     let '(u, query_) :=
       match split_once "?" u with
       | Some (x, y) => (x, y)
       | None => (u, EmptyString)
       end in
     let '(u, params_) :=
       if existsb (String.eqb "https") uses_params && has_byte ";" u
       then _splitparams u
       else (u, EmptyString) in
     Ret (mkParse "https" "jobs.vodafone.com" u params_ query_ fragment_)).
  { reflexivity. }
  rewrite (split_once_none "#" ("/careers/job/" ++ pid ++ "?" ++ query_))
    by (change ("/careers/job/" ++ pid ++ "?" ++ query_)
          with ("/careers/job/" ++ (pid ++ "?" ++ query_));
        rewrite has_byte_app, Hfrag; reflexivity).
  replace ("/careers/job/" ++ pid ++ "?" ++ query_)
    with (("/careers/job/" ++ pid) ++ String "?" query_)
    by (rewrite append_assoc; reflexivity).
  rewrite (split_once_app "?" ("/careers/job/" ++ pid) query_)
    by (rewrite has_byte_app, (safe_no_question pid Hs); reflexivity).
  rewrite has_byte_app, Hsemi. reflexivity.
Qed.

Lemma urlparse_job_bare pid :
  all_bytes digit_byte pid = true ->
  urlparse netloc_ok ("https://jobs.vodafone.com/careers/job/" ++ pid)
  = Ret (mkParse "https" "jobs.vodafone.com" ("/careers/job/" ++ pid) "" "" "").
Proof.
  intros Hd. pose proof (digits_safe pid Hd) as Hs.
  assert (all_bytes (fun b => always_safe b || Ascii.eqb b "=" || Ascii.eqb b "&"
                              || Ascii.eqb b "?") pid = true) as Hpid
    by (revert Hs; apply all_bytes_impl; intros b ->; reflexivity).
  destruct (query_bytes_plain _ Hpid) as (Hrm & Hfrag & Hsemi).
  unfold urlparse.
  replace (drop_bytes (fun b => (byte_val b <=? 32)%N)
             ("https://jobs.vodafone.com/careers/job/" ++ pid))
    with ("https://jobs.vodafone.com/careers/job/" ++ pid) by reflexivity.
  replace (remove_bytes (fun b => Ascii.eqb b "009" || Ascii.eqb b "013" || Ascii.eqb b "010")
             ("https://jobs.vodafone.com/careers/job/" ++ pid))
    with ("https://jobs.vodafone.com/careers/job/"
          ++ remove_bytes (fun b => Ascii.eqb b "009" || Ascii.eqb b "013" || Ascii.eqb b "010")
               pid)
    by reflexivity.
  rewrite Hrm.
  transitivity
    (let '(u, fragment_) :=
       match split_once "#" ("/careers/job/" ++ pid) with
       | Some (x, y) => (x, y)
       | None => ("/careers/job/" ++ pid, EmptyString)
       end in
     let '(u, query_) :=
       match split_once "?" u with
       | Some (x, y) => (x, y)
       | None => (u, EmptyString)
       end in
     let '(u, params_) :=
       if existsb (String.eqb "https") uses_params && has_byte ";" u
       then _splitparams u
       else (u, EmptyString) in
     Ret (mkParse "https" "jobs.vodafone.com" u params_ query_ fragment_)).
  { reflexivity. }
  rewrite (split_once_none "#" ("/careers/job/" ++ pid))
    by (rewrite has_byte_app, Hfrag; reflexivity).
  rewrite (split_once_none "?" ("/careers/job/" ++ pid))
    by (rewrite has_byte_app, (safe_no_question pid Hs); reflexivity).
  rewrite has_byte_app, Hsemi. reflexivity.
Qed.

Lemma urlparse_apply query_ :
  all_bytes (fun b => always_safe b || Ascii.eqb b "=" || Ascii.eqb b "&") query_ = true ->
  urlparse netloc_ok ("https://jobs.vodafone.com/careers/apply?" ++ query_)
  = Ret (mkParse "https" "jobs.vodafone.com" "/careers/apply" "" query_ "").
Proof.
  intros Hq.
  assert (all_bytes (fun b => always_safe b || Ascii.eqb b "=" || Ascii.eqb b "&"
                              || Ascii.eqb b "?") query_ = true) as Hall
    by (revert Hq; apply all_bytes_impl; intros b ->; reflexivity).
  destruct (query_bytes_plain _ Hall) as (Hrm & Hfrag & _).
  unfold urlparse.
  replace (drop_bytes (fun b => (byte_val b <=? 32)%N)
             ("https://jobs.vodafone.com/careers/apply?" ++ query_))
    with ("https://jobs.vodafone.com/careers/apply?" ++ query_) by reflexivity.
  replace (remove_bytes (fun b => Ascii.eqb b "009" || Ascii.eqb b "013" || Ascii.eqb b "010")
             ("https://jobs.vodafone.com/careers/apply?" ++ query_))
    with ("https://jobs.vodafone.com/careers/apply?"
          ++ remove_bytes (fun b => Ascii.eqb b "009" || Ascii.eqb b "013" || Ascii.eqb b "010")
               query_)
    by reflexivity.
  rewrite Hrm.
  transitivity
    (let '(u, fragment_) :=
       match split_once "#" ("/careers/apply?" ++ query_) with
       | Some (x, y) => (x, y)
       | None => ("/careers/apply?" ++ query_, EmptyString)
       end in
     let '(u, query_) :=
       match split_once "?" u with
       | Some (x, y) => (x, y)
       | None => (u, EmptyString)
       end in
     let '(u, params_) :=
       if existsb (String.eqb "https") uses_params && has_byte ";" u
       then _splitparams u
       else (u, EmptyString) in
     Ret (mkParse "https" "jobs.vodafone.com" u params_ query_ fragment_)).
  { reflexivity. }
  rewrite (split_once_none "#" ("/careers/apply?" ++ query_))
    by (rewrite has_byte_app, Hfrag; reflexivity).
  reflexivity.
Qed.

(** ** Reading the query *)

Lemma safe_pair_bytes k v :
  all_bytes always_safe k = true -> all_bytes always_safe v = true ->
  all_bytes (fun b => always_safe b || Ascii.eqb b "=" || Ascii.eqb b "&")
            (k ++ "=" ++ v) = true.
Proof.
  intros Hk Hv. rewrite !all_bytes_app.
  rewrite (all_bytes_impl always_safe _ k), (all_bytes_impl always_safe _ v);
    try assumption; try (intros b ->; reflexivity).
  reflexivity.
Qed.

Lemma parse_qsl_pair k v :
  all_bytes always_safe k = true -> all_bytes always_safe v = true -> v <> "" ->
  parse_qsl utf8_replace (k ++ "=" ++ v) = [(k, v)].
Proof.
  intros Hk Hv Hne.
  pose proof (parse_qsl_urlencode utf8_replace [(k, v)]) as H.
  rewrite urlencode_one, (quote_plus_safe k Hk), (quote_plus_safe v Hv) in H.
  rewrite H.
  - cbn [List.filter]. unfold has_value. cbn [snd].
    apply String.eqb_neq in Hne. rewrite Hne. reflexivity.
  - constructor; [| constructor].
    split; apply safe_readable; assumption.
Qed.

Lemma parse_qsl_two k1 v1 k2 v2 :
  all_bytes always_safe k1 = true -> all_bytes always_safe v1 = true -> v1 <> "" ->
  all_bytes always_safe k2 = true -> all_bytes always_safe v2 = true -> v2 <> "" ->
  parse_qsl utf8_replace ((k1 ++ "=" ++ v1) ++ "&" ++ k2 ++ "=" ++ v2)
  = [(k1, v1); (k2, v2)].
Proof.
  intros Hk1 Hv1 Hn1 Hk2 Hv2 Hn2.
  pose proof (parse_qsl_urlencode utf8_replace [(k1, v1); (k2, v2)]) as H.
  rewrite urlencode_cons, urlencode_one in H.
  rewrite (quote_plus_safe k1 Hk1), (quote_plus_safe v1 Hv1),
          (quote_plus_safe k2 Hk2), (quote_plus_safe v2 Hv2) in H.
  rewrite H.
  - cbn [List.filter]. unfold has_value. cbn [snd].
    apply String.eqb_neq in Hn1, Hn2. rewrite Hn1, Hn2. reflexivity.
  - constructor; [| constructor; [| constructor]];
      split; apply safe_readable; assumption.
Qed.

Lemma first_value_one qs k v name dflt :
  parse_qsl utf8_replace qs = [(k, v)] ->
  first_value (parse_qs utf8_replace qs) name dflt
  = if String.eqb k name then Some v else dflt.
Proof.
  intros H. unfold parse_qs, first_value. rewrite H. cbn [fold_left fst snd].
  rewrite lookup_empty.
  destruct (String.eqb_spec k name) as [-> | Hne].
  - rewrite lookup_insert_eq. reflexivity.
  - rewrite lookup_insert_ne, lookup_empty by exact Hne. reflexivity.
Qed.

Lemma first_value_two qs k1 v1 k2 v2 name dflt :
  k1 <> k2 ->
  parse_qsl utf8_replace qs = [(k1, v1); (k2, v2)] ->
  first_value (parse_qs utf8_replace qs) name dflt
  = if String.eqb k1 name then Some v1
    else if String.eqb k2 name then Some v2 else dflt.
Proof.
  intros Hk H. unfold parse_qs, first_value. rewrite H. cbn [fold_left fst snd].
  rewrite lookup_empty, lookup_insert_ne, lookup_empty by exact Hk.
  destruct (String.eqb_spec k1 name) as [-> | Hne1].
  - rewrite lookup_insert_ne, lookup_insert_eq by congruence.
    destruct (String.eqb_spec k2 name); [congruence | reflexivity].
  - destruct (String.eqb_spec k2 name) as [-> | Hne2].
    + rewrite lookup_insert_eq. reflexivity.
    + rewrite !lookup_insert_ne, lookup_empty by assumption. reflexivity.
Qed.

Lemma parse_qs_values (l : list (string * string)) (name : string) :
  forall m : gmap string (list string),
    fold_left
      (fun (parsed_result : gmap string (list string)) (nv : string * string) =>
         match parsed_result !! fst nv with
         | Some vs => <[fst nv := (vs ++ [snd nv])%list]> parsed_result
         | None => <[fst nv := [snd nv]]> parsed_result
         end) l m !! name
    = match m !! name,
            List.map snd (List.filter (fun kv => String.eqb (fst kv) name) l) with
      | Some vs, more => Some (vs ++ more)%list
      | None, [] => None
      | None, more => Some more
      end.
Proof.
  induction l as [| [k v] l IH]; intros m; cbn [fold_left List.filter List.map fst snd].
  - destruct (m !! name); [rewrite List.app_nil_r |]; reflexivity.
  - rewrite IH. destruct (String.eqb_spec k name) as [-> | Hne].
    + destruct (m !! name) as [vs |]; rewrite lookup_insert_eq; cbn [List.map snd].
      * rewrite <- List.app_assoc. reflexivity.
      * reflexivity.
    + destruct (m !! k); rewrite lookup_insert_ne by exact Hne; reflexivity.
Qed.

Lemma domain_of_urlencode (l : list (string * string)) :
  Forall (fun kv => readable utf8_replace (fst kv) /\ readable utf8_replace (snd kv)) l ->
  domain_of (parse_qs utf8_replace (urlencode l))
  = match List.filter (fun kv => String.eqb (fst kv) "domain")
                      (List.filter has_value l) with
    | kv :: _ => snd kv
    | [] => "vodafone.com"
    end.
Proof.
  intros Hl. unfold domain_of, parse_qs.
  rewrite (parse_qsl_urlencode utf8_replace l Hl), parse_qs_values, lookup_empty.
  destruct (List.filter (fun kv => String.eqb (fst kv) "domain")
                        (List.filter has_value l)) as [| kv rest]; reflexivity.
Qed.

(** C9.  What [to_apply_url] returns, first by the parts [urlparse] cuts
    the address into, then from the address to the result.  Let a
    non-empty URL parse into [p]; the scheme and the host of the result are
    those of [p], or "https" and the Vodafone host where [p] has none, and
    the domain is the first value of [domain] in the query of [p], or
    "vodafone.com".  A path that holds "/job/<digits>" and nowhere the
    text "apply" gives the template with those digits; a path that holds
    the text "apply" anywhere gives the template with the [pid] of the
    query (the parsed value, or else the digits after "pid=" in the raw
    query), and keeps its own path, with the domain appended, when the
    query names no pid; a path with neither gives the URL back unchanged.
    A query that [urlencode] wrote from a list of pairs has for domain
    the first value that is not empty among its pairs named [domain].
    So the address of the job [pid] with the query "domain=d" gives the
    template with [pid] and [d], the same address without a query gives
    it with "vodafone.com", and the template itself is given back as it
    is; an absent URL gives an absent result. *)
Theorem to_apply_url_cases :
  (forall (u : string) (p : ParseResult),
      u <> "" ->
      urlparse netloc_ok u = Ret p ->
      let scheme_ := or_str (scheme p) "https" in
      let host := or_str (netloc p) BASE_HOST in
      let q := parse_qs utf8_replace (query p) in
      let result := to_apply_url netloc_ok utf8_replace (Some u) "vodafone.com" in
      (forall digits,
          contains "apply" (path p) = false ->
          search_digits_after "/job/" (path p) = Some digits ->
          result = Ret (Some (apply_template scheme_ host digits (domain_of q)))
          /\ digit_run digits
          /\ exists pre post, path p = pre ++ "/job/" ++ digits ++ post)
      /\ (forall pid,
          contains "apply" (path p) = true ->
          first_value q "pid" None = Some pid ->
          result = Ret (Some (apply_template scheme_ host pid (domain_of q))))
      /\ (forall pid,
          contains "apply" (path p) = true ->
          first_value q "pid" None = None ->
          search_digits_after "pid=" (query p) = Some pid ->
          result = Ret (Some (apply_template scheme_ host pid (domain_of q))))
      /\ (contains "apply" (path p) = true ->
          first_value q "pid" None = None ->
          search_digits_after "pid=" (query p) = None ->
          result = Ret (Some (scheme_ ++ "://" ++ host ++ path p
                              ++ "?domain=" ++ domain_of q)))
      /\ (contains "apply" (path p) = false ->
          search_digits_after "/job/" (path p) = None ->
          result = Ret (Some u)))
  /\ (forall l : list (string * string),
        Forall (fun kv => readable utf8_replace (fst kv)
                          /\ readable utf8_replace (snd kv)) l ->
        domain_of (parse_qs utf8_replace (urlencode l))
        = match List.filter (fun kv => String.eqb (fst kv) "domain")
                            (List.filter has_value l) with
          | kv :: _ => snd kv
          | [] => "vodafone.com"
          end)
  /\ (forall pid d : string,
        pid <> "" -> all_bytes digit_byte pid = true ->
        d <> "" -> all_bytes always_safe d = true ->
        to_apply_url netloc_ok utf8_replace
          (Some ("https://jobs.vodafone.com/careers/job/" ++ pid ++ "?domain=" ++ d))
          "vodafone.com"
        = Ret (Some ("https://jobs.vodafone.com/careers/apply?pid=" ++ pid
                     ++ "&domain=" ++ d))
        /\ to_apply_url netloc_ok utf8_replace
             (Some ("https://jobs.vodafone.com/careers/job/" ++ pid)) "vodafone.com"
           = Ret (Some ("https://jobs.vodafone.com/careers/apply?pid=" ++ pid
                        ++ "&domain=vodafone.com"))
        /\ to_apply_url netloc_ok utf8_replace
             (Some ("https://jobs.vodafone.com/careers/apply?pid=" ++ pid
                    ++ "&domain=" ++ d)) "vodafone.com"
           = Ret (Some ("https://jobs.vodafone.com/careers/apply?pid=" ++ pid
                        ++ "&domain=" ++ d)))
  /\ to_apply_url netloc_ok utf8_replace None "vodafone.com" = Ret None.
Proof.
  split; [| split; [exact domain_of_urlencode | split; [| reflexivity]]].
  - intros u p Hne Hparse.
    destruct (to_apply_url_parsed netloc_ok utf8_replace u p Hne Hparse)
      as (H1 & H2 & H3 & H4 & H5 & _).
    exact (conj H1 (conj H2 (conj H3 (conj H4 H5)))).
  - intros pid d Hp Hpd Hd Hds. pose proof (digits_safe pid Hpd) as Hps.
    assert (all_bytes always_safe "domain" = true) as Sdom by reflexivity.
    assert (all_bytes always_safe "pid" = true) as Spid by reflexivity.
    split; [| split].
    + unfold to_apply_url.
      change (String.eqb ("https://jobs.vodafone.com/careers/job/" ++ pid
                          ++ "?domain=" ++ d) "") with false.
      change ("?domain=" ++ d) with ("?" ++ ("domain" ++ "=" ++ d)).
      rewrite (urlparse_job pid ("domain" ++ "=" ++ d) Hpd
                 (safe_pair_bytes _ _ Sdom Hds)).
      cbn [bind scheme netloc path query].
      rewrite (job_path_no_apply pid Hpd), (search_job_digits pid Hp Hpd).
      rewrite (first_value_one _ _ _ "domain" (Some "vodafone.com")
                 (parse_qsl_pair "domain" d Sdom Hds Hd)).
      reflexivity.
    + unfold to_apply_url.
      change (String.eqb ("https://jobs.vodafone.com/careers/job/" ++ pid) "")
        with false.
      rewrite (urlparse_job_bare pid Hpd).
      cbn [bind scheme netloc path query].
      rewrite (job_path_no_apply pid Hpd), (search_job_digits pid Hp Hpd).
      reflexivity.
    + unfold to_apply_url.
      change (String.eqb ("https://jobs.vodafone.com/careers/apply?pid=" ++ pid
                          ++ "&domain=" ++ d) "") with false.
      replace ("https://jobs.vodafone.com/careers/apply?pid=" ++ pid ++ "&domain=" ++ d)
        with ("https://jobs.vodafone.com/careers/apply?"
              ++ (("pid" ++ "=" ++ pid) ++ "&" ++ "domain" ++ "=" ++ d))
        by (rewrite append_assoc; reflexivity).
      assert (all_bytes (fun b => always_safe b || Ascii.eqb b "=" || Ascii.eqb b "&")
                (("pid" ++ "=" ++ pid) ++ "&" ++ "domain" ++ "=" ++ d) = true) as Hq.
      { rewrite all_bytes_app, (safe_pair_bytes _ _ Spid Hps).
        change ("&" ++ "domain" ++ "=" ++ d) with (String "&" ("domain" ++ "=" ++ d)).
        cbn [all_bytes andb]. rewrite (safe_pair_bytes _ _ Sdom Hds). reflexivity. }
      rewrite (urlparse_apply _ Hq).
      cbn [bind scheme netloc path query].
      pose proof (parse_qsl_two "pid" pid "domain" d Spid Hps Hp Sdom Hds Hd) as Hqs.
      assert ("pid" <> "domain") as Hkeys by discriminate.
      rewrite (first_value_two _ _ _ _ _ "domain" (Some "vodafone.com") Hkeys Hqs).
      rewrite (first_value_two _ _ _ _ _ "pid" None Hkeys Hqs).
      reflexivity.
Qed.

End Address.

Lemma to_apply_url_cases_witness :
  to_apply_url (fun _ => true) (fun s => s)
    (Some "https://jobs.vodafone.com/careers/job/563018687504927?domain=vodafone.co.uk")
    "vodafone.com"
  = Ret (Some "https://jobs.vodafone.com/careers/apply?pid=563018687504927&domain=vodafone.co.uk").
Proof.
  destruct (to_apply_url_cases (fun _ => true) (fun s => s)) as (_ & _ & Hjob & _).
  destruct (Hjob "563018687504927" "vodafone.co.uk") as (H & _);
    [discriminate | reflexivity | discriminate | reflexivity |].
  exact H.
Defined.

(** C9 as stated fails: the path below holds the job identifier
    "/job/123" and none of its segments is "apply", yet the text "apply"
    in its last segment sends it to the branch of apply links, which finds
    no pid and gives the path back with the domain appended instead of
    the template. *)
Lemma apply_in_slug_not_template :
  let u := "https://jobs.vodafone.com/careers/job/123-apply-now" in
  let result := to_apply_url (fun _ => true) (fun s => s) (Some u) "vodafone.com" in
  urlparse (fun _ => true) u
  = Ret (mkParse "https" "jobs.vodafone.com" "/careers/job/123-apply-now" "" "" "")
  /\ Jobs.split_byte "/" "/careers/job/123-apply-now"
     = [""; "careers"; "job"; "123-apply-now"]
  /\ search_digits_after "/job/" "/careers/job/123-apply-now" = Some "123"
  /\ result
     = Ret (Some "https://jobs.vodafone.com/careers/job/123-apply-now?domain=vodafone.com")
  /\ result
     <> Ret (Some (apply_template "https" "jobs.vodafone.com" "123" "vodafone.com")).
Proof.
  cbv zeta.
  split; [vm_compute; reflexivity |].
  split; [vm_compute; reflexivity |].
  split; [vm_compute; reflexivity |].
  split; [vm_compute; reflexivity |].
  vm_compute. discriminate.
Qed.

End ApplyUrlFacts.
